(** * Word -> Mandala: the deterministic pipeline of [app.js]

    The development embeds the core of [app.js]: the string hasher
    [xmur3], the seed stirrer [computeSeed], the generator [mulberry32],
    [sanitizeWord], [makePalette] and the compositor [drawMandala] with
    its helpers, and proves properties of them.

    Conventions.
    - A JavaScript string is the list of its UTF-16 code units.
    - A JavaScript Number that holds an integer is a [Z]; the 32-bit
      operators ([^], [|], [<<], [>>>], [Math.imul]) are written out with
      their [ToInt32]/[ToUint32] conversions, and the addition of doubles
      with its rounding.
    - A value returned by the generator is the double [u / 2^32] for an
      unsigned 32-bit [u]; it is represented by its numerator [u].
      [Math.floor(c + rng() * k)] for small integers [c] and [k] is exact
      in double precision and is computed on rationals.
    - The other doubles handed to the canvas are kept as the arithmetic the
      source performs on them (type [Num]); a render is the list of the
      calls it makes on the 2D context (type [Call]).
    - The closure [rng] is local to one call of [drawMandala]: drawing code
      is a function of the captured state of the generator (type [M]).
    - The page [main] works on is a record of what its listeners read and
      write (type [Page]); what the host does to it is a list of events
      (type [Event]). *)

From Stdlib Require Import ZArith QArith Qround Lia List String Ascii Bool.
From Stdlib Require Import DecimalN DecimalPos.
From stdpp Require Import base option list gmap.
Import ListNotations.

Local Open Scope Z_scope.

(** ** 32-bit integer operators of JavaScript *)

Module JS.

Definition ToUint32 (x : Z) : Z := x mod 4294967296.

Definition ToInt32 (x : Z) : Z :=
  let m := x mod 4294967296 in
  if m <? 2147483648 then m else m - 4294967296.

(** [x ^ y] *)
Definition xor (x y : Z) : Z := ToInt32 (Z.lxor (ToInt32 x) (ToInt32 y)).

(** [x | y] *)
Definition or (x y : Z) : Z := ToInt32 (Z.lor (ToInt32 x) (ToInt32 y)).

(** [x << n] *)
Definition shl (x n : Z) : Z := ToInt32 (Z.shiftl (ToInt32 x) (n mod 32)).

(** [x >>> n] *)
Definition ushr (x n : Z) : Z := Z.shiftr (ToUint32 x) (n mod 32).

(** [Math.imul(x, y)] *)
Definition imul (x y : Z) : Z := ToInt32 (ToInt32 x * ToInt32 y).

(** The double nearest to the integer [z] (round to nearest, ties to
    even): integers below [2^53] in magnitude are doubles, larger ones
    keep 53 significant bits. *)
Definition round_to_double (z : Z) : Z :=
  let m := Z.abs z in
  if m <? 2 ^ 53 then z
  else
    let e := Z.log2 m - 52 in
    let q := m / 2 ^ e in
    let r := m mod 2 ^ e in
    let half := 2 ^ (e - 1) in
    let q' := if r <? half then q
              else if half <? r then q + 1
              else if Z.even q then q else q + 1 in
    Z.sgn z * (q' * 2 ^ e).

(** [x + y] on two doubles that hold integers *)
Definition add (x y : Z) : Z := round_to_double (x + y).

(** [x || y] on numbers: [0] is falsy *)
Definition or_else (x y : Z) : Z := if x =? 0 then y else x.

(** [Math.max(min, Math.min(max, n))] *)
Definition clamp (n min max : Z) : Z := Z.max min (Z.min max n).

End JS.

(** ** Strings *)

Definition jsstring : Type := list Z.

(** The code units of an ASCII literal. *)
Fixpoint lit (s : string) : jsstring :=
  match s with
  | EmptyString => []
  | String c s' => Z.of_nat (nat_of_ascii c) :: lit s'
  end.

(** [WhiteSpace] and [LineTerminator] code points: what [trim] strips and
    what [\s] matches. *)
Definition is_space (c : Z) : bool :=
  (c =? 9) || (c =? 10) || (c =? 11) || (c =? 12) || (c =? 13) || (c =? 32)
  || (c =? 160) || (c =? 5760) || ((8192 <=? c) && (c <=? 8202))
  || (c =? 8232) || (c =? 8233) || (c =? 8239) || (c =? 8287)
  || (c =? 12288) || (c =? 65279).

Fixpoint trimStart (s : jsstring) : jsstring :=
  match s with
  | [] => []
  | c :: s' => if is_space c then trimStart s' else s
  end.

Definition trimEnd (s : jsstring) : jsstring := rev (trimStart (rev s)).

(** [s.trim()] *)
Definition trim (s : jsstring) : jsstring := trimEnd (trimStart s).

(** [s.split(/\s+/)]: the pieces between maximal runs of white space;
    [in_gap] tells that the previous code unit was white space. A leading
    or trailing run leaves an empty first or last piece, and the empty
    string splits into one empty piece. *)
Fixpoint split_ws (in_gap : bool) (s : jsstring) : list jsstring :=
  match s with
  | [] => [[]]
  | c :: s' =>
      if is_space c then
        if in_gap then split_ws true s' else [] :: split_ws true s'
      else
        match split_ws false s' with
        | t :: ts => (c :: t) :: ts
        | [] => [[c]]
        end
  end.

Definition split (s : jsstring) : list jsstring := split_ws false s.

(** [s.slice(0, n)] *)
Definition slice0 (n : nat) (s : jsstring) : jsstring := firstn n s.

(** [sanitizeWord]: [(raw || "").trim().split(/\s+/)[0] || ""], then
    [slice(0, 32)]. *)
Definition sanitizeWord (raw : jsstring) : jsstring :=
  let w := match split (trim raw) with
           | t :: _ => t
           | [] => []
           end in
  slice0 32 w.

(** Code points of a string, as string iteration yields them: a high
    surrogate followed by a low one is a single code point, any other code
    unit stands for itself. *)
Definition is_high_surrogate (c : Z) : bool := (55296 <=? c) && (c <=? 56319).
Definition is_low_surrogate (c : Z) : bool := (56320 <=? c) && (c <=? 57343).

Fixpoint code_points (s : jsstring) : list Z :=
  match s with
  | [] => []
  | c :: s' =>
      match s' with
      | d :: s'' =>
          if is_high_surrogate c && is_low_surrogate d
          then (65536 + (c - 55296) * 1024 + (d - 56320)) :: code_points s''
          else c :: code_points s'
      | [] => [c]
      end
  end.

(** Whether a string holds a surrogate pair: a high surrogate with a low
    one right after it. *)
Fixpoint has_surrogate_pair (s : jsstring) : bool :=
  match s with
  | [] => false
  | c :: s' =>
      match s' with
      | d :: _ => (is_high_surrogate c && is_low_surrogate d) || has_surrogate_pair s'
      | [] => false
      end
  end.

(** The first white-space-delimited token of an input. *)
Fixpoint token (s : jsstring) : jsstring :=
  match s with
  | [] => []
  | c :: s' => if is_space c then [] else c :: token s'
  end.

Definition first_token (raw : jsstring) : jsstring := token (trimStart raw).

(** Lower-casing of the Basic Latin block. *)
Definition ascii_lower (c : Z) : Z :=
  if (65 <=? c) && (c <=? 90) then c + 32 else c.

(** [String.prototype.toLowerCase] is the host's Unicode case mapping. What
    is used of it: lower-casing twice is lower-casing once, and on ASCII
    strings it maps [A-Z] to [a-z] and nothing else. *)
Class CaseMapping := {
  toLowerCase : jsstring -> jsstring;
  toLowerCase_idem : forall s, toLowerCase (toLowerCase s) = toLowerCase s;
  toLowerCase_ascii :
    forall s, Forall (fun c => 0 <= c < 128) s ->
              toLowerCase s = map ascii_lower s
}.

(** ** The string hasher and the seed *)

(** [xmur3(str)]: the value of the captured [h] when the closure is
    returned. *)
Definition xmur3_mix (h c : Z) : Z :=
  let h := JS.imul (JS.xor h c) 3432918353 in
  JS.or (JS.shl h 13) (JS.ushr h 19).

Definition xmur3 (str : jsstring) : Z :=
  fold_left xmur3_mix str (JS.xor 1779033703 (Z.of_nat (length str))).

(** One call of the closure [xmur3] returns: the value returned and the new
    [h]. *)
Definition xmur3_call (h : Z) : Z * Z :=
  let h := JS.imul (JS.xor h (JS.ushr h 16)) 2246822507 in
  let h := JS.imul (JS.xor h (JS.ushr h 13)) 3266489909 in
  let h := JS.xor h (JS.ushr h 16) in
  (JS.ushr h 0, h).

Arguments xmur3_call : simpl never.
Arguments xmur3_mix : simpl never.

Definition computeSeed `{CaseMapping} (word : jsstring) : Z :=
  let h := xmur3 (toLowerCase word) in
  let '(s1, h) := xmur3_call h in
  let '(s2, h) := xmur3_call h in
  let '(s3, h) := xmur3_call h in
  JS.ushr (JS.xor (JS.xor s1 s2) s3) 0.

(** The same stream in the words of the specification, on unsigned 32-bit
    words: [h = 1779033703 XOR length], each code unit mixed by a wrapping
    multiplication with 3432918353 and a rotation to the left by 13; each
    output is one more mixing round; the seed is the XOR of the first
    three outputs. *)
Module Spec.

Definition wrap (x : Z) : Z := x mod 2 ^ 32.

Definition imul32 (x y : Z) : Z := wrap (x * y).

Definition rotl32 (x k : Z) : Z :=
  wrap (Z.lor (Z.shiftl x k) (Z.shiftr x (32 - k))).

Definition hash_init (s : jsstring) : Z :=
  fold_left (fun h c => rotl32 (imul32 (Z.lxor h c) 3432918353) 13) s
            (Z.lxor 1779033703 (Z.of_nat (length s))).

Definition hash_next (h : Z) : Z :=
  let h := imul32 (Z.lxor h (Z.shiftr h 16)) 2246822507 in
  let h := imul32 (Z.lxor h (Z.shiftr h 13)) 3266489909 in
  Z.lxor h (Z.shiftr h 16).

Definition seed (s : jsstring) : Z :=
  let s1 := hash_next (hash_init s) in
  let s2 := hash_next s1 in
  let s3 := hash_next s2 in
  Z.lxor (Z.lxor s1 s2) s3.

End Spec.

(** ** The generator *)

(** One call of the closure [mulberry32(a)] returns. The source divides the
    final unsigned 32-bit value by 4294967296; the call is modelled by that
    numerator [u] and the new value of the captured [a]. [a] is a Number,
    not a 32-bit integer: [a += 0x6d2b79f5] is an addition of doubles. *)
Definition mulberry32_call (a : Z) : Z * Z :=
  let a := JS.add a 1831565813 in
  let t := a in
  let t := JS.imul (JS.xor t (JS.ushr t 15)) (JS.or t 1) in
  let t := JS.xor t (JS.add t (JS.imul (JS.xor t (JS.ushr t 7)) (JS.or t 61))) in
  (JS.ushr (JS.xor t (JS.ushr t 14)) 0, a).

Arguments mulberry32_call : simpl never.

(** The double a call returns, as a rational. *)
Definition Qdraw (u : Z) : Q := u # 4294967296.

(** The first [n] values a generator yields from captured state [a], and
    the captured state after [n] calls. *)
Fixpoint draws (n : nat) (a : Z) : list Z :=
  match n with
  | O => []
  | S n' => fst (mulberry32_call a) :: draws n' (snd (mulberry32_call a))
  end.

Fixpoint gen_after (n : nat) (a : Z) : Z :=
  match n with
  | O => a
  | S n' => gen_after n' (snd (mulberry32_call a))
  end.

(** The [k]-th value (counting from 0) of the generator seeded with [seed]. *)
Definition draw_at (seed : Z) (k : nat) : Z :=
  fst (mulberry32_call (gen_after k seed)).

(** Generators as closures: every [mulberry32(seed)] allocates a cell for
    its captured variable; a call reads and writes the cell of its own
    closure. *)
Module Closures.

Definition mulberry32 (seed : Z) (st : gmap nat Z) : nat * gmap nat Z :=
  let g := fresh (dom st) in (g, <[g := seed]> st).

Definition call (g : nat) (st : gmap nat Z) : option (Z * gmap nat Z) :=
  match st !! g with
  | Some a =>
      let '(u, a') := mulberry32_call a in Some (u, <[g := a']> st)
  | None => None
  end.

(** Calling the closures named in [sched], in that order; the result
    lists each call with the value it returned. *)
Fixpoint run (sched : list nat) (st : gmap nat Z) : option (list (nat * Z)) :=
  match sched with
  | [] => Some []
  | g :: sched' =>
      match call g st with
      | Some (u, st') =>
          match run sched' st' with
          | Some outs => Some ((g, u) :: outs)
          | None => None
          end
      | None => None
      end
  end.

(** The values one closure returned, in order. *)
Definition returned (g : nat) (outs : list (nat * Z)) : list Z :=
  map snd (filter (fun o => fst o = g) outs).

Definition calls_of (g : nat) (sched : list nat) : nat :=
  length (filter (fun g' => g' = g) sched).

End Closures.

(** ** Numbers, styles and canvas calls *)

(** A double handed to the canvas, as the expression that computes it.
    [Int z] is an integer, [Lit q] a decimal literal of the source, [Draw u]
    a value [u / 2^32] returned by the generator. *)
Inductive Num : Type :=
| Int (z : Z)
| Lit (q : Q)
| Draw (u : Z)
| PI
| Add (a b : Num)
| Sub (a b : Num)
| Mul (a b : Num)
| Div (a b : Num)
| Rem (a b : Num)
| Neg (a : Num)
| Sin (a : Num)
| Cos (a : Num)
| Floor (a : Num)
| Round (a : Num)
| Max (a b : Num).

Arguments Int z%_Z.
Arguments Lit q%_Q.

Declare Scope num_scope.
Delimit Scope num_scope with num.
Bind Scope num_scope with Num.
Notation "a + b" := (Add a b) : num_scope.
Notation "a - b" := (Sub a b) : num_scope.
Notation "a * b" := (Mul a b) : num_scope.
Notation "a / b" := (Div a b) : num_scope.
Notation "- a" := (Neg a) : num_scope.

(** A colour or gradient assigned to the context. [hsla h s l a] is the
    template string of [hsl], [rgba_white a] the template
    [rgba(255,255,255,a)] of the film grain, [css] a literal, [gradient]
    the object returned by [createRadialGradient]. *)
Inductive Style : Type :=
| hsla (h s l a : Num)
| rgba_white (a : Num)
| css (s : string)
| gradient.

(** [hsl(h, s, l, a)] *)
Definition hsl (h s l a : Num) : Style := hsla (Round h) (Round s) (Round l) a.

(** The calls and assignments made on the 2D context (and on the gradient
    it returns). A style is [None] when the source passes [undefined]. *)
Inductive Call : Type :=
| ctx_clearRect (x y w h : Num)
| ctx_fillRect (x y w h : Num)
| ctx_createRadialGradient (x0 y0 r0 x1 y1 r1 : Num)
| g_addColorStop (offset : Num) (color : Style)
| ctx_fillStyle (s : option Style)
| ctx_strokeStyle (s : option Style)
| ctx_shadowColor (s : option Style)
| ctx_shadowBlur (n : Num)
| ctx_lineWidth (n : Num)
| ctx_lineCap (s : string)
| ctx_lineJoin (s : string)
| ctx_globalAlpha (n : Num)
| ctx_font (px : Num)
| ctx_textAlign (s : string)
| ctx_save
| ctx_restore
| ctx_translate (x y : Num)
| ctx_rotate (a : Num)
| ctx_beginPath
| ctx_closePath
| ctx_moveTo (x y : Num)
| ctx_lineTo (x y : Num)
| ctx_bezierCurveTo (cp1x cp1y cp2x cp2y x y : Num)
| ctx_arc (x y r a0 a1 : Num) (counterclockwise : bool)
| ctx_fill
| ctx_stroke
| ctx_fillText (text : jsstring) (x y : Num).

(** An integer of the source is read as a number where one is expected. *)
Coercion Int : Z >-> Num.
Arguments css s%_string.
Arguments ctx_lineCap s%_string.
Arguments ctx_lineJoin s%_string.
Arguments ctx_textAlign s%_string.

(** The divisions of an expression all divide by an integer other than 0. *)
Definition nonzero_int (e : Num) : bool :=
  match e with
  | Int z => negb (z =? 0)
  | _ => false
  end.

Fixpoint divisions_ok (e : Num) : bool :=
  match e with
  | Int _ | Lit _ | Draw _ | PI => true
  | Add a b | Sub a b | Mul a b | Max a b => divisions_ok a && divisions_ok b
  | Div a b | Rem a b => divisions_ok a && divisions_ok b && nonzero_int b
  | Neg a | Sin a | Cos a | Floor a | Round a => divisions_ok a
  end.

Definition style_ok (s : Style) : bool :=
  match s with
  | hsla h s l a => divisions_ok h && divisions_ok s && divisions_ok l && divisions_ok a
  | rgba_white a => divisions_ok a
  | css _ | gradient => true
  end.

Definition ostyle_ok (s : option Style) : bool :=
  match s with
  | Some s => style_ok s
  | None => true
  end.

Definition call_ok (c : Call) : bool :=
  match c with
  | ctx_clearRect x y w h | ctx_fillRect x y w h =>
      divisions_ok x && divisions_ok y && divisions_ok w && divisions_ok h
  | ctx_createRadialGradient a b c d e f | ctx_bezierCurveTo a b c d e f =>
      divisions_ok a && divisions_ok b && divisions_ok c && divisions_ok d
      && divisions_ok e && divisions_ok f
  | g_addColorStop o c => divisions_ok o && style_ok c
  | ctx_fillStyle s | ctx_strokeStyle s | ctx_shadowColor s => ostyle_ok s
  | ctx_shadowBlur n | ctx_lineWidth n | ctx_globalAlpha n | ctx_font n
  | ctx_rotate n => divisions_ok n
  | ctx_translate x y | ctx_moveTo x y | ctx_lineTo x y | ctx_fillText _ x y =>
      divisions_ok x && divisions_ok y
  | ctx_arc x y r a0 a1 _ =>
      divisions_ok x && divisions_ok y && divisions_ok r && divisions_ok a0
      && divisions_ok a1
  | ctx_lineCap _ | ctx_lineJoin _ | ctx_textAlign _ | ctx_save | ctx_restore
  | ctx_beginPath | ctx_closePath | ctx_fill | ctx_stroke => true
  end.

(** ** Drawing code: generator state and emitted calls *)

(** A computation that may call the generator and the context: from the
    captured state of the generator to a result, the new state and the
    calls made. *)
Definition M (A : Type) : Type := Z -> A * Z * list Call.

Definition ret {A} (x : A) : M A := fun a => (x, a, []).

Definition value {A} (r : A * Z * list Call) : A := fst (fst r).
Definition state {A} (r : A * Z * list Call) : Z := snd (fst r).
Definition trace {A} (r : A * Z * list Call) : list Call := snd r.

Definition bind {A B} (m : M A) (k : A -> M B) : M B :=
  fun a =>
    let r1 := m a in
    let r2 := k (value r1) (state r1) in
    (value r2, state r2, trace r1 ++ trace r2).

Notation "x <- m ;; k" := (bind m (fun x => k))
  (at level 100, m at next level, right associativity).
Notation "m ;; k" := (bind m (fun _ => k))
  (at level 100, right associativity).

(** [rng()] *)
Definition rng : M Z :=
  fun a => let r := mulberry32_call a in (fst r, snd r, []).

Definition emit (c : Call) : M unit := fun a => (tt, a, [c]).

(** [for (let i = i0; ...; i++) body], [n] iterations; the results of the
    iterations are collected. *)
Fixpoint for_loop {A} (n : nat) (i : Z) (body : Z -> M A) : M (list A) :=
  match n with
  | O => ret []
  | S n' => x <- body i ;; xs <- for_loop n' (i + 1) body ;; ret (x :: xs)
  end.

(** [for (let i = 0; i < n; i++) body] *)
Definition for_range {A} (n : Z) (body : Z -> M A) : M (list A) :=
  for_loop (Z.to_nat n) 0 body.

(** [Math.floor(c + rng() * k)] for integers [c] and [k]: sum and product
    are exact in double precision. *)
Definition floor_draw (c : Z) (u : Z) (k : Z) : Z :=
  Qfloor (inject_Z c + Qdraw u * inject_Z k).

(** [pick(rng, arr)]; [None] is [undefined]. *)
Definition pick {A} (arr : list A) : M (option A) :=
  u <- rng ;;
  let i := Qfloor (Qdraw u * inject_Z (Z.of_nat (length arr))) in
  ret (if i <? 0 then None else arr !! Z.to_nat i).

(** ** Palette *)

Record Palette : Type := {
  baseHue : Z;
  ink : Style;
  ink2 : Style;
  ink3 : Style;
  ink4 : Style;
  gold : Style;
  white : Style
}.

Definition makePalette : M Palette :=
  u <- rng ;;
  let baseHue := Qfloor (Qdraw u * 360) in
  u <- rng ;;
  let hue2 := Rem (baseHue + 35 + Draw u * 40) 360 in
  u <- rng ;;
  let hue3 := Rem (baseHue + 180 + Draw u * 50) 360 in
  u <- rng ;;
  let hue4 := Rem (baseHue + 250 + Draw u * 50) 360 in
  ret {| baseHue := baseHue;
         ink := hsl baseHue 85 70 (Lit 0.85);
         ink2 := hsl hue2 88 62 (Lit 0.85);
         ink3 := hsl hue3 85 62 (Lit 0.82);
         ink4 := hsl hue4 88 68 (Lit 0.82);
         gold := hsl (Rem (baseHue + 55) 360) 90 62 (Lit 0.9);
         white := css "rgba(255,255,255,0.9)" |}.

(** ** Drawing helpers *)

Definition drawBackground (w h : Z) (palette : Palette) : M unit :=
  emit (ctx_clearRect 0 0 w h) ;;
  emit (ctx_createRadialGradient (w * Lit 0.5) (h * Lit 0.48) (w * Lit 0.05)
                                 (w * Lit 0.5) (h * Lit 0.5) (w * Lit 0.55)) ;;
  emit (g_addColorStop 0 (hsl (baseHue palette + 10) 70 18 (Lit 0.92))) ;;
  emit (g_addColorStop (Lit 0.55) (hsl (baseHue palette + 190) 65 10 (Lit 0.9))) ;;
  emit (g_addColorStop 1 (css "rgba(0,0,0,0.98)")) ;;
  emit (ctx_fillStyle (Some gradient)) ;;
  emit (ctx_fillRect 0 0 w h) ;;
  emit ctx_save ;;
  emit (ctx_globalAlpha (Lit 0.10)) ;;
  for_range 2400 (fun i =>
    ux <- rng ;;
    let x := (Draw ux * w)%num in
    uy <- rng ;;
    let y := (Draw uy * h)%num in
    ua <- rng ;;
    let a := (Lit 0.04 + Draw ua * Lit 0.14)%num in
    emit (ctx_fillStyle (Some (rgba_white a))) ;;
    emit (ctx_fillRect x y 1 1)) ;;
  emit ctx_restore.

(** [glowColor || color] *)
Definition style_or (glowColor color : option Style) : option Style :=
  match glowColor with
  | Some c => Some c
  | None => color
  end.

(** [glowBlur ?? d] *)
Definition num_or (glowBlur : option Num) (d : Num) : Num :=
  match glowBlur with
  | Some b => b
  | None => d
  end.

Definition strokeGlow (color : option Style) (lineWidth : Num)
    (glowColor : option Style) (glowBlur : option Num) : M unit :=
  emit (ctx_strokeStyle color) ;;
  emit (ctx_lineWidth lineWidth) ;;
  emit (ctx_lineCap "round") ;;
  emit (ctx_lineJoin "round") ;;
  emit (ctx_shadowColor (style_or glowColor color)) ;;
  emit (ctx_shadowBlur (num_or glowBlur 10)).

Definition fillGlow (color glowColor : option Style) (glowBlur : option Num)
    : M unit :=
  emit (ctx_fillStyle color) ;;
  emit (ctx_shadowColor (style_or glowColor color)) ;;
  emit (ctx_shadowBlur (num_or glowBlur 12)).

Definition drawPetal (r0 r1 width : Num) : M unit :=
  u <- rng ;;
  let c := (Lit 0.25 + Draw u * Lit 0.45)%num in
  emit ctx_beginPath ;;
  emit (ctx_moveTo (- width * Lit 0.15) r0) ;;
  emit (ctx_bezierCurveTo (- width) (r0 + (r1 - r0) * c) (- width) r1 0 r1) ;;
  emit (ctx_bezierCurveTo width r1 width (r0 + (r1 - r0) * c) (width * Lit 0.15) r0) ;;
  emit ctx_closePath.

Definition drawArcBand (r0 r1 a0 a1 : Num) : M unit :=
  emit ctx_beginPath ;;
  emit (ctx_arc 0 0 r1 a0 a1 false) ;;
  emit (ctx_arc 0 0 r0 a1 a0 true) ;;
  emit ctx_closePath.

Definition drawDot (r size : Num) : M unit :=
  emit ctx_beginPath ;;
  emit (ctx_arc 0 (- r) size 0 (PI * 2) false) ;;
  emit ctx_closePath.

(** ** The compositor *)

Inductive Kind : Type := petal | band | rays | dots | triangles.

Record Options : Type := { signature : bool }.

(** What a render selects: the values of the locals [palette], [segments],
    [layers] and [centerPetals] of [drawMandala] and the [kind] of each
    layer, outermost loop index first. *)
Record Selection : Type := {
  sel_palette : Palette;
  sel_segments : Z;
  sel_layers : Z;
  sel_kinds : list (option Kind);
  sel_centerPetals : Z
}.

Section Motifs.

Variables (minDim : Z) (R step : Num) (palette : Palette)
          (inks : list Style).
Variables (r0 r1 : Num) (stroke fill : option Style) (lw : Num).
Variables (li si : Z).

(** [kind === "petal"] *)
Definition motif_petal : M unit :=
  u <- rng ;;
  let width := (R * (Lit 0.05 + Draw u * Lit 0.12))%num in
  drawPetal r0 r1 width ;;
  emit (ctx_globalAlpha (Lit 0.85)) ;;
  u <- rng ;;
  fillGlow (Some (hsl (baseHue palette + li * 12 + si * 2) 88 58
                      (Lit 0.14 + Draw u * Lit 0.20)))
           fill (Some (Int 14)) ;;
  emit ctx_fill ;;
  emit (ctx_globalAlpha (Lit 0.95)) ;;
  strokeGlow stroke lw stroke (Some (Int 14)) ;;
  emit ctx_stroke.

(** [kind === "band"] *)
Definition motif_band : M unit :=
  u <- rng ;;
  let span := (step * (Lit 0.70 + Draw u * Lit 0.20))%num in
  let a0 := (- span / 2)%num in
  let a1 := (span / 2)%num in
  drawArcBand r0 r1 a0 a1 ;;
  emit (ctx_globalAlpha (Lit 0.8)) ;;
  u <- rng ;;
  fillGlow (Some (hsl (baseHue palette + 160 + li * 7) 85 55
                      (Lit 0.08 + Draw u * Lit 0.16)))
           fill (Some (Int 12)) ;;
  emit ctx_fill ;;
  emit (ctx_globalAlpha (Lit 0.95)) ;;
  strokeGlow stroke lw stroke (Some (Int 12)) ;;
  emit ctx_stroke.

(** [kind === "rays"] *)
Definition motif_rays : M unit :=
  u <- rng ;;
  let rayCount := JS.clamp (floor_draw 2 u 6) 2 7 in
  strokeGlow stroke lw stroke (Some (Int 12)) ;;
  for_range rayCount (fun ri =>
    let a := (- step * Lit 0.32
              + ri / Int (JS.or_else (rayCount - 1) 1) * (step * Lit 0.64))%num in
    u <- rng ;;
    let rr0 := (r0 * (Lit 0.96 + Draw u * Lit 0.08))%num in
    u <- rng ;;
    let rr1 := (r1 * (Lit 0.96 + Draw u * Lit 0.08))%num in
    emit ctx_beginPath ;;
    emit (ctx_moveTo (Sin a * rr0) (- Cos a * rr0)) ;;
    emit (ctx_lineTo (Sin a * rr1) (- Cos a * rr1)) ;;
    u <- rng ;;
    emit (ctx_globalAlpha (Lit 0.6 + Draw u * Lit 0.35)) ;;
    emit ctx_stroke) ;;
  ret tt.

(** [kind === "dots"] *)
Definition motif_dots : M unit :=
  u <- rng ;;
  let dotCount := JS.clamp (floor_draw 2 u 5) 2 6 in
  for_range dotCount (fun di =>
    let rr := (r0 + (r1 - r0) * (di / Int (JS.or_else (dotCount - 1) 1)))%num in
    u <- rng ;;
    let size := (minDim * (Lit 0.0022 + Draw u * Lit 0.0046))%num in
    drawDot rr size ;;
    u <- rng ;;
    emit (ctx_globalAlpha (Lit 0.55 + Draw u * Lit 0.38)) ;;
    color <- pick inks ;;
    glowColor <- pick inks ;;
    fillGlow color glowColor (Some (Int 16)) ;;
    emit ctx_fill ;;
    emit (ctx_globalAlpha (Lit 0.85)) ;;
    strokeGlow (Some (css "rgba(255,255,255,0.18)")) (lw * Lit 0.8)
               (Some (css "rgba(255,255,255,0.16)")) (Some (Int 10)) ;;
    emit ctx_stroke) ;;
  ret tt.

(** [kind === "triangles"] *)
Definition motif_triangles : M unit :=
  u <- rng ;;
  let tw := (R * (Lit 0.03 + Draw u * Lit 0.09))%num in
  u <- rng ;;
  let tip := (r1 * (Lit 0.96 + Draw u * Lit 0.08))%num in
  u <- rng ;;
  let base := (r0 * (Lit 0.96 + Draw u * Lit 0.08))%num in
  emit ctx_beginPath ;;
  emit (ctx_moveTo 0 (- tip)) ;;
  emit (ctx_lineTo (- tw) (- base)) ;;
  emit (ctx_lineTo tw (- base)) ;;
  emit ctx_closePath ;;
  emit (ctx_globalAlpha (Lit 0.70)) ;;
  u <- rng ;;
  fillGlow (Some (hsl (baseHue palette + 40 + li * 11) 86 54
                      (Lit 0.10 + Draw u * Lit 0.18)))
           fill (Some (Int 14)) ;;
  emit ctx_fill ;;
  emit (ctx_globalAlpha (Lit 0.95)) ;;
  strokeGlow stroke lw stroke (Some (Int 12)) ;;
  emit ctx_stroke.

(** The body of the loop over [si]; a [kind] that is none of the five
    strings draws nothing. *)
Definition segment (kind : option Kind) : M unit :=
  emit ctx_save ;;
  emit (ctx_rotate (si * step)) ;;
  match kind with
  | Some petal => motif_petal
  | Some band => motif_band
  | Some rays => motif_rays
  | Some dots => motif_dots
  | Some triangles => motif_triangles
  | None => ret tt
  end ;;
  emit ctx_restore.

End Motifs.

(** The body of the loop over [li]; it returns the [kind] it picked. *)
Definition layer (minDim : Z) (R step : Num) (palette : Palette)
    (inks : list Style) (segments layers : Z) (li : Z) : M (option Kind) :=
  let t := (li / Int (layers - 1))%num in
  let r0 := (R * (Lit 0.07 + t * Lit 0.85))%num in
  u <- rng ;;
  let r1 := (r0 + R * (Lit 0.05 + Draw u * Lit 0.10))%num in
  stroke <- pick inks ;;
  fill <- pick inks ;;
  kind <- pick [petal; band; rays; dots; triangles] ;;
  u <- rng ;;
  let lw := (minDim * (Lit 0.0012 + Draw u * Lit 0.0026))%num in
  for_range segments (fun si =>
    segment minDim R step palette inks r0 r1 stroke fill lw li si kind) ;;
  ret kind.

(** The body of the loop of the center rosette. *)
Definition rosette_petal (minDim : Z) (R cStep : Num) (palette : Palette)
    (i : Z) : M unit :=
  emit ctx_save ;;
  emit (ctx_rotate (i * cStep)) ;;
  let r0 := (R * Lit 0.02)%num in
  u <- rng ;;
  let r1 := (R * (Lit 0.10 + Draw u * Lit 0.08))%num in
  u <- rng ;;
  let width := (R * (Lit 0.03 + Draw u * Lit 0.05))%num in
  drawPetal r0 r1 width ;;
  emit (ctx_globalAlpha (Lit 0.9)) ;;
  fillGlow (Some (hsl (baseHue palette + i * 7) 90 60 (Lit 0.16)))
           (Some (ink palette)) (Some (Int 14)) ;;
  emit ctx_fill ;;
  emit (ctx_globalAlpha (Lit 0.95)) ;;
  strokeGlow (Some (white palette)) (minDim * Lit 0.0016)
             (Some (white palette)) (Some (Int 12)) ;;
  emit ctx_stroke ;;
  emit ctx_restore.

(** The word signature, drawn when [options?.signature] is truthy. *)
Definition draw_signature (w h : Z) (word : jsstring) : M unit :=
  emit ctx_save ;;
  emit (ctx_globalAlpha (Lit 0.12)) ;;
  emit (ctx_fillStyle (Some (css "rgba(255,255,255,0.55)"))) ;;
  emit (ctx_font (Max 12 (Floor (w * Lit 0.02)))) ;;
  emit (ctx_textAlign "center") ;;
  emit (ctx_fillText word (w / 2) (h - Max 14 (Floor (w * Lit 0.03)))) ;;
  emit ctx_restore.

(** [drawMandala] from the creation of the palette on, for a surface of
    [w] by [h] pixels; it runs on the state of the generator [rng]. *)
Definition drawMandala_body (w h : Z) (word : jsstring)
    (options : option Options) : M Selection :=
  palette <- makePalette ;;
  drawBackground w h palette ;;
  emit ctx_save ;;
  emit (ctx_translate (w / 2) (h / 2)) ;;
  let minDim := Z.min w h in
  let R := (minDim * Lit 0.44)%num in
  u <- rng ;;
  emit (ctx_rotate ((Draw u - Lit 0.5) * Lit 0.18)) ;;
  u <- rng ;;
  let segments := JS.clamp (floor_draw 8 u 18) 8 26 in
  u <- rng ;;
  let layers := JS.clamp (floor_draw 7 u 7) 7 14 in
  let step := (PI * 2 / Int segments)%num in
  emit ctx_save ;;
  strokeGlow (Some (hsl (baseHue palette) 80 70 (Lit 0.12)))
             (minDim * Lit 0.0022)
             (Some (hsl (baseHue palette) 90 70 (Lit 0.18))) (Some (Int 18)) ;;
  emit ctx_beginPath ;;
  emit (ctx_arc 0 0 (R * Lit 0.98) 0 (PI * 2) false) ;;
  emit ctx_stroke ;;
  emit ctx_restore ;;
  let inks := [ink palette; ink2 palette; ink3 palette; ink4 palette;
               gold palette; white palette] in
  kinds <- for_range layers (layer minDim R step palette inks segments layers) ;;
  emit ctx_save ;;
  u <- rng ;;
  let centerPetals := JS.clamp (floor_draw 10 u 18) 10 30 in
  let cStep := (PI * 2 / Int centerPetals)%num in
  for_range centerPetals (rosette_petal minDim R cStep palette) ;;
  emit ctx_restore ;;
  emit ctx_save ;;
  emit (ctx_globalAlpha (Lit 0.95)) ;;
  fillGlow (Some (gold palette)) (Some (gold palette)) (Some (Int 18)) ;;
  emit ctx_beginPath ;;
  emit (ctx_arc 0 0 (R * Lit 0.018) 0 (PI * 2) false) ;;
  emit ctx_fill ;;
  emit ctx_restore ;;
  emit ctx_restore ;;
  (match options with
   | Some o => if signature o then draw_signature w h word else ret tt
   | None => ret tt
   end) ;;
  ret {| sel_palette := palette;
         sel_segments := segments;
         sel_layers := layers;
         sel_kinds := kinds;
         sel_centerPetals := centerPetals |}.

(** The surface: its pixel size and the calls its context has received. *)
Record Canvas : Type := {
  canvas_width : Z;
  canvas_height : Z;
  calls : list Call
}.

(** [mulberry32(seed)]: the captured state of the closure it returns. *)
Definition mulberry32 (seed : Z) : Z := seed.

(** [drawMandala(ctx, word, seed, options)]: the surface afterwards, and
    what was selected. *)
Definition drawMandala (ctx : Canvas) (word : jsstring) (seed : Z)
    (options : option Options) : Selection * Canvas :=
  let r := drawMandala_body (canvas_width ctx) (canvas_height ctx) word options
                            (mulberry32 seed) in
  (value r,
   {| canvas_width := canvas_width ctx;
      canvas_height := canvas_height ctx;
      calls := calls ctx ++ trace r |}).

(** The pipeline of [renderFromInput] for a sanitized word: the seed, then
    the drawing. *)
Definition render `{CaseMapping} (ctx : Canvas) (word : jsstring)
    (options : option Options) : Z * (Selection * Canvas) :=
  let seed := computeSeed word in
  (seed, drawMandala ctx word seed options).

(** An ASCII-only case mapping: code units outside [A-Z] are kept. *)
Definition ascii_toLowerCase (s : jsstring) : jsstring := map ascii_lower s.

(** ** Predicates on computations *)

(** [safe V m]: whatever the generator state, the result of [m] satisfies [V]
    and every call [m] makes divides by nonzero integers only. *)
Definition safe {A} (V : A -> Prop) (m : M A) : Prop :=
  forall a, V (value (m a)) /\ Forall (fun c => call_ok c = true) (trace (m a)).

(** [same_draws m1 m2]: from the same generator state, [m1] and [m2] return
    the same result and leave the generator in the same state. *)
Definition same_draws {A} (m1 m2 : M A) : Prop :=
  forall a, value (m1 a) = value (m2 a) /\ state (m1 a) = state (m2 a).

(** [returns V m]: whatever the generator state, the result of [m]
    satisfies [V]. *)
Definition returns {A} (V : A -> Prop) (m : M A) : Prop :=
  forall a, V (value (m a)).

(** [consumes n m]: [m] calls the generator exactly [n] times. *)
Definition consumes {A} (n : nat) (m : M A) : Prop :=
  forall a, state (m a) = gen_after n a.

(** The structural choices of a render. *)
Definition structure (s : Selection) : Z * Z * list (option Kind) :=
  (sel_segments s, sel_layers s, sel_kinds s).

(** ** The drawing state of the context *)

(** [save] and [restore] push and pop the drawing state of the context;
    assignments to its attributes and transformations change the current
    drawing state; the other calls leave it alone. What an assignment does
    to a drawing state is the host's business: it is a parameter. *)
Definition is_scope_call (c : Call) : bool :=
  match c with
  | ctx_save | ctx_restore => true
  | _ => false
  end.

Definition changes_state (c : Call) : bool :=
  match c with
  | ctx_fillStyle _ | ctx_strokeStyle _ | ctx_shadowColor _ | ctx_shadowBlur _
  | ctx_lineWidth _ | ctx_lineCap _ | ctx_lineJoin _ | ctx_globalAlpha _
  | ctx_font _ | ctx_textAlign _ | ctx_translate _ _ | ctx_rotate _ => true
  | _ => false
  end.

Section Context2D.

Variable DrawState : Type.
Variable assign : Call -> DrawState -> DrawState.

(** The current drawing state and the stack of saved ones; [restore] on an
    empty stack does nothing. *)
Definition ctx_step (s : DrawState * list DrawState) (c : Call)
    : DrawState * list DrawState :=
  match c with
  | ctx_save => (fst s, fst s :: snd s)
  | ctx_restore =>
      match snd s with
      | d :: st => (d, st)
      | [] => s
      end
  | _ => if changes_state c then (assign c (fst s), snd s) else s
  end.

Definition ctx_run (t : list Call) (s : DrawState * list DrawState)
    : DrawState * list DrawState :=
  fold_left ctx_step t s.

(** [neutral t]: the calls [t] leave drawing state and stack as they were. *)
Definition neutral (t : list Call) : Prop := forall s, ctx_run t s = s.

(** [closes n t]: run inside [n + 1] open scopes, the calls [t] close them
    all, and end in the drawing state saved by the outermost one. *)
Definition closes (n : nat) (t : list Call) : Prop :=
  forall d pre d0 st0,
    length pre = n -> ctx_run t (d, pre ++ d0 :: st0) = (d0, st0).

Definition m_neutral {A} (m : M A) : Prop := forall a, neutral (trace (m a)).

Definition m_closes {A} (n : nat) (m : M A) : Prop :=
  forall a, closes n (trace (m a)).

(** [m_assigns c m]: all in all, the calls of [m] have the effect of the one
    assignment [c]. *)
Definition m_assigns {A} (c : Call) (m : M A) : Prop :=
  forall a d st, ctx_run (trace (m a)) (d, st) = (assign c d, st).

End Context2D.

Arguments ctx_step {DrawState} assign s c.
Arguments ctx_run {DrawState} assign t s.
Arguments neutral {DrawState} assign t.
Arguments closes {DrawState} assign n t.
Arguments m_neutral {DrawState} assign {A} m.
Arguments m_closes {DrawState} assign {A} n m.
Arguments m_assigns {DrawState} assign {A} c m.

(** [flat t]: no [save] and no [restore] among the calls [t]; [quiet t]: nor
    any call that changes the drawing state. *)
Definition flat (t : list Call) : Prop :=
  Forall (fun c => is_scope_call c = false) t.

Definition quiet (t : list Call) : Prop :=
  Forall (fun c => is_scope_call c = false /\ changes_state c = false) t.

Definition m_flat {A} (m : M A) : Prop := forall a, flat (trace (m a)).

Definition m_quiet {A} (m : M A) : Prop := forall a, quiet (trace (m a)).

(** The ASCII-only mapping is a case mapping. *)
Definition ascii_case_mapping : CaseMapping.
Proof.
  refine {| toLowerCase := ascii_toLowerCase |}.
  - intros s. unfold ascii_toLowerCase. rewrite map_map. apply map_ext.
    intros c. unfold ascii_lower.
    destruct (Z.leb_spec 65 c), (Z.leb_spec c 90); simpl;
    repeat match goal with
           | |- context [ ?x <=? ?y ] => destruct (Z.leb_spec x y); simpl
           end; lia.
  - intros s _. reflexivity.
Defined.

(** Thirty-three copies of U+1F600, each a surrogate pair. *)
Definition emoji33 : jsstring := concat (repeat [55357; 56832] 33).

(** An input whose first token is a lone high surrogate followed by forty
    letters [a]: 41 code units, no surrogate pair. *)
Definition lone41 : jsstring :=
  lit "  " ++ 55357 :: repeat 97 40 ++ lit " flower".

(** ** The name of the downloaded file *)

(** A code unit the class [[a-z0-9_-]] matches under the flag [i]; without
    the flag [u] no code unit outside ASCII is canonicalized to an ASCII
    letter. *)
Definition is_name_char (c : Z) : bool :=
  ((97 <=? c) && (c <=? 122)) || ((65 <=? c) && (c <=? 90))
  || ((48 <=? c) && (c <=? 57)) || (c =? 95) || (c =? 45).

(** [s.replace(/[^a-z0-9_-]+/gi, "_")]: every maximal run of other code
    units becomes one underscore; [in_run] tells that the previous code unit
    was replaced. *)
Fixpoint replace_runs (in_run : bool) (s : jsstring) : jsstring :=
  match s with
  | [] => []
  | c :: s' =>
      if is_name_char c then c :: replace_runs false s'
      else if in_run then replace_runs true s'
      else 95 :: replace_runs true s'
  end.

Definition safeName (word : jsstring) : jsstring := replace_runs false word.

(** The click handler of the download button, for the text of the input
    field: no download for a blank input, otherwise the value given to
    [a.download]. *)
Definition download_name (value : jsstring) : option jsstring :=
  let word := sanitizeWord value in
  match word with
  | [] => None
  | _ :: _ =>
      let safeName := safeName word in
      Some (lit "mandala-"
            ++ match safeName with [] => lit "mandala" | _ :: _ => safeName end
            ++ lit ".png")
  end.


(** ** More on the generator *)

(** What a call of the generator computes from the new value of [a]: the
    numerator of the value it returns. *)
Definition mulberry32_out (t : Z) : Z :=
  let t := JS.imul (JS.xor t (JS.ushr t 15)) (JS.or t 1) in
  let t := JS.xor t (JS.add t (JS.imul (JS.xor t (JS.ushr t 7)) (JS.or t 61))) in
  JS.ushr (JS.xor t (JS.ushr t 14)) 0.

Arguments mulberry32_out : simpl never.

(** [consumes_at_most N m]: [m] calls the generator at most [N] times. *)
Definition consumes_at_most {A} (N : Z) (m : M A) : Prop :=
  forall a, exists k : nat, Z.of_nat k <= N /\ state (m a) = gen_after k a.


(** ** Text on the surface *)

Definition is_text (c : Call) : bool :=
  match c with
  | ctx_fillText _ _ _ => true
  | _ => false
  end.

(** [m_never P m]: [m] makes no call that satisfies [P]. *)
Definition m_never {A} (P : Call -> bool) (m : M A) : Prop :=
  forall a, Forall (fun c => P c = false) (trace (m a)).

(** [emits n m]: [m] makes [n] calls. *)
Definition emits {A} (n : nat) (m : M A) : Prop :=
  forall a, length (trace (m a)) = n.

(** ** The page: [setCanvasSize], [fitCanvasToContainer] and [main] *)

(** What a render reads from its host: [window.devicePixelRatio], a finite
    number or no number at all ([None]: undefined or NaN), and the width of
    the rectangle of the parent of the canvas ([None]: no parent
    element). *)
Record Host : Type := {
  devicePixelRatio : option Q;
  parent_width : option Q
}.

(** The canvas element: the two lengths of its style, in CSS pixels, if
    they have been assigned, and its [width] and [height]. *)
Record CanvasElement : Type := {
  style_width : option Z;
  style_height : option Z;
  attr_width : Z;
  attr_height : Z
}.

(** Assigning a number that holds an integer to the [width] or the
    [height] of a canvas element: the number is converted to an unsigned
    32-bit integer, which the element keeps when it is at most [2^31 - 1]
    and replaces by the default of the attribute otherwise. *)
Definition set_dimension (default x : Z) : Z :=
  let v := JS.ToUint32 x in
  if v <=? 2147483647 then v else default.

(** [Math.max(1, Math.floor(window.devicePixelRatio || 1))]: zero and
    what is no number are falsy. *)
Definition dpr (devicePixelRatio : option Q) : Z :=
  let ratio := match devicePixelRatio with
               | Some q => if Qeq_bool q 0 then 1%Q else q
               | None => 1%Q
               end in
  Z.max 1 (Qfloor ratio).

(** [setCanvasSize(canvas, desiredCSSPx)], for the integer its one caller
    passes: the value returned and the element afterwards. The product of
    two integers is an integer, which [Math.floor] keeps. *)
Definition setCanvasSize (host : Host) (canvas : CanvasElement)
    (desiredCSSPx : Z) : Z * CanvasElement :=
  let dpr := dpr (devicePixelRatio host) in
  let css := desiredCSSPx in
  (dpr,
   {| style_width := Some css;
      style_height := Some css;
      attr_width := set_dimension 300 (JS.round_to_double (css * dpr));
      attr_height := set_dimension 150 (JS.round_to_double (css * dpr)) |}).

(** [fitCanvasToContainer(canvas)] *)
Definition fitCanvasToContainer (host : Host) (canvas : CanvasElement)
    : Z * CanvasElement :=
  match parent_width host with
  | None => (1, canvas)
  | Some rect_width =>
      let size := JS.clamp (Qfloor rect_width) 320 980 in
      setCanvasSize host canvas size
  end.

(** The calls [main] makes on the 2D context: [setTransform], and the
    calls of [drawMandala]. *)
Inductive CtxCall : Type :=
| ctx_setTransform (a b c d e f : Z)
| ctx_drawing (c : Call).

(** The two functions handed to [setTimeout]: the one of the resize
    listener and the one of the input listener. *)
Inductive Callback : Type := resize_callback | input_callback.

(** A download: the name of the file, and the surface whose picture it
    holds, size and calls. *)
Record Download : Type := {
  file_name : jsstring;
  picture : Z * Z * list CtxCall
}.

(** The state [main] works on: the value of the input field, the canvas
    and the calls its context has received, the text of the seed label,
    the variable [resizeTimer] ([None]: [null]), the timers that are set,
    by their handles, and the downloads triggered so far. *)
Record Page : Type := {
  input_value : jsstring;
  canvas : CanvasElement;
  ctx_calls : list CtxCall;
  seedLabel : jsstring;
  resizeTimer : option nat;
  timers : gmap nat Callback;
  downloads : list Download
}.

(** The decimal digits of a non-negative integer. A template literal
    writes a number that way when it is an integer from 0 to [2^53]: the
    seed, an unsigned 32-bit integer, is one. Larger numbers are outside
    this definition: a double above [2^53] is written with the digits that
    tell it apart, and with an exponent from [10^21] on. *)
Fixpoint uint_units (d : Decimal.uint) : jsstring :=
  match d with
  | Decimal.Nil => []
  | Decimal.D0 d => 48 :: uint_units d
  | Decimal.D1 d => 49 :: uint_units d
  | Decimal.D2 d => 50 :: uint_units d
  | Decimal.D3 d => 51 :: uint_units d
  | Decimal.D4 d => 52 :: uint_units d
  | Decimal.D5 d => 53 :: uint_units d
  | Decimal.D6 d => 54 :: uint_units d
  | Decimal.D7 d => 55 :: uint_units d
  | Decimal.D8 d => 56 :: uint_units d
  | Decimal.D9 d => 57 :: uint_units d
  end.

Definition number_to_string (n : Z) : jsstring := uint_units (N.to_uint (Z.to_N n)).

(** The text of the seed label; [8226] is the bullet. *)
Definition seedLabel_text (seed : Z) : jsstring :=
  lit "Seed: " ++ number_to_string seed
  ++ [32; 8226; 32] ++ lit "Segments & layers are derived from the word".

(** [renderFromInput()]; [drawMandala] appends its calls to those of the
    context. *)
Definition renderFromInput `{CaseMapping} (host : Host) (p : Page) : Page :=
  let word := sanitizeWord (input_value p) in
  match word with
  | [] => p
  | _ :: _ =>
      let seed := computeSeed word in
      let canvas := snd (fitCanvasToContainer host (canvas p)) in
      let ctx := {| canvas_width := attr_width canvas;
                    canvas_height := attr_height canvas;
                    calls := [] |} in
      let drawn := snd (drawMandala ctx word seed (Some {| signature := true |})) in
      {| input_value := input_value p;
         canvas := canvas;
         ctx_calls := ctx_calls p ++ ctx_setTransform 1 0 0 1 0 0
                                  :: map ctx_drawing (calls drawn);
         seedLabel := seedLabel_text seed;
         resizeTimer := resizeTimer p;
         timers := timers p;
         downloads := downloads p |}
  end.

(** [window.clearTimeout(resizeTimer)] *)
Definition clearTimeout (handle : option nat) (timers : gmap nat Callback)
    : gmap nat Callback :=
  match handle with
  | Some id => delete id timers
  | None => timers
  end.

(** [resizeTimer = window.setTimeout(callback, delay)] after
    [window.clearTimeout(resizeTimer)], as in the resize and the input
    listener; [id] is the handle the host gives the new timer. *)
Definition debounce (id : nat) (callback : Callback) (p : Page) : Page :=
  {| input_value := input_value p;
     canvas := canvas p;
     ctx_calls := ctx_calls p;
     seedLabel := seedLabel p;
     resizeTimer := Some id;
     timers := <[id := callback]> (clearTimeout (resizeTimer p) (timers p));
     downloads := downloads p |}.

(** The bodies of the two functions handed to [setTimeout]. *)
Definition run_callback `{CaseMapping} (callback : Callback) (host : Host)
    (p : Page) : Page :=
  match callback with
  | resize_callback => renderFromInput host p
  | input_callback =>
      match sanitizeWord (input_value p) with
      | [] => p
      | _ :: _ => renderFromInput host p
      end
  end.

Definition set_input_value (value : jsstring) (p : Page) : Page :=
  {| input_value := value;
     canvas := canvas p;
     ctx_calls := ctx_calls p;
     seedLabel := seedLabel p;
     resizeTimer := resizeTimer p;
     timers := timers p;
     downloads := downloads p |}.

(** The listener of [submit] *)
Definition on_submit `{CaseMapping} (host : Host) (p : Page) : Page :=
  renderFromInput host (set_input_value (sanitizeWord (input_value p)) p).

(** The listener of [click] on the download button *)
Definition on_click (p : Page) : Page :=
  match download_name (input_value p) with
  | None => p
  | Some name =>
      {| input_value := input_value p;
         canvas := canvas p;
         ctx_calls := ctx_calls p;
         seedLabel := seedLabel p;
         resizeTimer := resizeTimer p;
         timers := timers p;
         downloads := downloads p
                      ++ [ {| file_name := name;
                              picture := (attr_width (canvas p), attr_height (canvas p),
                                          ctx_calls p) |} ] |}
  end.

(** What happens to the page once [main] has run: the window is resized,
    the form is submitted, the user edits the field, which then holds
    [value], the download button is clicked, the timer [id] fires. An
    event that sets a timer comes with the handle the host gives it; an
    event that may render comes with what the host shows at that time. *)
Inductive Event : Type :=
| ev_resize (id : nat)
| ev_submit (host : Host)
| ev_input (value : jsstring) (id : nat)
| ev_click
| ev_timeout (id : nat) (host : Host).

Definition handle `{CaseMapping} (p : Page) (e : Event) : Page :=
  match e with
  | ev_resize id => debounce id resize_callback p
  | ev_submit host => on_submit host p
  | ev_input value id => debounce id input_callback (set_input_value value p)
  | ev_click => on_click p
  | ev_timeout id host =>
      match timers p !! id with
      | None => p
      | Some callback =>
          run_callback callback host
            {| input_value := input_value p;
               canvas := canvas p;
               ctx_calls := ctx_calls p;
               seedLabel := seedLabel p;
               resizeTimer := resizeTimer p;
               timers := delete id (timers p);
               downloads := downloads p |}
      end
  end.

(** [main()], on a document whose canvas is [canvas] and whose seed label
    reads [label]: nothing happens unless the five elements ([elements])
    and the 2D context ([context]) are there; otherwise the listeners are
    installed, the default word is put in the field, whatever it held, and
    rendered. The focus and the selection of the field are left out. *)
Definition main `{CaseMapping} (elements context : bool) (host : Host)
    (canvas : CanvasElement) (label : jsstring) : option Page :=
  if negb elements then None
  else if negb context then None
  else
    Some (renderFromInput host
            {| input_value := lit "harmony";
               canvas := canvas;
               ctx_calls := [];
               seedLabel := label;
               resizeTimer := None;
               timers := ∅;
               downloads := [] |}).

(** The page after a sequence of events. *)
Definition run_events `{CaseMapping} (events : list Event) (p : Page) : Page :=
  fold_left handle events p.

(** What the timers hold: nothing but the timer kept in [resizeTimer]. *)
Definition one_timer (p : Page) : Prop :=
  forall id callback, timers p !! id = Some callback -> resizeTimer p = Some id.

(** The render a page shows: the word, and the calls before it. *)
Definition shows `{CaseMapping} (word : jsstring) (earlier : list CtxCall)
    (p : Page) : Prop :=
  seedLabel p = seedLabel_text (computeSeed word)
  /\ ctx_calls p
     = earlier ++ ctx_setTransform 1 0 0 1 0 0
                  :: map ctx_drawing
                       (trace (drawMandala_body (attr_width (canvas p))
                                 (attr_height (canvas p)) word
                                 (Some {| signature := true |}) (computeSeed word))).

Definition shows_a_word `{CaseMapping} (p : Page) : Prop :=
  exists word earlier,
    word <> [] /\ sanitizeWord word = word /\ shows word earlier p.

(** ** The picture a host draws *)

(** A host paints on a surface. The surface is whatever the host keeps
    besides the drawing state and the stack of saved states: the pixels,
    the current path, the gradient under construction. What a call does
    to the surface depends on the call, on the drawing state it is made
    in and on the surface; what an assignment does to the drawing state
    and what a call paints are the host's business: they are
    parameters. *)
Section Host.

Variable DrawState : Type.
Variable Surface : Type.
Variable assign : Call -> DrawState -> DrawState.
Variable paint : DrawState -> Call -> Surface -> Surface.

Definition host_step (x : DrawState * list DrawState * Surface) (c : Call)
    : DrawState * list DrawState * Surface :=
  (ctx_step assign (fst x) c, paint (fst (fst x)) c (snd x)).

(** The drawing state, the stack and the surface after the calls [t]. *)
Definition host_run (t : list Call) (x : DrawState * list DrawState * Surface)
    : DrawState * list DrawState * Surface :=
  fold_left host_step t x.

End Host.

Arguments host_step {DrawState Surface} assign paint x c.
Arguments host_run {DrawState Surface} assign paint t x.

(** The number of saved states of their own that the calls [t] leave on
    the stack, when they start with [n] of them; [None] when a [restore]
    among them finds none of their own. *)
Fixpoint depth (t : list Call) (n : nat) : option nat :=
  match t with
  | [] => Some n
  | c :: t' =>
      match c with
      | ctx_save => depth t' (S n)
      | ctx_restore =>
          match n with
          | O => None
          | S m => depth t' m
          end
      | _ => depth t' n
      end
  end.

(** The calls with which a render opens, before it fills the background:
    clearing, the calls that build the gradient, and the assignment of
    [fillStyle]. *)
Definition is_clear (c : Call) : bool :=
  match c with
  | ctx_clearRect _ _ _ _ => true
  | _ => false
  end.

Definition gradient_call (c : Call) : bool :=
  match c with
  | ctx_createRadialGradient _ _ _ _ _ _ | g_addColorStop _ _ => true
  | _ => false
  end.

Definition before_fill (c : Call) : bool :=
  match c with
  | ctx_fillStyle _ => true
  | _ => is_clear c || gradient_call c
  end.

(** A recording host, for examples. Its drawing state is the fill style
    and the global alpha, black and 1 on a new context; its picture is the
    list of the calls made since the surface was last cleared, the calls
    that paint each with the drawing state it was made in. *)
Definition Pen : Type := option Style * Num.

Definition pen_assign (c : Call) (d : Pen) : Pen :=
  match c with
  | ctx_fillStyle s => (s, snd d)
  | ctx_globalAlpha a => (fst d, a)
  | _ => d
  end.

Definition paints (c : Call) : bool :=
  match c with
  | ctx_fillRect _ _ _ _ | ctx_fill | ctx_stroke | ctx_fillText _ _ _ => true
  | _ => false
  end.

Definition record_paint (d : Pen) (c : Call) (s : list (Call * option Pen))
    : list (Call * option Pen) :=
  match c with
  | ctx_clearRect _ _ _ _ => []
  | _ => s ++ [(c, if paints c then Some d else None)]
  end.

Definition new_context : Pen * list Pen * list (Call * option Pen) :=
  ((Some (css "#000000"), Int 1), [], []).

(** ** Facts on the 32-bit operators *)

Lemma ToUint32_range x : 0 <= JS.ToUint32 x < 4294967296.
Proof. unfold JS.ToUint32. apply Z.mod_pos_bound. lia. Qed.

Lemma ToUint32_small x : 0 <= x < 4294967296 -> JS.ToUint32 x = x.
Proof. intros Hx. unfold JS.ToUint32. apply Z.mod_small. exact Hx. Qed.

Lemma ToUint32_idem x : JS.ToUint32 (JS.ToUint32 x) = JS.ToUint32 x.
Proof. apply ToUint32_small, ToUint32_range. Qed.

Lemma ToUint32_ToInt32 x : JS.ToUint32 (JS.ToInt32 x) = JS.ToUint32 x.
Proof.
  unfold JS.ToUint32, JS.ToInt32.
  destruct (Z.ltb_spec (x mod 4294967296) 2147483648).
  - apply Z.mod_mod. lia.
  - Z.div_mod_to_equations. lia.
Qed.

Lemma ToUint32_land x : JS.ToUint32 x = Z.land x (Z.ones 32).
Proof. unfold JS.ToUint32. rewrite Z.land_ones by lia. reflexivity. Qed.

Lemma ToUint32_lxor x y :
  JS.ToUint32 (Z.lxor x y) = Z.lxor (JS.ToUint32 x) (JS.ToUint32 y).
Proof.
  rewrite !ToUint32_land. apply Z.bits_inj'. intros i Hi.
  rewrite Z.lxor_spec, !Z.land_spec, Z.lxor_spec.
  destruct (Z.testbit (Z.ones 32) i); rewrite ?andb_true_r, ?andb_false_r; reflexivity.
Qed.

Lemma ToUint32_lor x y :
  JS.ToUint32 (Z.lor x y) = Z.lor (JS.ToUint32 x) (JS.ToUint32 y).
Proof. rewrite !ToUint32_land. apply Z.land_lor_distr_l. Qed.

Lemma ToUint32_mul x y :
  JS.ToUint32 (x * y) = JS.ToUint32 (JS.ToUint32 x * JS.ToUint32 y).
Proof. unfold JS.ToUint32. apply Z.mul_mod. lia. Qed.

Lemma ToUint32_shiftl x n :
  0 <= n -> JS.ToUint32 (Z.shiftl x n) = JS.ToUint32 (Z.shiftl (JS.ToUint32 x) n).
Proof.
  intros Hn. rewrite !Z.shiftl_mul_pow2 by exact Hn.
  rewrite (ToUint32_mul x (2 ^ n)), (ToUint32_mul (JS.ToUint32 x) (2 ^ n)), ToUint32_idem.
  reflexivity.
Qed.

Lemma shiftr_range x n :
  0 <= n -> 0 <= x < 4294967296 -> 0 <= Z.shiftr x n < 4294967296.
Proof.
  intros Hn Hx. rewrite Z.shiftr_div_pow2 by exact Hn.
  assert (0 < 2 ^ n) by (apply Z.pow_pos_nonneg; lia).
  split.
  - apply Z.div_pos; lia.
  - apply Z.le_lt_trans with x; [ | lia ].
    apply Z.div_le_upper_bound; nia.
Qed.

Lemma lxor_range x y :
  0 <= x < 4294967296 -> 0 <= y < 4294967296 -> 0 <= Z.lxor x y < 4294967296.
Proof.
  intros Hx Hy.
  rewrite <- (ToUint32_small x), <- (ToUint32_small y), <- ToUint32_lxor by assumption.
  apply ToUint32_range.
Qed.

Lemma ToUint32_xor x y :
  JS.ToUint32 (JS.xor x y) = Z.lxor (JS.ToUint32 x) (JS.ToUint32 y).
Proof. unfold JS.xor. rewrite ToUint32_ToInt32, ToUint32_lxor, !ToUint32_ToInt32. reflexivity. Qed.

Lemma ToUint32_or x y :
  JS.ToUint32 (JS.or x y) = Z.lor (JS.ToUint32 x) (JS.ToUint32 y).
Proof. unfold JS.or. rewrite ToUint32_ToInt32, ToUint32_lor, !ToUint32_ToInt32. reflexivity. Qed.

Lemma ToUint32_imul x y :
  JS.ToUint32 (JS.imul x y) = Spec.imul32 (JS.ToUint32 x) (JS.ToUint32 y).
Proof.
  unfold JS.imul, Spec.imul32, Spec.wrap.
  rewrite ToUint32_ToInt32, ToUint32_mul, !ToUint32_ToInt32. reflexivity.
Qed.

Lemma imul32_ToUint32_l x y : Spec.imul32 (JS.ToUint32 x) y = Spec.imul32 x y.
Proof.
  unfold Spec.imul32, Spec.wrap. change (2 ^ 32) with 4294967296.
  unfold JS.ToUint32. rewrite Z.mul_mod_idemp_l by lia. reflexivity.
Qed.

Lemma ushr_shiftr x n :
  0 <= n < 32 -> JS.ushr x n = Z.shiftr (JS.ToUint32 x) n.
Proof. intros Hn. unfold JS.ushr. rewrite Z.mod_small by exact Hn. reflexivity. Qed.

Lemma ushr_range x n : 0 <= JS.ushr x n < 4294967296.
Proof.
  unfold JS.ushr. apply shiftr_range.
  - apply Z.mod_pos_bound. lia.
  - apply ToUint32_range.
Qed.

Lemma ushr_0 x : JS.ushr x 0 = JS.ToUint32 x.
Proof. rewrite ushr_shiftr by lia. apply Z.shiftr_0_r. Qed.

Lemma ToUint32_shl x n :
  0 <= n < 32 ->
  JS.ToUint32 (JS.shl x n) = JS.ToUint32 (Z.shiftl (JS.ToUint32 x) n).
Proof.
  intros Hn. unfold JS.shl. rewrite Z.mod_small by exact Hn.
  rewrite ToUint32_ToInt32, ToUint32_shiftl, ToUint32_ToInt32 by lia. reflexivity.
Qed.

(** ** The hasher against its description *)

Lemma imul32_range x y : 0 <= Spec.imul32 x y < 4294967296.
Proof. unfold Spec.imul32, Spec.wrap. apply Z.mod_pos_bound. reflexivity. Qed.

Lemma xmur3_mix_spec h h' c :
  JS.ToUint32 h = JS.ToUint32 h' ->
  JS.ToUint32 (xmur3_mix h c) = Spec.rotl32 (Spec.imul32 (Z.lxor h' c) 3432918353) 13.
Proof.
  intros Hh. unfold xmur3_mix.
  set (k := JS.imul (JS.xor h c) 3432918353).
  assert (Hk : JS.ToUint32 k = Spec.imul32 (Z.lxor h' c) 3432918353).
  { unfold k. rewrite ToUint32_imul, ToUint32_xor, Hh, <- ToUint32_lxor.
    rewrite imul32_ToUint32_l. reflexivity. }
  rewrite ToUint32_or, ToUint32_shl, ushr_shiftr, Hk by lia.
  unfold Spec.rotl32, Spec.wrap. change (2 ^ 32) with 4294967296.
  change (32 - 13) with 19.
  fold (JS.ToUint32 (Z.lor (Z.shiftl (Spec.imul32 (Z.lxor h' c) 3432918353) 13)
                           (Z.shiftr (Spec.imul32 (Z.lxor h' c) 3432918353) 19))).
  rewrite ToUint32_lor. reflexivity.
Qed.

Lemma rotl32_range x k : 0 <= Spec.rotl32 x k < 4294967296.
Proof. unfold Spec.rotl32, Spec.wrap. apply Z.mod_pos_bound. reflexivity. Qed.

Lemma xmur3_fold_spec str : forall h h',
  JS.ToUint32 h = JS.ToUint32 h' ->
  JS.ToUint32 (fold_left xmur3_mix str h) =
  JS.ToUint32 (fold_left (fun h c => Spec.rotl32 (Spec.imul32 (Z.lxor h c) 3432918353) 13)
                         str h').
Proof.
  induction str as [ | c str IH ]; intros h h' Hh; simpl.
  - exact Hh.
  - apply IH. rewrite (xmur3_mix_spec h h' c Hh).
    symmetry. apply ToUint32_small, rotl32_range.
Qed.

Lemma spec_fold_range str : forall h,
  str <> [] ->
  0 <= fold_left (fun h c => Spec.rotl32 (Spec.imul32 (Z.lxor h c) 3432918353) 13) str h
    < 4294967296.
Proof.
  induction str as [ | c str IH ]; intros h Hne; [ contradiction | ].
  destruct str as [ | d str ].
  - simpl. apply rotl32_range.
  - change (fold_left ?f (c :: ?l) h) with (fold_left f l (f h c)).
    apply IH. discriminate.
Qed.

Lemma hash_init_range str : 0 <= Spec.hash_init str < 4294967296.
Proof.
  unfold Spec.hash_init.
  destruct str as [ | c str ].
  - vm_compute. split; [ discriminate | reflexivity ].
  - apply spec_fold_range. discriminate.
Qed.

Lemma xmur3_spec str : JS.ToUint32 (xmur3 str) = Spec.hash_init str.
Proof.
  unfold xmur3. rewrite <- (ToUint32_small (Spec.hash_init str)) by apply hash_init_range.
  unfold Spec.hash_init. apply xmur3_fold_spec.
  rewrite ToUint32_xor, <- ToUint32_lxor. reflexivity.
Qed.

Lemma hash_next_range h : 0 <= h < 4294967296 -> 0 <= Spec.hash_next h < 4294967296.
Proof.
  intros Hh. unfold Spec.hash_next.
  apply lxor_range; [ apply imul32_range | apply shiftr_range; [ lia | apply imul32_range ] ].
Qed.

Lemma ToUint32_xorshift h n :
  0 <= n < 32 ->
  JS.ToUint32 (JS.xor h (JS.ushr h n)) =
  Z.lxor (JS.ToUint32 h) (Z.shiftr (JS.ToUint32 h) n).
Proof.
  intros Hn. rewrite ToUint32_xor, ushr_shiftr by exact Hn.
  rewrite (ToUint32_small (Z.shiftr _ _)); [ reflexivity | ].
  apply shiftr_range; [ lia | apply ToUint32_range ].
Qed.

Lemma xmur3_call_spec h :
  fst (xmur3_call h) = Spec.hash_next (JS.ToUint32 h) /\
  JS.ToUint32 (snd (xmur3_call h)) = Spec.hash_next (JS.ToUint32 h).
Proof.
  unfold xmur3_call. cbn [fst snd]. rewrite ushr_0.
  set (h1 := JS.imul (JS.xor h (JS.ushr h 16)) 2246822507).
  set (h2 := JS.imul (JS.xor h1 (JS.ushr h1 13)) 3266489909).
  assert (H1 : JS.ToUint32 h1 =
               Spec.imul32 (Z.lxor (JS.ToUint32 h) (Z.shiftr (JS.ToUint32 h) 16)) 2246822507).
  { unfold h1. rewrite ToUint32_imul, ToUint32_xorshift by lia. reflexivity. }
  assert (H2 : JS.ToUint32 h2 =
               Spec.imul32 (Z.lxor (JS.ToUint32 h1) (Z.shiftr (JS.ToUint32 h1) 13)) 3266489909).
  { unfold h2. rewrite ToUint32_imul, ToUint32_xorshift by lia. reflexivity. }
  assert (H : JS.ToUint32 (JS.xor h2 (JS.ushr h2 16)) = Spec.hash_next (JS.ToUint32 h)).
  { rewrite ToUint32_xorshift by lia. unfold Spec.hash_next. rewrite H2, H1. reflexivity. }
  split; exact H.
Qed.

Lemma ascii_check (s : jsstring) :
  forallb (fun c => (0 <=? c) && (c <? 128)) s = true ->
  Forall (fun c => 0 <= c < 128) s.
Proof.
  induction s as [ | c s IH ]; intros Hs; [ constructor | ].
  simpl in Hs. apply andb_true_iff in Hs. destruct Hs as [Hc Hs].
  apply andb_true_iff in Hc. destruct Hc as [H1 H2].
  apply Z.leb_le in H1. apply Z.ltb_lt in H2.
  constructor; [ lia | apply IH, Hs ].
Qed.

Section Seed.

Context `{CaseMapping}.

Lemma computeSeed_spec word : computeSeed word = Spec.seed (toLowerCase word).
Proof.
  unfold computeSeed, Spec.seed.
  pose proof (xmur3_spec (toLowerCase word)) as H0.
  destruct (xmur3_call (xmur3 (toLowerCase word))) as [s1 h1] eqn:E1.
  destruct (xmur3_call h1) as [s2 h2] eqn:E2.
  destruct (xmur3_call h2) as [s3 h3] eqn:E3.
  pose proof (xmur3_call_spec (xmur3 (toLowerCase word))) as [A1 B1].
  pose proof (xmur3_call_spec h1) as [A2 B2].
  pose proof (xmur3_call_spec h2) as [A3 B3].
  rewrite E1 in A1, B1. rewrite E2 in A2, B2. rewrite E3 in A3, B3.
  cbn [fst snd] in *.
  rewrite H0 in A1, B1. rewrite B1 in A2, B2. rewrite B2 in A3.
  rewrite <- A1, <- A2 in *. 
  rewrite ushr_0, !ToUint32_xor.
  assert (R1 : 0 <= s1 < 4294967296).
  { rewrite A1. apply hash_next_range, hash_init_range. }
  assert (R2 : 0 <= s2 < 4294967296).
  { rewrite A2. apply hash_next_range, R1. }
  assert (R3 : 0 <= s3 < 4294967296).
  { rewrite A3. apply hash_next_range, R2. }
  rewrite !ToUint32_small by assumption.
  rewrite A3. reflexivity.
Qed.

Lemma computeSeed_range word : 0 <= computeSeed word < 4294967296.
Proof.
  unfold computeSeed.
  destruct (xmur3_call (xmur3 (toLowerCase word))) as [s1 h1].
  destruct (xmur3_call h1) as [s2 h2].
  destruct (xmur3_call h2) as [s3 h3].
  apply ushr_range.
Qed.

Lemma computeSeed_lower word : computeSeed word = computeSeed (toLowerCase word).
Proof. unfold computeSeed. rewrite toLowerCase_idem. reflexivity. Qed.

Lemma computeSeed_ascii s :
  Forall (fun c => 0 <= c < 128) s ->
  computeSeed s = Spec.seed (map ascii_lower s).
Proof. intros Hs. rewrite computeSeed_spec, toLowerCase_ascii by exact Hs. reflexivity. Qed.

(** C2: [computeSeed] is the XOR of the first three outputs of the hash
    stream of the lower-cased word, as an unsigned 32-bit integer; it does
    not change when the word is lower-cased first, and "Harmony",
    "harmony" and "HARMONY" have the same seed. *)
Theorem computeSeed_contract (word : jsstring) :
  computeSeed word = Spec.seed (toLowerCase word)
  /\ 0 <= computeSeed word < 4294967296
  /\ computeSeed word = computeSeed (toLowerCase word)
  /\ computeSeed (lit "Harmony") = computeSeed (lit "harmony")
  /\ computeSeed (lit "harmony") = computeSeed (lit "HARMONY").
Proof.
  pose proof ascii_check as Hascii.
  split; [ apply computeSeed_spec | ].
  split; [ apply computeSeed_range | ].
  split; [ apply computeSeed_lower | ].
  split.
  - rewrite !computeSeed_ascii by (apply Hascii; reflexivity). reflexivity.
  - rewrite !computeSeed_ascii by (apply Hascii; reflexivity). reflexivity.
Qed.

End Seed.

(** The seeds of some words under the ASCII mapping. *)
Example seed_ocean : @computeSeed ascii_case_mapping (lit "ocean") = 2447940024.
Proof. vm_compute. reflexivity. Qed.

Example seed_cat_bat :
  @computeSeed ascii_case_mapping (lit "cat") = 663846828
  /\ @computeSeed ascii_case_mapping (lit "bat") = 3785122412.
Proof. split; vm_compute; reflexivity. Qed.

(** ** [sanitizeWord] *)

Lemma split_head s :
  match split s with t :: _ => t | [] => [] end = token s.
Proof.
  unfold split. induction s as [ | c s IH ]; [ reflexivity | ].
  simpl. destruct (is_space c); [ reflexivity | ].
  destruct (split_ws false s) as [ | t ts ]; rewrite <- IH; reflexivity.
Qed.

Lemma trimStart_decomp s :
  exists ws, s = ws ++ trimStart s /\ Forall (fun c => is_space c = true) ws.
Proof.
  induction s as [ | c s (ws & Heq & Hws) ].
  - exists []. split; [ reflexivity | constructor ].
  - simpl. destruct (is_space c) eqn:Hc.
    + exists (c :: ws). split; [ simpl; f_equal; exact Heq | constructor; assumption ].
    + exists []. split; [ reflexivity | constructor ].
Qed.

Lemma token_app_spaces l ws :
  Forall (fun c => is_space c = true) ws -> token (l ++ ws) = token l.
Proof.
  intros Hws. induction l as [ | c l IH ]; simpl.
  - destruct Hws as [ | d ws Hd _ ]; [ reflexivity | ]. simpl. rewrite Hd. reflexivity.
  - rewrite IH. reflexivity.
Qed.

Lemma trimEnd_decomp t :
  exists ws, t = trimEnd t ++ ws /\ Forall (fun c => is_space c = true) ws.
Proof.
  destruct (trimStart_decomp (rev t)) as (ws & Heq & Hws).
  exists (rev ws). split.
  - unfold trimEnd. rewrite <- rev_app_distr, <- Heq, rev_involutive. reflexivity.
  - apply List.Forall_rev, Hws.
Qed.

Lemma token_trimEnd t : token (trimEnd t) = token t.
Proof.
  destruct (trimEnd_decomp t) as (ws & Heq & Hws).
  rewrite Heq at 2. symmetry. apply token_app_spaces, Hws.
Qed.

Lemma sanitizeWord_first_token raw : sanitizeWord raw = firstn 32 (first_token raw).
Proof.
  unfold sanitizeWord, slice0, first_token, trim.
  rewrite split_head, token_trimEnd. reflexivity.
Qed.

Lemma token_no_space s : Forall (fun c => is_space c = false) (token s).
Proof.
  induction s as [ | c s IH ]; simpl; [ constructor | ].
  destruct (is_space c) eqn:Hc; constructor; assumption.
Qed.

Lemma sanitizeWord_no_space raw :
  Forall (fun c => is_space c = false) (sanitizeWord raw).
Proof.
  rewrite sanitizeWord_first_token. apply Forall_take, token_no_space.
Qed.

Lemma trimStart_no_space s :
  Forall (fun c => is_space c = false) s -> trimStart s = s.
Proof. intros [ | c l Hc _ ]; simpl; [ | rewrite Hc ]; reflexivity. Qed.

Lemma token_id s : Forall (fun c => is_space c = false) s -> token s = s.
Proof.
  induction 1 as [ | c l Hc _ IH ]; simpl; [ reflexivity | ].
  rewrite Hc, IH. reflexivity.
Qed.

Lemma sanitizeWord_length raw : (length (sanitizeWord raw) <= 32)%nat.
Proof. rewrite sanitizeWord_first_token. apply List.firstn_le_length. Qed.

Lemma code_points_bmp s :
  Forall (fun c => is_high_surrogate c = false) s -> code_points s = s.
Proof.
  induction 1 as [ | c l Hc _ IH ]; [ reflexivity | ].
  simpl. destruct l as [ | d l ]; [ reflexivity | ].
  rewrite Hc. simpl andb. cbv iota. f_equal. exact IH.
Qed.

Lemma no_high_check (s : jsstring) :
  forallb (fun c => negb (is_high_surrogate c)) s = true ->
  Forall (fun c => is_high_surrogate c = false) s.
Proof.
  induction s as [ | c s IH ]; intros Hs; [ constructor | ].
  cbn [forallb] in Hs. apply andb_true_iff in Hs. destruct Hs as [Hc Hs].
  constructor; [ apply negb_true_iff, Hc | apply IH, Hs ].
Qed.

Example sanitizeWord_hello :
  sanitizeWord (lit "  Hello   world ") = lit "Hello"
  /\ sanitizeWord (lit "   ") = []
  /\ split (lit " a  b ") = [[]; lit "a"; lit "b"; []].
Proof. repeat split; vm_compute; reflexivity. Qed.

(** C10: sanitizing a sanitized word changes nothing, and a sanitized word
    holds no white space. *)
Theorem sanitizeWord_idempotent (x : jsstring) :
  sanitizeWord (sanitizeWord x) = sanitizeWord x
  /\ Forall (fun c => is_space c = false) (sanitizeWord x).
Proof.
  split; [ | apply sanitizeWord_no_space ].
  rewrite (sanitizeWord_first_token (sanitizeWord x)). unfold first_token.
  rewrite trimStart_no_space, token_id by apply sanitizeWord_no_space.
  apply List.firstn_all2, sanitizeWord_length.
Qed.

Lemma code_points_no_pair s : has_surrogate_pair s = false -> code_points s = s.
Proof.
  induction s as [ | c s IH ]; [ reflexivity | ].
  destruct s as [ | d s ]; [ reflexivity | ].
  intros Hs. cbn [has_surrogate_pair] in Hs.
  apply orb_false_iff in Hs. destruct Hs as [Hcd Hs].
  cbn [code_points]. rewrite Hcd. f_equal. apply IH, Hs.
Qed.

Lemma no_pair_firstn s : forall n,
  has_surrogate_pair s = false -> has_surrogate_pair (firstn n s) = false.
Proof.
  induction s as [ | c s IH ]; intros n Hs; [ destruct n; reflexivity | ].
  destruct n as [ | n ]; [ reflexivity | ].
  destruct s as [ | d s ]; [ destruct n; reflexivity | ].
  cbn [has_surrogate_pair] in Hs.
  apply orb_false_iff in Hs. destruct Hs as [Hcd Hs].
  specialize (IH n Hs).
  destruct n as [ | n ]; [ reflexivity | ].
  cbn [firstn has_surrogate_pair] in IH |- *.
  rewrite Hcd. exact IH.
Qed.

(** C4, as the code has it: [sanitizeWord] returns the first
    white-space-delimited token of the trimmed input cut to its first 32
    UTF-16 code units; for a token without surrogate pairs (lone
    surrogates are allowed) these are its first 32 code points. *)
Theorem sanitizeWord_code_units (raw : jsstring) :
  sanitizeWord raw = firstn 32 (first_token raw)
  /\ (length (sanitizeWord raw) <= 32)%nat
  /\ (has_surrogate_pair (first_token raw) = false ->
      code_points (sanitizeWord raw) = firstn 32 (code_points (first_token raw))).
Proof.
  split; [ apply sanitizeWord_first_token | ].
  split; [ apply sanitizeWord_length | ].
  intros Hpair. rewrite sanitizeWord_first_token.
  rewrite !code_points_no_pair; [ reflexivity | exact Hpair | ].
  apply no_pair_firstn, Hpair.
Qed.

Lemma sanitizeWord_code_units_witness :
  has_surrogate_pair (first_token lone41) = false
  /\ length (first_token lone41) = 41%nat
  /\ sanitizeWord lone41 = 55357 :: repeat 97 31
  /\ code_points (sanitizeWord lone41) = firstn 32 (code_points (first_token lone41)).
Proof.
  assert (H : has_surrogate_pair (first_token lone41) = false)
    by (vm_compute; reflexivity).
  split; [ exact H | ].
  split; [ vm_compute; reflexivity | ].
  split; [ vm_compute; reflexivity | ].
  apply (proj2 (proj2 (sanitizeWord_code_units lone41))), H.
Defined.

(** C4 as stated fails: of a token of 33 astral code points (66 code units)
    [sanitizeWord] keeps 32 code units, which are 16 code points and not the
    first 32. *)
Lemma sanitizeWord_code_points_counterexample :
  first_token emoji33 = emoji33
  /\ length (code_points emoji33) = 33%nat
  /\ length (code_points (sanitizeWord emoji33)) = 16%nat
  /\ code_points (sanitizeWord emoji33) <> firstn 32 (code_points (first_token emoji33)).
Proof.
  split; [ vm_compute; reflexivity | ].
  split; [ vm_compute; reflexivity | ].
  split; [ vm_compute; reflexivity | ].
  intros H. apply (f_equal (@length Z)) in H. vm_compute in H. discriminate H.
Qed.

(** ** The generator *)

Lemma mulberry32_call_range a : 0 <= fst (mulberry32_call a) < 4294967296.
Proof. unfold mulberry32_call. cbn [fst]. apply ushr_range. Qed.

Lemma Qdraw_unit u :
  0 <= u < 4294967296 -> (0 <= Qdraw u)%Q /\ (Qdraw u < 1)%Q.
Proof.
  intros Hu. unfold Qdraw, Qle, Qlt. cbn [Qnum Qden]. lia.
Qed.

Lemma mulberry32_call_unit a :
  (0 <= Qdraw (fst (mulberry32_call a)))%Q /\ (Qdraw (fst (mulberry32_call a)) < 1)%Q.
Proof. apply Qdraw_unit, mulberry32_call_range. Qed.

Lemma draws_unit n : forall a,
  Forall (fun u => (0 <= Qdraw u)%Q /\ (Qdraw u < 1)%Q) (draws n a).
Proof.
  induction n as [ | n IH ]; intros a; cbn [draws]; constructor.
  - apply mulberry32_call_unit.
  - apply IH.
Qed.

Lemma gen_after_add n m a : gen_after (n + m) a = gen_after m (gen_after n a).
Proof.
  revert a. induction n as [ | n IH ]; intros a; cbn [gen_after Nat.add];
    [ exact eq_refl | apply IH ].
Qed.

Lemma gen_after_S n a : gen_after (S n) a = snd (mulberry32_call (gen_after n a)).
Proof.
  replace (S n) with (n + 1)%nat by lia. rewrite gen_after_add. exact eq_refl.
Qed.

Lemma draws_nth n : forall a k, (k < n)%nat -> nth k (draws n a) 0 = draw_at a k.
Proof.
  induction n as [ | n IH ]; intros a k Hk; [ lia | ].
  destruct k as [ | k ]; cbn [draws nth].
  - unfold draw_at. cbn [gen_after]. exact eq_refl.
  - rewrite IH by lia. unfold draw_at. cbn [gen_after]. exact eq_refl.
Qed.

Example draws_seed_0 : draws 3 0 = [1144304738; 1416247; 958946056].
Proof. vm_compute. reflexivity. Qed.

Module ClosureFacts.

Import Closures.

Lemma call_lookup g (st : gmap nat Z) a :
  st !! g = Some a ->
  call g st = Some (fst (mulberry32_call a), <[g := snd (mulberry32_call a)]> st).
Proof.
  intros Hg. unfold call. rewrite Hg.
  destruct (mulberry32_call a) as [u a']. reflexivity.
Qed.

Lemma returned_cons_eq g u outs :
  returned g ((g, u) :: outs) = u :: returned g outs.
Proof. unfold returned. rewrite filter_cons_True by reflexivity. reflexivity. Qed.

Lemma returned_cons_ne g g' u outs :
  g' <> g -> returned g ((g', u) :: outs) = returned g outs.
Proof. intros Hne. unfold returned. rewrite filter_cons_False by exact Hne. reflexivity. Qed.

Lemma calls_of_cons_eq g sched : calls_of g (g :: sched) = S (calls_of g sched).
Proof. unfold calls_of. rewrite filter_cons_True by reflexivity. reflexivity. Qed.

Lemma calls_of_cons_ne g g' sched :
  g' <> g -> calls_of g (g' :: sched) = calls_of g sched.
Proof. intros Hne. unfold calls_of. rewrite filter_cons_False by exact Hne. reflexivity. Qed.

(** Two distinct closures called in any interleaving: each returns the
    stream of its own captured state. *)
Lemma run_two g1 g2 (sched : list bool) :
  g1 <> g2 ->
  forall (st : gmap nat Z) a1 a2,
    st !! g1 = Some a1 -> st !! g2 = Some a2 ->
    exists outs,
      run (map (fun b : bool => if b then g1 else g2) sched) st = Some outs
      /\ returned g1 outs
         = draws (calls_of g1 (map (fun b : bool => if b then g1 else g2) sched)) a1
      /\ returned g2 outs
         = draws (calls_of g2 (map (fun b : bool => if b then g1 else g2) sched)) a2
      /\ Forall (fun o => (0 <= Qdraw (snd o))%Q /\ (Qdraw (snd o) < 1)%Q) outs.
Proof.
  intros Hne. induction sched as [ | b sched IH ]; intros st a1 a2 H1 H2;
    cbn [map run].
  - exists []. repeat split; constructor.
  - destruct b.
    + rewrite (call_lookup g1 st a1 H1).
      destruct (IH (<[g1 := snd (mulberry32_call a1)]> st) (snd (mulberry32_call a1)) a2)
        as (outs & Hrun & Hr1 & Hr2 & Hall).
      { apply lookup_insert_eq. }
      { rewrite lookup_insert_ne by exact Hne. exact H2. }
      rewrite Hrun. eexists. split; [ reflexivity | ].
      rewrite returned_cons_eq, calls_of_cons_eq, returned_cons_ne, calls_of_cons_ne
        by exact Hne.
      repeat split; [ cbn [draws]; f_equal; exact Hr1 | exact Hr2 | ].
      constructor; [ apply mulberry32_call_unit | exact Hall ].
    + rewrite (call_lookup g2 st a2 H2).
      destruct (IH (<[g2 := snd (mulberry32_call a2)]> st) a1 (snd (mulberry32_call a2)))
        as (outs & Hrun & Hr1 & Hr2 & Hall).
      { rewrite lookup_insert_ne by (intros E; apply Hne; symmetry; exact E). exact H1. }
      { apply lookup_insert_eq. }
      rewrite Hrun. eexists. split; [ reflexivity | ].
      rewrite returned_cons_eq, calls_of_cons_eq, returned_cons_ne, calls_of_cons_ne
        by (intros E; apply Hne; symmetry; exact E).
      repeat split; [ exact Hr1 | cbn [draws]; f_equal; exact Hr2 | ].
      constructor; [ apply mulberry32_call_unit | exact Hall ].
Qed.

End ClosureFacts.

(** C3: every value the generator returns lies in [0, 1); two closures
    created from one seed, called in any interleaving, each return the
    stream [draws _ seed] of that seed; in particular for 100000 draws from
    seed 0. *)
Theorem mulberry32_unit_interval_and_replay
    (seed : Z) (st : gmap nat Z) (sched : list bool) :
  (forall a, (0 <= Qdraw (fst (mulberry32_call a)))%Q
             /\ (Qdraw (fst (mulberry32_call a)) < 1)%Q)
  /\ (let '(g1, st1) := Closures.mulberry32 seed st in
      let '(g2, st2) := Closures.mulberry32 seed st1 in
      let order := map (fun b : bool => if b then g1 else g2) sched in
      exists outs,
        Closures.run order st2 = Some outs
        /\ Closures.returned g1 outs = draws (Closures.calls_of g1 order) seed
        /\ Closures.returned g2 outs = draws (Closures.calls_of g2 order) seed
        /\ Forall (fun o => (0 <= Qdraw (snd o))%Q /\ (Qdraw (snd o) < 1)%Q) outs)
  /\ Forall (fun u => (0 <= Qdraw u)%Q /\ (Qdraw u < 1)%Q) (draws (Z.to_nat 100000) 0).
Proof.
  split; [ apply mulberry32_call_unit | ].
  split; [ | apply draws_unit ].
  unfold Closures.mulberry32.
  set (g1 := fresh (dom st)).
  set (st1 := <[g1 := seed]> st).
  set (g2 := fresh (dom st1)).
  assert (Hne : g1 <> g2).
  { intros E. apply (is_fresh (dom st1)). fold g2. rewrite <- E.
    unfold st1. rewrite dom_insert_L. set_solver. }
  cbv zeta. apply ClosureFacts.run_two.
  - exact Hne.
  - rewrite lookup_insert_ne by (intros E; apply Hne; symmetry; exact E).
    apply lookup_insert_eq.
  - apply lookup_insert_eq.
Qed.

(** ** Rules for computations *)

Lemma value_bind {A B} (m : M A) (k : A -> M B) a :
  value (bind m k a) = value (k (value (m a)) (state (m a))).
Proof. exact eq_refl. Qed.

Lemma state_bind {A B} (m : M A) (k : A -> M B) a :
  state (bind m k a) = state (k (value (m a)) (state (m a))).
Proof. exact eq_refl. Qed.

Lemma trace_bind {A B} (m : M A) (k : A -> M B) a :
  trace (bind m k a) = trace (m a) ++ trace (k (value (m a)) (state (m a))).
Proof. exact eq_refl. Qed.

(** *** Results *)

Lemma returns_ret {A} (V : A -> Prop) x : V x -> returns V (ret x).
Proof. intros H a. exact H. Qed.

Lemma returns_bind {A B} (U : A -> Prop) (V : B -> Prop) (m : M A) (k : A -> M B) :
  returns U m -> (forall x, U x -> returns V (k x)) -> returns V (bind m k).
Proof. intros Hm Hk a. rewrite value_bind. apply Hk, Hm. Qed.

Lemma returns_any {A} (m : M A) : returns (fun _ => True) m.
Proof. intros a. exact I. Qed.

Lemma returns_rng : returns (fun u => 0 <= u < 4294967296) rng.
Proof. intros a. apply mulberry32_call_range. Qed.

(** *** Number of draws *)

Lemma consumes_ret {A} (x : A) : consumes 0 (ret x).
Proof. intros a. exact eq_refl. Qed.

Lemma consumes_emit c : consumes 0 (emit c).
Proof. intros a. exact eq_refl. Qed.

Lemma consumes_rng : consumes 1 rng.
Proof. intros a. exact eq_refl. Qed.

Lemma consumes_bind {A B} n1 n2 (m : M A) (k : A -> M B) :
  consumes n1 m -> (forall x, consumes n2 (k x)) -> consumes (n1 + n2) (bind m k).
Proof.
  intros Hm Hk a. rewrite state_bind, Hk, Hm. symmetry. apply gen_after_add.
Qed.

Lemma consumes_for_loop {A} c (body : Z -> M A) n : forall i,
  (forall j, consumes c (body j)) -> consumes (n * c) (for_loop n i body).
Proof.
  induction n as [ | n IH ]; intros i Hbody.
  - intros a. exact eq_refl.
  - cbn [for_loop Nat.mul].
    apply consumes_bind; [ apply Hbody | intros x ].
    replace (n * c)%nat with (n * c + 0)%nat by lia.
    apply consumes_bind; [ apply IH, Hbody | intros xs; apply consumes_ret ].
Qed.

(** *** Divisions *)

Lemma safe_ret {A} (V : A -> Prop) x : V x -> safe V (ret x).
Proof. intros H a. split; [ exact H | constructor ]. Qed.

Lemma safe_emit (V : unit -> Prop) c : V tt -> call_ok c = true -> safe V (emit c).
Proof. intros H Hc a. split; [ exact H | repeat constructor; exact Hc ]. Qed.

Lemma safe_rng : safe (fun _ => True) rng.
Proof. intros a. split; [ exact I | constructor ]. Qed.

Lemma safe_bind {A B} (U : A -> Prop) (V : B -> Prop) (m : M A) (k : A -> M B) :
  safe U m -> (forall x, U x -> safe V (k x)) -> safe V (bind m k).
Proof.
  intros Hm Hk a. destruct (Hm a) as [Hx Ht].
  destruct (Hk _ Hx (state (m a))) as [Hy Ht'].
  split; [ exact Hy | ].
  rewrite trace_bind. apply Forall_app. split; assumption.
Qed.

Lemma safe_for_loop {A} (U : A -> Prop) (body : Z -> M A) n : forall i,
  (forall j, safe U (body j)) -> safe (fun _ => True) (for_loop n i body).
Proof.
  induction n as [ | n IH ]; intros i Hbody.
  - apply safe_ret. exact I.
  - cbn [for_loop].
    apply (safe_bind U); [ apply Hbody | intros x _ ].
    apply (safe_bind (fun _ => True)); [ apply IH, Hbody | intros xs _ ].
    apply safe_ret. exact I.
Qed.

Lemma safe_pick_style (arr : list Style) :
  Forall (fun s => style_ok s = true) arr ->
  safe (fun o => ostyle_ok o = true) (pick arr).
Proof.
  intros Harr. unfold pick.
  apply (safe_bind (fun _ => True)); [ apply safe_rng | intros u _ ].
  apply safe_ret.
  destruct (_ <? 0); [ reflexivity | ].
  destruct (arr !! _) as [ s | ] eqn:Hs; [ | reflexivity ].
  cbn [ostyle_ok]. rewrite Forall_forall in Harr. apply Harr.
  apply list_elem_of_lookup. eexists. exact Hs.
Qed.

Lemma safe_pick_any {A} (arr : list A) : safe (fun _ => True) (pick arr).
Proof.
  unfold pick.
  apply (safe_bind (fun _ => True)); [ apply safe_rng | intros u _ ].
  apply safe_ret. exact I.
Qed.

(** *** Independence of the surface *)

Lemma same_draws_refl {A} (m : M A) : same_draws m m.
Proof. intros a. split; reflexivity. Qed.

Lemma same_draws_emit c1 c2 : same_draws (emit c1) (emit c2).
Proof. intros a. split; exact eq_refl. Qed.

Lemma same_draws_bind {A B} (m1 m2 : M A) (k1 k2 : A -> M B) :
  same_draws m1 m2 -> (forall x, same_draws (k1 x) (k2 x)) ->
  same_draws (bind m1 k1) (bind m2 k2).
Proof.
  intros Hm Hk a. rewrite !value_bind, !state_bind.
  destruct (Hm a) as [Hv Hs]. rewrite Hv, Hs. apply Hk.
Qed.

Lemma same_draws_for_loop {A} (b1 b2 : Z -> M A) n : forall i,
  (forall j, same_draws (b1 j) (b2 j)) ->
  same_draws (for_loop n i b1) (for_loop n i b2).
Proof.
  induction n as [ | n IH ]; intros i Hb.
  - apply same_draws_refl.
  - cbn [for_loop].
    apply same_draws_bind; [ apply Hb | intros x ].
    apply same_draws_bind; [ apply IH, Hb | intros xs ].
    apply same_draws_refl.
Qed.

(** *** The projections of [drawMandala] *)

Lemma fst_pair_eq {A B} (x : A) (y : B) : fst (x, y) = x.
Proof. reflexivity. Qed.

Lemma snd_pair_eq {A B} (x : A) (y : B) : snd (x, y) = y.
Proof. reflexivity. Qed.

Lemma drawMandala_selection ctx word seed options :
  fst (drawMandala ctx word seed options)
  = value (drawMandala_body (canvas_width ctx) (canvas_height ctx) word options seed).
Proof. unfold drawMandala, mulberry32. cbv zeta. apply fst_pair_eq. Qed.

Lemma drawMandala_calls ctx word seed options :
  calls (snd (drawMandala ctx word seed options))
  = calls ctx
    ++ trace (drawMandala_body (canvas_width ctx) (canvas_height ctx) word options seed).
Proof. unfold drawMandala, mulberry32. cbv zeta. rewrite snd_pair_eq. reflexivity. Qed.


(** ** Floors of scaled draws *)

Lemma floor_draw_eq c u k : floor_draw c u k = c + u * k / 4294967296.
Proof.
  unfold floor_draw, Qdraw, Qfloor, Qplus, Qmult, inject_Z. cbn [Qnum Qden].
  rewrite !Pos.mul_1_r, Pos.mul_1_l, Z.mul_1_r.
  rewrite Z.add_comm, Z.mul_comm, Z.div_add by discriminate.
  apply Z.add_comm.
Qed.

Lemma floor_draw_bounds c u k :
  0 <= u < 4294967296 -> 0 < k -> c <= floor_draw c u k <= c + k - 1.
Proof.
  intros Hu Hk. rewrite floor_draw_eq.
  assert (0 <= u * k / 4294967296 < k); [ | lia ].
  split.
  - apply Z.div_pos; nia.
  - apply Z.div_lt_upper_bound; nia.
Qed.

Lemma pick_index_eq u n : Qfloor (Qdraw u * inject_Z n) = u * n / 4294967296.
Proof.
  unfold Qdraw, Qfloor, Qmult, inject_Z. cbn [Qnum Qden].
  rewrite Pos.mul_1_r. reflexivity.
Qed.

Lemma pick_index_range u n :
  0 <= u < 4294967296 -> 0 < n -> 0 <= Qfloor (Qdraw u * inject_Z n) < n.
Proof.
  intros Hu Hn. rewrite pick_index_eq. split.
  - apply Z.div_pos; nia.
  - apply Z.div_lt_upper_bound; nia.
Qed.

(** [pick] never returns [undefined] on a non-empty array. *)
Lemma pick_defined {A} (arr : list A) : arr <> [] -> returns is_Some (pick arr).
Proof.
  intros Hne. unfold pick.
  apply (returns_bind (fun u => 0 <= u < 4294967296)); [ apply returns_rng | ].
  intros u Hu. cbv zeta. apply returns_ret.
  assert (Hlen : 0 < Z.of_nat (length arr)).
  { destruct arr; [ contradiction | cbn [length]; lia ]. }
  pose proof (pick_index_range u _ Hu Hlen) as Hi.
  destruct (Z.ltb_spec (Qfloor (Qdraw u * inject_Z (Z.of_nat (length arr)))) 0);
    [ lia | ].
  apply lookup_lt_is_Some. lia.
Qed.

Lemma returns_for_loop {A} (V : A -> Prop) (body : Z -> M A) n : forall i,
  (forall j, returns V (body j)) -> returns (Forall V) (for_loop n i body).
Proof.
  induction n as [ | n IH ]; intros i Hbody.
  - apply returns_ret. constructor.
  - cbn [for_loop].
    apply (returns_bind V); [ apply Hbody | intros x Hx ].
    apply (returns_bind (Forall V)); [ apply IH, Hbody | intros xs Hxs ].
    apply returns_ret. constructor; assumption.
Qed.

(** ** The palette *)

Lemma makePalette_consumes : consumes 4 makePalette.
Proof.
  unfold makePalette.
  apply (consumes_bind 1 3); [ apply consumes_rng | intros u1; cbv zeta ].
  apply (consumes_bind 1 2); [ apply consumes_rng | intros u2; cbv zeta ].
  apply (consumes_bind 1 1); [ apply consumes_rng | intros u3; cbv zeta ].
  apply (consumes_bind 1 0); [ apply consumes_rng | intros u4; cbv zeta ].
  apply consumes_ret.
Qed.

Lemma makePalette_value a :
  value (makePalette a) =
  let baseHue := Qfloor (Qdraw (draw_at a 0) * 360) in
  {| baseHue := baseHue;
     ink := hsl baseHue 85 70 (Lit 0.85);
     ink2 := hsl (Rem (baseHue + 35 + Draw (draw_at a 1) * 40) 360) 88 62 (Lit 0.85);
     ink3 := hsl (Rem (baseHue + 180 + Draw (draw_at a 2) * 50) 360) 85 62 (Lit 0.82);
     ink4 := hsl (Rem (baseHue + 250 + Draw (draw_at a 3) * 50) 360) 88 68 (Lit 0.82);
     gold := hsl (Rem (baseHue + 55) 360) 90 62 (Lit 0.9);
     white := css "rgba(255,255,255,0.9)" |}.
Proof.
  cbv [makePalette bind rng ret value state trace fst snd draw_at gen_after].
  reflexivity.
Qed.

Lemma drawMandala_body_palette w h word options a :
  sel_palette (value (drawMandala_body w h word options a)) = value (makePalette a).
Proof.
  unfold drawMandala_body. rewrite value_bind.
  generalize (value (makePalette a)) (state (makePalette a)). intros palette a1.
  repeat (rewrite value_bind;
          match goal with
          | |- context [ state (?m ?s) ] =>
              generalize (value (m s)); generalize (state (m s)); intros ? ?
          end; cbv zeta).
  exact eq_refl.
Qed.

(** C5, as the code has it: [makePalette] calls the generator exactly four
    times and builds the palette from these four values; a render keeps
    that palette to its end. *)
Theorem makePalette_four_draws (a : Z) :
  state (makePalette a) = gen_after 4 a
  /\ value (makePalette a) =
     (let baseHue := Qfloor (Qdraw (draw_at a 0) * 360) in
      {| baseHue := baseHue;
         ink := hsl baseHue 85 70 (Lit 0.85);
         ink2 := hsl (Rem (baseHue + 35 + Draw (draw_at a 1) * 40) 360) 88 62 (Lit 0.85);
         ink3 := hsl (Rem (baseHue + 180 + Draw (draw_at a 2) * 50) 360) 85 62 (Lit 0.82);
         ink4 := hsl (Rem (baseHue + 250 + Draw (draw_at a 3) * 50) 360) 88 68 (Lit 0.82);
         gold := hsl (Rem (baseHue + 55) 360) 90 62 (Lit 0.9);
         white := css "rgba(255,255,255,0.9)" |})
  /\ (forall ctx word options,
        sel_palette (fst (drawMandala ctx word a options)) = value (makePalette a)).
Proof.
  split; [ apply makePalette_consumes | ].
  split; [ apply makePalette_value | ].
  intros ctx word options. unfold drawMandala, mulberry32. cbn [fst].
  apply drawMandala_body_palette.
Qed.

(** C5 as stated fails: after [makePalette] the generator is not in the
    state that five calls leave (it is in the state that four calls
    leave). *)
Lemma makePalette_five_draws_counterexample :
  state (makePalette 0) <> gen_after 5 0.
Proof. intros H. vm_compute in H. discriminate H. Qed.

(** ** Divisors *)

Lemma clamp_bounds n lo hi : lo <= hi -> lo <= JS.clamp n lo hi <= hi.
Proof. intros H. unfold JS.clamp. lia. Qed.

Lemma or_else_nonzero x : negb (JS.or_else x 1 =? 0) = true.
Proof.
  unfold JS.or_else. destruct (Z.eqb_spec x 0) as [ E | E ]; [ reflexivity | ].
  apply negb_true_iff, Z.eqb_neq, E.
Qed.

Lemma clamp_nonzero n lo hi : 0 < lo <= hi -> negb (JS.clamp n lo hi =? 0) = true.
Proof.
  intros H. apply negb_true_iff, Z.eqb_neq.
  pose proof (clamp_bounds n lo hi). lia.
Qed.

Lemma clamp_pred_nonzero n lo hi :
  1 < lo <= hi -> negb (JS.clamp n lo hi - 1 =? 0) = true.
Proof.
  intros H. apply negb_true_iff, Z.eqb_neq.
  pose proof (clamp_bounds n lo hi). lia.
Qed.

Ltac ok :=
  cbn [call_ok divisions_ok style_ok ostyle_ok nonzero_int hsl style_or num_or];
  repeat match goal with
         | H : divisions_ok _ = true |- _ => rewrite H
         | H : style_ok _ = true |- _ => rewrite H
         | H : ostyle_ok _ = true |- _ => rewrite H
         | H : negb _ = true |- _ => rewrite H
         end;
  reflexivity.

Ltac safe_step :=
  cbv zeta;
  lazymatch goal with
  | |- safe _ (bind rng _) =>
      apply (safe_bind (fun _ => True)); [ apply safe_rng | intros ? _ ]
  | |- safe _ (bind (emit _) _) =>
      apply (safe_bind (fun _ => True));
      [ apply safe_emit; [ exact I | ok ] | intros _ _ ]
  | |- safe _ (emit _) => apply safe_emit; [ exact I | ok ]
  | |- safe _ (ret _) => apply safe_ret; exact I
  | |- safe _ (bind (@pick Style _) _) =>
      apply (safe_bind (fun o => ostyle_ok o = true));
      [ apply safe_pick_style; assumption | intros ? ? ]
  | |- safe _ (bind (for_range _ _) _) =>
      apply (safe_bind (fun _ => True));
      [ apply (safe_for_loop (fun _ => True)); intros ? | intros _ _ ]
  | |- safe _ (bind (bind _ _) _) =>
      apply (safe_bind (fun _ => True)); [ | intros _ _ ]
  end.

Section SafeHelpers.

Variables (color glowColor : option Style) (lineWidth : Num)
          (glowBlur : option Num).
Hypotheses (Hcolor : ostyle_ok color = true)
           (Hglow : ostyle_ok glowColor = true)
           (HlineWidth : divisions_ok lineWidth = true)
           (Hblur : divisions_ok (num_or glowBlur 0) = true).

Lemma style_or_ok : ostyle_ok (style_or glowColor color) = true.
Proof. destruct glowColor; assumption. Qed.

Lemma num_or_ok d : divisions_ok d = true -> divisions_ok (num_or glowBlur d) = true.
Proof. intros Hd. destruct glowBlur; assumption. Qed.

Lemma strokeGlow_safe :
  safe (fun _ => True) (strokeGlow color lineWidth glowColor glowBlur).
Proof.
  pose proof style_or_ok. pose proof (num_or_ok 10 eq_refl).
  unfold strokeGlow. repeat safe_step.
Qed.

Lemma fillGlow_safe : safe (fun _ => True) (fillGlow color glowColor glowBlur).
Proof.
  pose proof style_or_ok. pose proof (num_or_ok 12 eq_refl).
  unfold fillGlow. repeat safe_step.
Qed.

End SafeHelpers.

Lemma drawPetal_safe r0 r1 width :
  divisions_ok r0 = true -> divisions_ok r1 = true -> divisions_ok width = true ->
  safe (fun _ => True) (drawPetal r0 r1 width).
Proof. intros H0 H1 Hw. unfold drawPetal. repeat safe_step. Qed.

Lemma drawArcBand_safe r0 r1 a0 a1 :
  divisions_ok r0 = true -> divisions_ok r1 = true ->
  divisions_ok a0 = true -> divisions_ok a1 = true ->
  safe (fun _ => True) (drawArcBand r0 r1 a0 a1).
Proof. intros H0 H1 Ha0 Ha1. unfold drawArcBand. repeat safe_step. Qed.

Lemma drawDot_safe r size :
  divisions_ok r = true -> divisions_ok size = true ->
  safe (fun _ => True) (drawDot r size).
Proof. intros Hr Hs. unfold drawDot. repeat safe_step. Qed.

Ltac safe_call :=
  cbv zeta;
  lazymatch goal with
  | |- safe _ (bind (strokeGlow _ _ _ _) _) =>
      apply (safe_bind (fun _ => True)); [ apply strokeGlow_safe; ok | intros _ _ ]
  | |- safe _ (bind (fillGlow _ _ _) _) =>
      apply (safe_bind (fun _ => True)); [ apply fillGlow_safe; ok | intros _ _ ]
  | |- safe _ (bind (drawPetal _ _ _) _) =>
      apply (safe_bind (fun _ => True)); [ apply drawPetal_safe; ok | intros _ _ ]
  | |- safe _ (bind (drawArcBand _ _ _ _) _) =>
      apply (safe_bind (fun _ => True)); [ apply drawArcBand_safe; ok | intros _ _ ]
  | |- safe _ (bind (drawDot _ _) _) =>
      apply (safe_bind (fun _ => True)); [ apply drawDot_safe; ok | intros _ _ ]
  | |- _ => safe_step
  end.

Section SafeMotifs.

Variables (minDim : Z) (R step : Num) (palette : Palette) (inks : list Style).
Variables (r0 r1 : Num) (stroke fill : option Style) (lw : Num) (li si : Z).
Hypotheses (HR : divisions_ok R = true) (Hstep : divisions_ok step = true)
           (Hinks : Forall (fun s => style_ok s = true) inks)
           (Hr0 : divisions_ok r0 = true) (Hr1 : divisions_ok r1 = true)
           (Hstroke : ostyle_ok stroke = true) (Hfill : ostyle_ok fill = true)
           (Hlw : divisions_ok lw = true).

Lemma motif_petal_safe :
  safe (fun _ => True) (motif_petal R palette r0 r1 stroke fill lw li si).
Proof. unfold motif_petal. repeat safe_call. Qed.

Lemma motif_band_safe :
  safe (fun _ => True) (motif_band step palette r0 r1 stroke fill lw li).
Proof. unfold motif_band. repeat safe_call. Qed.

Lemma motif_rays_safe :
  safe (fun _ => True) (motif_rays step r0 r1 stroke lw).
Proof.
  unfold motif_rays. safe_call.
  pose proof (or_else_nonzero (JS.clamp (floor_draw 2 x 6) 2 7 - 1)).
  repeat safe_call.
Qed.

Lemma motif_dots_safe :
  safe (fun _ => True) (motif_dots minDim inks r0 r1 lw).
Proof.
  unfold motif_dots. safe_call.
  pose proof (or_else_nonzero (JS.clamp (floor_draw 2 x 5) 2 6 - 1)).
  repeat safe_call.
Qed.

Lemma motif_triangles_safe :
  safe (fun _ => True) (motif_triangles R palette r0 r1 stroke fill lw li).
Proof. unfold motif_triangles. repeat safe_call. Qed.

Lemma segment_safe kind :
  safe (fun _ => True)
       (segment minDim R step palette inks r0 r1 stroke fill lw li si kind).
Proof.
  unfold segment. repeat safe_call.
  apply (safe_bind (fun _ => True)); [ | intros _ _; safe_call ].
  destruct kind as [ [ | | | | ] | ].
  - apply motif_petal_safe.
  - apply motif_band_safe.
  - apply motif_rays_safe.
  - apply motif_dots_safe.
  - apply motif_triangles_safe.
  - apply safe_ret. exact I.
Qed.

End SafeMotifs.

Lemma makePalette_safe :
  safe (fun p => Forall (fun s => style_ok s = true)
                        [ink p; ink2 p; ink3 p; ink4 p; gold p; white p])
       makePalette.
Proof.
  unfold makePalette.
  apply (safe_bind (fun _ => True)); [ apply safe_rng | intros u1 _; cbv zeta ].
  apply (safe_bind (fun _ => True)); [ apply safe_rng | intros u2 _; cbv zeta ].
  apply (safe_bind (fun _ => True)); [ apply safe_rng | intros u3 _; cbv zeta ].
  apply (safe_bind (fun _ => True)); [ apply safe_rng | intros u4 _; cbv zeta ].
  apply safe_ret. cbn [ink ink2 ink3 ink4 gold white].
  repeat constructor.
Qed.

Lemma drawBackground_safe w h palette : safe (fun _ => True) (drawBackground w h palette).
Proof. unfold drawBackground. repeat safe_call. Qed.

Lemma draw_signature_safe w h word : safe (fun _ => True) (draw_signature w h word).
Proof. unfold draw_signature. repeat safe_call. Qed.

Section SafeLayers.

Variables (minDim : Z) (R : Num) (palette : Palette) (inks : list Style).
Hypotheses (HR : divisions_ok R = true)
           (Hinks : Forall (fun s => style_ok s = true) inks).

Lemma layer_safe step segments layers li :
  divisions_ok step = true ->
  negb (layers - 1 =? 0) = true ->
  safe (fun _ => True) (layer minDim R step palette inks segments layers li).
Proof.
  intros Hstep Hlayers. unfold layer. safe_call. safe_call. safe_call.
  apply (safe_bind (fun _ => True)); [ apply safe_pick_any | intros kind _ ].
  safe_call.
  apply (safe_bind (fun _ => True)).
  - apply (safe_for_loop (fun _ => True)). intros si.
    apply segment_safe; try assumption; ok.
  - intros _ _. apply safe_ret. exact I.
Qed.

Lemma rosette_petal_safe cStep i :
  divisions_ok cStep = true ->
  style_ok (ink palette) = true -> style_ok (white palette) = true ->
  safe (fun _ => True) (rosette_petal minDim R cStep palette i).
Proof. intros HcStep Hink Hwhite. unfold rosette_petal. repeat safe_call. Qed.

End SafeLayers.

Lemma drawMandala_body_safe w h word options :
  safe (fun _ => True) (drawMandala_body w h word options).
Proof.
  unfold drawMandala_body.
  apply (safe_bind _ _ _ _ makePalette_safe). intros palette Hinks.
  assert (Hink : style_ok (ink palette) = true) by (inversion Hinks; assumption).
  assert (Hgold : style_ok (gold palette) = true).
  { do 4 (apply Forall_inv_tail in Hinks). inversion Hinks. assumption. }
  assert (Hwhite : style_ok (white palette) = true).
  { do 5 (apply Forall_inv_tail in Hinks). inversion Hinks. assumption. }
  apply (safe_bind (fun _ => True)); [ apply drawBackground_safe | intros _ _ ].
  do 4 safe_call.
  apply (safe_bind (fun _ => True)); [ apply safe_rng | intros useg _; cbv zeta ].
  apply (safe_bind (fun _ => True)); [ apply safe_rng | intros ulay _; cbv zeta ].
  pose proof (clamp_nonzero (floor_draw 8 useg 18) 8 26 ltac:(lia)) as Hseg.
  pose proof (clamp_pred_nonzero (floor_draw 7 ulay 7) 7 14 ltac:(lia)) as Hlay.
  do 6 safe_call.
  apply (safe_bind (fun _ => True)).
  { apply (safe_for_loop (fun _ => True)). intros li.
    apply layer_safe; try assumption; ok. }
  intros kinds _. safe_call.
  apply (safe_bind (fun _ => True)); [ apply safe_rng | intros ucp _; cbv zeta ].
  pose proof (clamp_nonzero (floor_draw 10 ucp 18) 10 30 ltac:(lia)) as Hcp.
  apply (safe_bind (fun _ => True)).
  { apply (safe_for_loop (fun _ => True)). intros i.
    apply rosette_petal_safe; try assumption; ok. }
  intros _ _. do 9 safe_call.
  apply (safe_bind (fun _ => True)); [ | intros _ _; apply safe_ret; exact I ].
  destruct options as [ [ [ | ] ] | ]; cbn [signature].
  - apply draw_signature_safe.
  - apply safe_ret. exact I.
  - apply safe_ret. exact I.
Qed.

(** C7: every division a render performs divides by a nonzero integer; in
    particular [layers - 1], [rayCount - 1 || 1] and [dotCount - 1 || 1] are
    never zero, whatever the generator returns. *)
Theorem no_division_by_zero (ctx : Canvas) (word : jsstring) (seed : Z)
    (options : option Options) :
  (exists t, calls (snd (drawMandala ctx word seed options)) = calls ctx ++ t
             /\ Forall (fun c => call_ok c = true) t)
  /\ (forall u, JS.clamp (floor_draw 7 u 7) 7 14 - 1 <> 0)
  /\ (forall u, JS.or_else (JS.clamp (floor_draw 2 u 6) 2 7 - 1) 1 <> 0)
  /\ (forall u, JS.or_else (JS.clamp (floor_draw 2 u 5) 2 6 - 1) 1 <> 0).
Proof.
  split.
  - eexists. split; [ reflexivity | ].
    apply (drawMandala_body_safe (canvas_width ctx) (canvas_height ctx) word options
                                 (mulberry32 seed)).
  - repeat split; intros u.
    + apply Z.eqb_neq, negb_true_iff, clamp_pred_nonzero. lia.
    + apply Z.eqb_neq, negb_true_iff, or_else_nonzero.
    + apply Z.eqb_neq, negb_true_iff, or_else_nonzero.
Qed.

(** ** Draws do not depend on the surface *)

Lemma same_draws_sym {A} (m1 m2 : M A) : same_draws m1 m2 -> same_draws m2 m1.
Proof. intros H a. destruct (H a) as [Hv Hs]. split; symmetry; assumption. Qed.

Lemma same_draws_trans {A} (m1 m2 m3 : M A) :
  same_draws m1 m2 -> same_draws m2 m3 -> same_draws m1 m3.
Proof.
  intros H12 H23 a. destruct (H12 a) as [Hv Hs]. destruct (H23 a) as [Hv' Hs'].
  split; [ rewrite Hv; exact Hv' | rewrite Hs; exact Hs' ].
Qed.

Ltac same_step :=
  cbv zeta;
  lazymatch goal with
  | |- same_draws (bind _ _) (bind _ _) => apply same_draws_bind; [ | intros ? ]
  | |- same_draws (emit _) (emit _) => apply same_draws_emit
  | |- same_draws (for_range _ _) (for_range _ _) =>
      apply same_draws_for_loop; intros ?
  | |- same_draws ?m ?m => apply same_draws_refl
  end.

Lemma strokeGlow_same c1 l1 g1 b1 c2 l2 g2 b2 :
  same_draws (strokeGlow c1 l1 g1 b1) (strokeGlow c2 l2 g2 b2).
Proof. unfold strokeGlow. repeat same_step. Qed.

Lemma fillGlow_same c1 g1 b1 c2 g2 b2 :
  same_draws (fillGlow c1 g1 b1) (fillGlow c2 g2 b2).
Proof. unfold fillGlow. repeat same_step. Qed.

Lemma drawPetal_same r0 r1 w r0' r1' w' :
  same_draws (drawPetal r0 r1 w) (drawPetal r0' r1' w').
Proof. unfold drawPetal. repeat same_step. Qed.

Lemma drawArcBand_same r0 r1 a0 a1 r0' r1' a0' a1' :
  same_draws (drawArcBand r0 r1 a0 a1) (drawArcBand r0' r1' a0' a1').
Proof. unfold drawArcBand. repeat same_step. Qed.

Lemma drawDot_same r s r' s' : same_draws (drawDot r s) (drawDot r' s').
Proof. unfold drawDot. repeat same_step. Qed.

Ltac same_call :=
  cbv zeta;
  lazymatch goal with
  | |- same_draws (strokeGlow _ _ _ _) (strokeGlow _ _ _ _) => apply strokeGlow_same
  | |- same_draws (fillGlow _ _ _) (fillGlow _ _ _) => apply fillGlow_same
  | |- same_draws (drawPetal _ _ _) (drawPetal _ _ _) => apply drawPetal_same
  | |- same_draws (drawArcBand _ _ _ _) (drawArcBand _ _ _ _) => apply drawArcBand_same
  | |- same_draws (drawDot _ _) (drawDot _ _) => apply drawDot_same
  | |- _ => same_step
  end.

Section SameMotifs.

(** What depends on the surface comes in two versions; the step, the
    palette and the picked styles are shared. *)
Variables (minDim minDim' : Z) (R R' : Num) (step : Num) (palette : Palette)
          (inks : list Style).
Variables (r0 r1 r0' r1' : Num) (stroke fill : option Style) (lw lw' : Num).
Variables (li si : Z).

Lemma motif_petal_same :
  same_draws (motif_petal R palette r0 r1 stroke fill lw li si)
             (motif_petal R' palette r0' r1' stroke fill lw' li si).
Proof. unfold motif_petal. repeat same_call. Qed.

Lemma motif_band_same :
  same_draws (motif_band step palette r0 r1 stroke fill lw li)
             (motif_band step palette r0' r1' stroke fill lw' li).
Proof. unfold motif_band. repeat same_call. Qed.

Lemma motif_rays_same :
  same_draws (motif_rays step r0 r1 stroke lw) (motif_rays step r0' r1' stroke lw').
Proof. unfold motif_rays. repeat same_call. Qed.

Lemma motif_dots_same :
  same_draws (motif_dots minDim inks r0 r1 lw) (motif_dots minDim' inks r0' r1' lw').
Proof. unfold motif_dots. repeat same_call. Qed.

Lemma motif_triangles_same :
  same_draws (motif_triangles R palette r0 r1 stroke fill lw li)
             (motif_triangles R' palette r0' r1' stroke fill lw' li).
Proof. unfold motif_triangles. repeat same_call. Qed.

Lemma segment_same kind :
  same_draws (segment minDim R step palette inks r0 r1 stroke fill lw li si kind)
             (segment minDim' R' step palette inks r0' r1' stroke fill lw' li si kind).
Proof.
  unfold segment. same_call; [ apply same_draws_emit | ].
  same_call; [ apply same_draws_emit | ].
  same_call; [ | apply same_draws_emit ].
  destruct kind as [ [ | | | | ] | ].
  - apply motif_petal_same.
  - apply motif_band_same.
  - apply motif_rays_same.
  - apply motif_dots_same.
  - apply motif_triangles_same.
  - apply same_draws_refl.
Qed.

End SameMotifs.

Lemma layer_same minDim minDim' R R' step palette inks segments layers li :
  same_draws (layer minDim R step palette inks segments layers li)
             (layer minDim' R' step palette inks segments layers li).
Proof.
  unfold layer. repeat same_call. apply segment_same.
Qed.

Lemma rosette_petal_same minDim minDim' R R' cStep palette i :
  same_draws (rosette_petal minDim R cStep palette i)
             (rosette_petal minDim' R' cStep palette i).
Proof. unfold rosette_petal. repeat same_call. Qed.

Lemma drawBackground_same w h w' h' palette :
  same_draws (drawBackground w h palette) (drawBackground w' h' palette).
Proof. unfold drawBackground. repeat same_call. Qed.

Lemma signature_silent w h word options :
  same_draws (match options with
              | Some o => if signature o then draw_signature w h word else ret tt
              | None => ret tt
              end)
             (ret tt).
Proof.
  destruct options as [ [ [ | ] ] | ]; cbn [signature];
    try apply same_draws_refl.
  intros a. split; exact eq_refl.
Qed.

Lemma drawMandala_body_same w h word options w' h' word' options' :
  same_draws (drawMandala_body w h word options)
             (drawMandala_body w' h' word' options').
Proof.
  unfold drawMandala_body.
  same_call; [ apply same_draws_refl | ].
  same_call; [ apply drawBackground_same | ].
  do 12 (same_call; [ same_call | ]).
  same_call; [ same_call; apply layer_same | ].
  do 2 (same_call; [ same_call | ]).
  same_call; [ same_call; apply rosette_petal_same | ].
  do 9 (same_call; [ same_call | ]).
  same_call; [ | apply same_draws_refl ].
  eapply same_draws_trans; [ apply signature_silent | ].
  apply same_draws_sym, signature_silent.
Qed.

(** The kind of a layer is always one of the five. *)
Lemma layer_kind_defined minDim R step palette inks segments layers li :
  returns is_Some (layer minDim R step palette inks segments layers li).
Proof.
  unfold layer. cbv zeta.
  do 3 (apply (returns_bind (fun _ => True)); [ apply returns_any | intros ? _ ]).
  apply (returns_bind is_Some); [ apply pick_defined; discriminate | intros kind Hkind ].
  do 2 (apply (returns_bind (fun _ => True)); [ apply returns_any | intros ? _ ]).
  apply returns_ret. exact Hkind.
Qed.

Lemma drawMandala_body_kinds_defined w h word options :
  returns (fun sel => Forall is_Some (sel_kinds sel)) (drawMandala_body w h word options).
Proof.
  unfold drawMandala_body. cbv zeta.
  do 14 (apply (returns_bind (fun _ => True)); [ apply returns_any | intros ? _ ]).
  apply (returns_bind (Forall is_Some)).
  { apply returns_for_loop. intros li. apply layer_kind_defined. }
  intros kinds Hkinds.
  do 13 (apply (returns_bind (fun _ => True)); [ apply returns_any | intros ? _ ]).
  apply returns_ret. exact Hkinds.
Qed.

Section Structure.

Context `{CaseMapping}.

(** C8: the seed, and with it the segments, the layers and the kind of
    every layer, are the same whatever the surface (and whatever the
    options); every layer has one of the five kinds; for "lotus" at 400x400
    and at 800x800 there are 19 segments and 7 layers of kinds petal, rays,
    band, rays, dots, band, band. *)
Theorem structure_independent_of_surface
    (word : jsstring) (ctx1 ctx2 : Canvas) (options1 options2 : option Options) :
  fst (render ctx1 word options1) = fst (render ctx2 word options2)
  /\ structure (fst (snd (render ctx1 word options1)))
     = structure (fst (snd (render ctx2 word options2)))
  /\ Forall is_Some (sel_kinds (fst (snd (render ctx1 word options1))))
  /\ (forall calls1 calls2,
        let small := {| canvas_width := 400; canvas_height := 400; calls := calls1 |} in
        let large := {| canvas_width := 800; canvas_height := 800; calls := calls2 |} in
        structure (fst (snd (render small (lit "lotus") options1)))
        = (19, 7, [Some petal; Some rays; Some band; Some rays; Some dots;
                   Some band; Some band])
        /\ structure (fst (snd (render large (lit "lotus") options2)))
           = (19, 7, [Some petal; Some rays; Some band; Some rays; Some dots;
                      Some band; Some band])).
Proof.
  assert (Hsame : forall w ctx ctx' o o',
            fst (snd (render ctx w o)) = fst (snd (render ctx' w o'))).
  { intros w ctx ctx' o o'. unfold render, drawMandala. cbn [fst snd].
    apply (drawMandala_body_same (canvas_width ctx) (canvas_height ctx) w o
                                 (canvas_width ctx') (canvas_height ctx') w o'). }
  split; [ unfold render; cbn [fst]; exact eq_refl | ].
  split; [ apply (f_equal structure), Hsame | ].
  split.
  { unfold render. cbv zeta. rewrite snd_pair_eq, drawMandala_selection.
    apply drawMandala_body_kinds_defined. }
  intros calls1 calls2 small large.
  assert (Hsmall : structure (fst (snd (render small (lit "lotus") None)))
                   = (19, 7, [Some petal; Some rays; Some band; Some rays; Some dots;
                              Some band; Some band])).
  { unfold render, small, drawMandala. cbn [fst snd canvas_width canvas_height].
    rewrite computeSeed_ascii by (apply ascii_check; reflexivity).
    vm_compute. reflexivity. }
  split.
  - rewrite (Hsame _ small small options1 None). exact Hsmall.
  - rewrite (Hsame _ large small options2 None). exact Hsmall.
Qed.

End Structure.

(** ** Sizes *)

Lemma consumes_emit_bind {B} c n (k : unit -> M B) :
  (forall x, consumes n (k x)) -> consumes n (bind (emit c) k).
Proof. intros Hk. apply (consumes_bind 0 n); [ apply consumes_emit | exact Hk ]. Qed.

Lemma drawBackground_consumes w h palette :
  consumes (Z.to_nat 7200) (drawBackground w h palette).
Proof.
  unfold drawBackground.
  do 9 (apply consumes_emit_bind; intros _).
  replace (Z.to_nat 7200) with (Z.to_nat 2400 * 3 + 0)%nat by (vm_compute; reflexivity).
  apply consumes_bind; [ | intros _; apply consumes_emit ].
  apply consumes_for_loop. intros i.
  apply (consumes_bind 1 2); [ apply consumes_rng | intros ux; cbv zeta ].
  apply (consumes_bind 1 1); [ apply consumes_rng | intros uy; cbv zeta ].
  apply (consumes_bind 1 0); [ apply consumes_rng | intros ua; cbv zeta ].
  apply consumes_emit_bind. intros _. apply consumes_emit.
Qed.

Lemma state_emit c a : state (emit c a) = a.
Proof. cbv [state emit fst snd]. reflexivity. Qed.

Lemma value_rng a : value (rng a) = fst (mulberry32_call a).
Proof. cbv [value rng fst]. reflexivity. Qed.

Lemma state_rng a : state (rng a) = snd (mulberry32_call a).
Proof. cbv [state rng fst snd]. reflexivity. Qed.

Lemma draw_at_gen n a : fst (mulberry32_call (gen_after n a)) = draw_at a n.
Proof. unfold draw_at. reflexivity. Qed.

Lemma drawMandala_body_sizing_gen w h word options a n :
  (forall palette, consumes n (drawBackground w h palette)) ->
  sel_segments (value (drawMandala_body w h word options a))
  = JS.clamp (floor_draw 8 (draw_at a (4 + n + 1)) 18) 8 26
  /\ sel_layers (value (drawMandala_body w h word options a))
     = JS.clamp (floor_draw 7 (draw_at a (4 + n + 2)) 7) 7 14.
Proof.
  intros Hbg. unfold drawMandala_body.
  rewrite value_bind, makePalette_consumes.
  generalize (value (makePalette a)). intros palette.
  rewrite value_bind, Hbg, <- gen_after_add.
  generalize (value (drawBackground w h palette (gen_after 4 a))). intros _.
  rewrite value_bind, state_emit, value_bind, state_emit.
  rewrite value_bind, state_rng, value_bind, state_emit.
  rewrite value_bind, state_rng, value_rng.
  rewrite value_bind, state_rng, value_rng.
  rewrite <- !gen_after_S, !draw_at_gen.
  replace (S (4 + n)) with (4 + n + 1)%nat by lia.
  replace (S (4 + n + 1)) with (4 + n + 2)%nat by lia.
  generalize (draw_at a (4 + n + 1)) (draw_at a (4 + n + 2)).
  generalize (gen_after (S (4 + n + 2)) a).
  intros s useg ulay. cbv zeta.
  repeat (rewrite value_bind;
          match goal with
          | |- context [ state (?m ?s) ] =>
              generalize (value (m s)); generalize (state (m s)); intros ? ?
          end; cbv zeta).
  split; reflexivity.
Qed.

(** [segments] and [layers] come from the draws number 7205 and 7206
    (counting from 0): four for the palette, 7200 for the grain and one for
    the rotation precede them. *)
Lemma drawMandala_body_sizing w h word options a :
  sel_segments (value (drawMandala_body w h word options a))
  = JS.clamp (floor_draw 8 (draw_at a (Z.to_nat 7205)) 18) 8 26
  /\ sel_layers (value (drawMandala_body w h word options a))
     = JS.clamp (floor_draw 7 (draw_at a (Z.to_nat 7206)) 7) 7 14.
Proof.
  replace (Z.to_nat 7205) with (4 + Z.to_nat 7200 + 1)%nat by lia.
  replace (Z.to_nat 7206) with (4 + Z.to_nat 7200 + 2)%nat by lia.
  apply drawMandala_body_sizing_gen. intros palette.
  apply drawBackground_consumes.
Qed.

Ltac returns_step :=
  cbv zeta;
  lazymatch goal with
  | |- returns _ (bind rng _) =>
      apply (returns_bind (fun u => 0 <= u < 4294967296));
      [ apply returns_rng | intros ? ? ]
  | |- returns _ (bind _ _) =>
      apply (returns_bind (fun _ => True)); [ apply returns_any | intros ? _ ]
  | |- returns _ (ret _) => apply returns_ret
  end.

(** [centerPetals] comes from one value of the generator. *)
Lemma drawMandala_body_centerPetals w h word options :
  returns (fun sel => exists u, 0 <= u < 4294967296
                                /\ sel_centerPetals sel
                                   = JS.clamp (floor_draw 10 u 18) 10 30)
          (drawMandala_body w h word options).
Proof.
  unfold drawMandala_body. repeat returns_step.
  eexists. split; [ | cbn [sel_centerPetals]; reflexivity ]. assumption.
Qed.

Lemma draw_at_range a k : 0 <= draw_at a k < 4294967296.
Proof. unfold draw_at. apply mulberry32_call_range. Qed.

Lemma segments_formula_bounds u :
  0 <= u < 4294967296 ->
  JS.clamp (floor_draw 8 u 18) 8 26 = floor_draw 8 u 18
  /\ 8 <= floor_draw 8 u 18 <= 25.
Proof.
  intros Hu. pose proof (floor_draw_bounds 8 u 18 Hu ltac:(lia)).
  unfold JS.clamp. lia.
Qed.

Lemma layers_formula_bounds u :
  0 <= u < 4294967296 ->
  JS.clamp (floor_draw 7 u 7) 7 14 = floor_draw 7 u 7
  /\ 7 <= floor_draw 7 u 7 <= 13.
Proof.
  intros Hu. pose proof (floor_draw_bounds 7 u 7 Hu ltac:(lia)).
  unfold JS.clamp. lia.
Qed.

Lemma centerPetals_formula_bounds u :
  0 <= u < 4294967296 ->
  JS.clamp (floor_draw 10 u 18) 10 30 = floor_draw 10 u 18
  /\ 10 <= floor_draw 10 u 18 <= 27.
Proof.
  intros Hu. pose proof (floor_draw_bounds 10 u 18 Hu ltac:(lia)).
  unfold JS.clamp. lia.
Qed.

Lemma floor_draw_segments u : floor_draw 8 u 18 = Qfloor (8 + Qdraw u * 18).
Proof. reflexivity. Qed.

Lemma floor_draw_layers u : floor_draw 7 u 7 = Qfloor (7 + Qdraw u * 7).
Proof. reflexivity. Qed.

Lemma floor_draw_centerPetals u : floor_draw 10 u 18 = Qfloor (10 + Qdraw u * 18).
Proof. reflexivity. Qed.

(** C6: for every seed, [segments] lies in [8, 26], [layers] in [7, 14]
    and [centerPetals] in [10, 30]; they are the clamped floors of
    [8 + draw * 18], [7 + draw * 7] and [10 + draw * 18] for values [draw]
    of the generator in [0, 1). *)
Theorem sizes_within_clamp_ranges (ctx : Canvas) (word : jsstring) (seed : Z)
    (options : option Options) :
  let sel := fst (drawMandala ctx word seed options) in
  8 <= sel_segments sel <= 26
  /\ 7 <= sel_layers sel <= 14
  /\ 10 <= sel_centerPetals sel <= 30
  /\ sel_segments sel
     = JS.clamp (Qfloor (8 + Qdraw (draw_at seed (Z.to_nat 7205)) * 18)) 8 26
  /\ sel_layers sel
     = JS.clamp (Qfloor (7 + Qdraw (draw_at seed (Z.to_nat 7206)) * 7)) 7 14
  /\ exists u, ((0 <= Qdraw u)%Q /\ (Qdraw u < 1)%Q)
               /\ sel_centerPetals sel = JS.clamp (Qfloor (10 + Qdraw u * 18)) 10 30.
Proof.
  cbv zeta. rewrite drawMandala_selection.
  destruct (drawMandala_body_sizing (canvas_width ctx) (canvas_height ctx) word
                                    options seed) as [Hseg Hlay].
  destruct (drawMandala_body_centerPetals (canvas_width ctx) (canvas_height ctx) word
                                          options seed) as (u & Hu & Hcp).
  split; [ rewrite Hseg; apply clamp_bounds; lia | ].
  split; [ rewrite Hlay; apply clamp_bounds; lia | ].
  split; [ rewrite Hcp; apply clamp_bounds; lia | ].
  rewrite floor_draw_segments in Hseg. rewrite floor_draw_layers in Hlay.
  rewrite floor_draw_centerPetals in Hcp.
  split; [ exact Hseg | ].
  split; [ exact Hlay | ].
  exists u. split; [ apply Qdraw_unit, Hu | exact Hcp ].
Qed.

(** C9: the upper bounds of the clamps are never reached: [segments] is at
    most 25, [layers] at most 13 and [centerPetals] at most 27, because
    every value of the generator is below 1. *)
Theorem clamp_upper_bounds_not_attained (ctx : Canvas) (word : jsstring) (seed : Z)
    (options : option Options) :
  let sel := fst (drawMandala ctx word seed options) in
  (8 <= sel_segments sel <= 25
   /\ 7 <= sel_layers sel <= 13
   /\ 10 <= sel_centerPetals sel <= 27)
  /\ (forall a, let u := fst (mulberry32_call a) in
        (Qdraw u < 1)%Q
        /\ JS.clamp (Qfloor (8 + Qdraw u * 18)) 8 26 <= 25
        /\ JS.clamp (Qfloor (7 + Qdraw u * 7)) 7 14 <= 13
        /\ JS.clamp (Qfloor (10 + Qdraw u * 18)) 10 30 <= 27).
Proof.
  cbv zeta. rewrite drawMandala_selection.
  destruct (drawMandala_body_sizing (canvas_width ctx) (canvas_height ctx) word
                                    options seed) as [Hseg Hlay].
  destruct (drawMandala_body_centerPetals (canvas_width ctx) (canvas_height ctx) word
                                          options seed) as (u & Hu & Hcp).
  split.
  - rewrite Hseg, Hlay, Hcp.
    destruct (segments_formula_bounds _ (draw_at_range seed (Z.to_nat 7205))) as [-> ?].
    destruct (layers_formula_bounds _ (draw_at_range seed (Z.to_nat 7206))) as [-> ?].
    destruct (centerPetals_formula_bounds _ Hu) as [-> ?].
    repeat split; lia.
  - intros a. generalize (mulberry32_call_range a).
    generalize (fst (mulberry32_call a)). intros u' Hu'.
    split; [ apply Qdraw_unit, Hu' | ].
    pose proof (segments_formula_bounds _ Hu') as [E1 ?].
    pose proof (layers_formula_bounds _ Hu') as [E2 ?].
    pose proof (centerPetals_formula_bounds _ Hu') as [E3 ?].
    rewrite <- floor_draw_segments, <- floor_draw_layers, <- floor_draw_centerPetals.
    rewrite E1, E2, E3. repeat split; lia.
Qed.

(** ** Scopes of the drawing state *)

Lemma quiet_flat t : quiet t -> flat t.
Proof. intros H. eapply Forall_impl; [ exact H | ]. intros c [Hc _]. exact Hc. Qed.

Lemma flat_app t1 t2 : flat t1 -> flat t2 -> flat (t1 ++ t2).
Proof. intros H1 H2. apply Forall_app. split; assumption. Qed.

Lemma quiet_app t1 t2 : quiet t1 -> quiet t2 -> quiet (t1 ++ t2).
Proof. intros H1 H2. apply Forall_app. split; assumption. Qed.

Section ContextFacts.

Variable DrawState : Type.
Variable assign : Call -> DrawState -> DrawState.

Lemma ctx_run_app t1 t2 s : ctx_run assign (t1 ++ t2) s = ctx_run assign t2 (ctx_run assign t1 s).
Proof. unfold ctx_run. apply fold_left_app. Qed.

Lemma ctx_run_cons c t s : ctx_run assign (c :: t) s = ctx_run assign t (ctx_step assign s c).
Proof. reflexivity. Qed.

Lemma flat_run t : flat t -> forall d st, snd (ctx_run assign t (d, st)) = st.
Proof.
  induction 1 as [ | c t Hc _ IH ]; intros d st; [ reflexivity | ].
  rewrite ctx_run_cons.
  destruct c; try discriminate Hc; cbn [ctx_step changes_state fst snd]; apply IH.
Qed.

Lemma quiet_neutral t : quiet t -> neutral assign t.
Proof.
  induction 1 as [ | c t [Hc Hc'] _ IH ]; intros s; [ reflexivity | ].
  rewrite ctx_run_cons.
  destruct c; try discriminate Hc; try discriminate Hc'; cbn [ctx_step changes_state];
    apply IH.
Qed.

Lemma neutral_app t1 t2 :
  neutral assign t1 -> neutral assign t2 ->
  neutral assign (t1 ++ t2).
Proof. intros H1 H2 s. rewrite ctx_run_app, H1, H2. reflexivity. Qed.

Lemma closes_neutral_app n t1 t2 :
  neutral assign t1 -> closes assign n t2 ->
  closes assign n (t1 ++ t2).
Proof. intros H1 H2 d pre d0 st0 Hn. rewrite ctx_run_app, H1. apply H2, Hn. Qed.

Lemma closes_flat_app n t1 t2 :
  flat t1 -> closes assign n t2 -> closes assign n (t1 ++ t2).
Proof.
  intros H1 H2 d pre d0 st0 Hn. rewrite ctx_run_app.
  pose proof (flat_run t1 H1 d (pre ++ d0 :: st0)) as Hst.
  destruct (ctx_run assign t1 (d, pre ++ d0 :: st0)) as [d' st']. cbn [snd] in Hst. subst st'.
  apply H2, Hn.
Qed.

Lemma closes_save n t :
  closes assign (S n) t -> closes assign n (ctx_save :: t).
Proof.
  intros Ht d pre d0 st0 Hn. rewrite ctx_run_cons. cbn [ctx_step fst snd].
  apply (Ht d (d :: pre) d0 st0). cbn [length]. rewrite Hn. reflexivity.
Qed.

Lemma closes_restore_S n t :
  closes assign n t -> closes assign (S n) (ctx_restore :: t).
Proof.
  intros Ht d pre d0 st0 Hn. rewrite ctx_run_cons.
  destruct pre as [ | p pre ]; [ discriminate Hn | ].
  cbn [ctx_step snd app]. apply Ht. cbn [length] in Hn. congruence.
Qed.

Lemma closes_restore_0 t :
  neutral assign t -> closes assign 0 (ctx_restore :: t).
Proof.
  intros Ht d pre d0 st0 Hn. rewrite ctx_run_cons.
  destruct pre as [ | p pre ]; [ | discriminate Hn ].
  cbn [ctx_step snd app]. apply Ht.
Qed.

Lemma neutral_save t :
  closes assign 0 t -> neutral assign (ctx_save :: t).
Proof.
  intros Ht [d st]. rewrite ctx_run_cons. cbn [ctx_step fst snd].
  apply (Ht d [] d st). reflexivity.
Qed.

End ContextFacts.

(** *** Computations without [save] and [restore] *)

Lemma trace_emit c a : trace (emit c a) = [c].
Proof. reflexivity. Qed.

Lemma trace_ret {A} (x : A) a : trace (ret x a) = [].
Proof. reflexivity. Qed.

Lemma trace_rng a : trace (rng a) = [].
Proof. cbv [trace rng snd]. reflexivity. Qed.

Lemma quiet_ret {A} (x : A) : m_quiet (ret x).
Proof. intros a. constructor. Qed.

Lemma quiet_rng : m_quiet rng.
Proof. intros a. rewrite trace_rng. constructor. Qed.

Lemma quiet_emit c :
  is_scope_call c = false -> changes_state c = false -> m_quiet (emit c).
Proof. intros H1 H2 a. rewrite trace_emit. repeat constructor; assumption. Qed.

Lemma quiet_bind {A B} (m : M A) (k : A -> M B) :
  m_quiet m -> (forall x, m_quiet (k x)) -> m_quiet (bind m k).
Proof. intros Hm Hk a. rewrite trace_bind. apply quiet_app; [ apply Hm | apply Hk ]. Qed.

Lemma quiet_pick {A} (arr : list A) : m_quiet (pick arr).
Proof.
  unfold pick. apply quiet_bind; [ apply quiet_rng | intros u; apply quiet_ret ].
Qed.

Lemma flat_quiet {A} (m : M A) : m_quiet m -> m_flat m.
Proof. intros H a. apply quiet_flat, H. Qed.

Lemma flat_emit c : is_scope_call c = false -> m_flat (emit c).
Proof. intros H a. rewrite trace_emit. repeat constructor; assumption. Qed.

Lemma flat_bind {A B} (m : M A) (k : A -> M B) :
  m_flat m -> (forall x, m_flat (k x)) -> m_flat (bind m k).
Proof. intros Hm Hk a. rewrite trace_bind. apply flat_app; [ apply Hm | apply Hk ]. Qed.

Lemma flat_for_loop {A} (body : Z -> M A) n : forall i,
  (forall j, m_flat (body j)) -> m_flat (for_loop n i body).
Proof.
  induction n as [ | n IH ]; intros i Hbody.
  - apply flat_quiet, quiet_ret.
  - cbn [for_loop]. apply flat_bind; [ apply Hbody | intros x ].
    apply flat_bind; [ apply IH, Hbody | intros xs ]. apply flat_quiet, quiet_ret.
Qed.

Ltac flat_step :=
  cbv zeta;
  lazymatch goal with
  | |- m_flat (bind _ _) => apply flat_bind; [ | intros ? ]
  | |- m_flat (emit _) => apply flat_emit; reflexivity
  | |- m_flat rng => apply flat_quiet, quiet_rng
  | |- m_flat (ret _) => apply flat_quiet, quiet_ret
  | |- m_flat (pick _) => apply flat_quiet, quiet_pick
  | |- m_flat (for_range _ _) => apply flat_for_loop; intros ?
  end.

Lemma strokeGlow_flat c l g b : m_flat (strokeGlow c l g b).
Proof. unfold strokeGlow. repeat flat_step. Qed.

Lemma fillGlow_flat c g b : m_flat (fillGlow c g b).
Proof. unfold fillGlow. repeat flat_step. Qed.

Lemma drawPetal_flat r0 r1 w : m_flat (drawPetal r0 r1 w).
Proof. unfold drawPetal. repeat flat_step. Qed.

Lemma drawArcBand_flat r0 r1 a0 a1 : m_flat (drawArcBand r0 r1 a0 a1).
Proof. unfold drawArcBand. repeat flat_step. Qed.

Lemma drawDot_flat r s : m_flat (drawDot r s).
Proof. unfold drawDot. repeat flat_step. Qed.

Ltac flat_call :=
  cbv zeta;
  lazymatch goal with
  | |- m_flat (strokeGlow _ _ _ _) => apply strokeGlow_flat
  | |- m_flat (fillGlow _ _ _) => apply fillGlow_flat
  | |- m_flat (drawPetal _ _ _) => apply drawPetal_flat
  | |- m_flat (drawArcBand _ _ _ _) => apply drawArcBand_flat
  | |- m_flat (drawDot _ _) => apply drawDot_flat
  | |- _ => flat_step
  end.

Lemma motif_flat minDim R step palette inks r0 r1 stroke fill lw li si kind :
  m_flat (match kind with
          | Some petal => motif_petal R palette r0 r1 stroke fill lw li si
          | Some band => motif_band step palette r0 r1 stroke fill lw li
          | Some rays => motif_rays step r0 r1 stroke lw
          | Some dots => motif_dots minDim inks r0 r1 lw
          | Some triangles => motif_triangles R palette r0 r1 stroke fill lw li
          | None => ret tt
          end).
Proof.
  destruct kind as [ [ | | | | ] | ];
    unfold motif_petal, motif_band, motif_rays, motif_dots, motif_triangles;
    repeat flat_call.
Qed.

(** *** Scopes in computations *)

Section Scopes.

Variable DrawState : Type.
Variable assign : Call -> DrawState -> DrawState.

Lemma neutral_quiet {A} (m : M A) : m_quiet m -> m_neutral assign m.
Proof. intros H a. apply quiet_neutral, H. Qed.

Lemma neutral_bind {A B} (m : M A) (k : A -> M B) :
  m_neutral assign m -> (forall x, m_neutral assign (k x)) ->
  m_neutral assign (bind m k).
Proof.
  intros Hm Hk a. rewrite trace_bind. apply neutral_app; [ apply Hm | apply Hk ].
Qed.

Lemma neutral_for_loop {A} (body : Z -> M A) n : forall i,
  (forall j, m_neutral assign (body j)) -> m_neutral assign (for_loop n i body).
Proof.
  induction n as [ | n IH ]; intros i Hbody.
  - apply neutral_quiet, quiet_ret.
  - cbn [for_loop]. apply neutral_bind; [ apply Hbody | intros x ].
    apply neutral_bind; [ apply IH, Hbody | intros xs ].
    apply neutral_quiet, quiet_ret.
Qed.

Lemma neutral_bind_save {B} (k : unit -> M B) :
  (forall x, m_closes assign 0 (k x)) -> m_neutral assign (bind (emit ctx_save) k).
Proof.
  intros Hk a. rewrite trace_bind, trace_emit. apply neutral_save, Hk.
Qed.

Lemma closes_bind_flat {A B} n (m : M A) (k : A -> M B) :
  m_flat m -> (forall x, m_closes assign n (k x)) -> m_closes assign n (bind m k).
Proof.
  intros Hm Hk a. rewrite trace_bind. apply closes_flat_app; [ apply Hm | apply Hk ].
Qed.

Lemma closes_bind_neutral {A B} n (m : M A) (k : A -> M B) :
  m_neutral assign m -> (forall x, m_closes assign n (k x)) ->
  m_closes assign n (bind m k).
Proof.
  intros Hm Hk a. rewrite trace_bind. apply closes_neutral_app; [ apply Hm | apply Hk ].
Qed.

Lemma closes_bind_save {B} n (k : unit -> M B) :
  (forall x, m_closes assign (S n) (k x)) -> m_closes assign n (bind (emit ctx_save) k).
Proof. intros Hk a. rewrite trace_bind, trace_emit. apply closes_save, Hk. Qed.

Lemma closes_bind_restore_S {B} n (k : unit -> M B) :
  (forall x, m_closes assign n (k x)) ->
  m_closes assign (S n) (bind (emit ctx_restore) k).
Proof. intros Hk a. rewrite trace_bind, trace_emit. apply closes_restore_S, Hk. Qed.

Lemma closes_bind_restore_0 {B} (k : unit -> M B) :
  (forall x, m_neutral assign (k x)) ->
  m_closes assign 0 (bind (emit ctx_restore) k).
Proof. intros Hk a. rewrite trace_bind, trace_emit. apply closes_restore_0, Hk. Qed.

Lemma closes_restore_end : m_closes assign 0 (emit ctx_restore).
Proof.
  intros a. rewrite trace_emit. apply closes_restore_0. intros s. reflexivity.
Qed.

Lemma assigns_bind_quiet {A B} c (m : M A) (k : A -> M B) :
  m_quiet m -> (forall x, m_assigns assign c (k x)) -> m_assigns assign c (bind m k).
Proof.
  intros Hm Hk a d st. rewrite trace_bind, ctx_run_app.
  rewrite (quiet_neutral _ _ _ (Hm a)). apply Hk.
Qed.

Lemma assigns_bind_emit {B} c (k : unit -> M B) :
  is_scope_call c = false -> changes_state c = true ->
  (forall x, m_neutral assign (k x)) -> m_assigns assign c (bind (emit c) k).
Proof.
  intros H1 H2 Hk a d st. rewrite trace_bind, trace_emit, ctx_run_app.
  rewrite Hk. destruct c; try discriminate H1; try discriminate H2; reflexivity.
Qed.

Lemma assigns_bind_neutral {A B} c (m : M A) (k : A -> M B) :
  m_assigns assign c m -> (forall x, m_neutral assign (k x)) ->
  m_assigns assign c (bind m k).
Proof.
  intros Hm Hk a d st. rewrite trace_bind, ctx_run_app, Hm. apply Hk.
Qed.

Ltac scope_step :=
  cbv zeta;
  lazymatch goal with
  | |- m_closes _ _ (bind (emit ctx_save) _) => apply closes_bind_save; intros _
  | |- m_closes _ (S _) (bind (emit ctx_restore) _) =>
      apply closes_bind_restore_S; intros _
  | |- m_closes _ 0 (bind (emit ctx_restore) _) =>
      apply closes_bind_restore_0; intros _
  | |- m_closes _ 0 (emit ctx_restore) => apply closes_restore_end
  | |- m_closes _ _ (bind _ _) =>
      apply closes_bind_flat; [ solve [ repeat flat_call ] | intros ? ]
  | |- m_neutral _ (bind (emit ctx_save) _) => apply neutral_bind_save; intros _
  | |- m_neutral _ (bind _ _) =>
      apply neutral_bind; [ apply neutral_quiet | intros ? ]
  | |- m_neutral _ (ret _) => apply neutral_quiet, quiet_ret
  | |- m_quiet rng => apply quiet_rng
  | |- m_quiet (pick _) => apply quiet_pick
  | |- m_quiet (ret _) => apply quiet_ret
  | |- m_quiet (emit _) => apply quiet_emit; reflexivity
  | |- m_quiet (bind _ _) => apply quiet_bind; [ | intros ? ]
  end.

Lemma segment_neutral minDim R step palette inks r0 r1 stroke fill lw li si kind :
  m_neutral assign
    (segment minDim R step palette inks r0 r1 stroke fill lw li si kind).
Proof.
  unfold segment. scope_step. scope_step.
  apply closes_bind_flat; [ apply motif_flat | intros _ ].
  scope_step.
Qed.

Lemma layer_neutral minDim R step palette inks segments layers li :
  m_neutral assign (layer minDim R step palette inks segments layers li).
Proof.
  unfold layer. do 5 (scope_step; [ scope_step | ]).
  apply neutral_bind; [ | intros _; scope_step ].
  apply neutral_for_loop. intros si. apply segment_neutral.
Qed.

Lemma rosette_petal_neutral minDim R cStep palette i :
  m_neutral assign (rosette_petal minDim R cStep palette i).
Proof. unfold rosette_petal. repeat scope_step. Qed.

Lemma draw_signature_neutral w h word : m_neutral assign (draw_signature w h word).
Proof. unfold draw_signature. repeat scope_step. Qed.

Lemma drawBackground_assigns w h palette :
  m_assigns assign (ctx_fillStyle (Some gradient)) (drawBackground w h palette).
Proof.
  unfold drawBackground.
  do 5 (apply assigns_bind_quiet; [ apply quiet_emit; reflexivity | intros _ ]).
  apply assigns_bind_emit; [ reflexivity | reflexivity | intros _ ].
  apply neutral_bind; [ apply neutral_quiet, quiet_emit; reflexivity | intros _ ].
  repeat scope_step.
Qed.

(** A render leaves the drawing state and the stack of the context as it
    found them, but for the assignment of the gradient to [fillStyle]. *)
Lemma drawMandala_body_assigns w h word options :
  m_assigns assign (ctx_fillStyle (Some gradient)) (drawMandala_body w h word options).
Proof.
  unfold drawMandala_body.
  apply assigns_bind_quiet; [ unfold makePalette; repeat scope_step | intros palette ].
  apply assigns_bind_neutral; [ apply drawBackground_assigns | intros _ ].
  do 12 scope_step.
  apply closes_bind_neutral;
    [ apply neutral_for_loop; intros li; apply layer_neutral | intros kinds ].
  do 2 scope_step.
  apply closes_bind_neutral;
    [ apply neutral_for_loop; intros i; apply rosette_petal_neutral | intros _ ].
  do 9 scope_step.
  apply neutral_bind; [ | intros _; scope_step ].
  destruct options as [ [ [ | ] ] | ]; cbn [signature].
  - apply draw_signature_neutral.
  - scope_step.
  - scope_step.
Qed.

End Scopes.

(** ** Calls a computation never makes *)

Lemma never_ret {A} P (x : A) : m_never P (ret x).
Proof. intros a. constructor. Qed.

Lemma never_rng P : m_never P rng.
Proof. intros a. rewrite trace_rng. constructor. Qed.

Lemma never_emit P c : P c = false -> m_never P (emit c).
Proof. intros H a. rewrite trace_emit. repeat constructor. exact H. Qed.

Lemma never_bind {A B} P (m : M A) (k : A -> M B) :
  m_never P m -> (forall x, m_never P (k x)) -> m_never P (bind m k).
Proof.
  intros Hm Hk a. rewrite trace_bind. apply Forall_app. split; [ apply Hm | apply Hk ].
Qed.

Lemma never_for_loop {A} P (body : Z -> M A) n : forall i,
  (forall j, m_never P (body j)) -> m_never P (for_loop n i body).
Proof.
  induction n as [ | n IH ]; intros i Hbody.
  - apply never_ret.
  - cbn [for_loop]. apply never_bind; [ apply Hbody | intros x ].
    apply never_bind; [ apply IH, Hbody | intros xs; apply never_ret ].
Qed.

Ltac never_step :=
  cbv zeta;
  lazymatch goal with
  | |- m_never _ (bind _ _) => apply never_bind; [ | intros ? ]
  | |- m_never _ (emit _) => apply never_emit; reflexivity
  | |- m_never _ rng => apply never_rng
  | |- m_never _ (ret _) => apply never_ret
  | |- m_never _ (pick _) => unfold pick
  | |- m_never _ (for_range _ _) => apply never_for_loop; intros ?
  | |- m_never _ (match ?kind with _ => _ end) => destruct kind
  end.

Lemma never_at {A} P (m : M A) a :
  m_never P m -> Forall (fun c => P c = false) (trace (m a)).
Proof. intros Hm. apply Hm. Qed.

(** ** Hosts *)

Lemma host_run_cons {DrawState Surface} (assign : Call -> DrawState -> DrawState)
    (paint : DrawState -> Call -> Surface -> Surface) c t x :
  host_run assign paint (c :: t) x = host_run assign paint t (host_step assign paint x c).
Proof. reflexivity. Qed.

Lemma host_run_app {DrawState Surface} (assign : Call -> DrawState -> DrawState)
    (paint : DrawState -> Call -> Surface -> Surface) t1 t2 x :
  host_run assign paint (t1 ++ t2) x
  = host_run assign paint t2 (host_run assign paint t1 x).
Proof. apply fold_left_app. Qed.

(** The surface has no part in the drawing state and the stack. *)
Lemma host_run_state {DrawState Surface} (assign : Call -> DrawState -> DrawState)
    (paint : DrawState -> Call -> Surface -> Surface) t : forall x,
  fst (host_run assign paint t x) = ctx_run assign t (fst x).
Proof.
  induction t as [ | c t IH ]; intros x; [ reflexivity | ].
  rewrite host_run_cons, IH. reflexivity.
Qed.

Lemma ctx_step_plain {DrawState} (assign : Call -> DrawState -> DrawState) c d st :
  is_scope_call c = false ->
  ctx_step assign (d, st) c = (if changes_state c then assign c d else d, st).
Proof. destruct c; intros Hc; try discriminate Hc; reflexivity. Qed.

Lemma depth_plain c t n : is_scope_call c = false -> depth (c :: t) n = depth t n.
Proof. destruct c; intros Hc; try discriminate Hc; reflexivity. Qed.

(** Calls that pop no saved state but their own do the same to the drawing
    state and to the surface whatever lies deeper in the stack. *)
Lemma host_run_frame {DrawState Surface} (assign : Call -> DrawState -> DrawState)
    (paint : DrawState -> Call -> Surface -> Surface) t :
  forall d pre s k,
    depth t (length pre) = Some k ->
    exists d' pre' s',
      length pre' = k
      /\ forall base,
           host_run assign paint t (d, pre ++ base, s) = (d', pre' ++ base, s').
Proof.
  induction t as [ | c t IH ]; intros d pre s k Hk.
  - injection Hk as <-. exists d, pre, s. split; reflexivity.
  - destruct (is_scope_call c) eqn:Hc.
    + destruct c; try discriminate Hc.
      * cbn [depth] in Hk.
        destruct (IH d (d :: pre) (paint d ctx_save s) k Hk) as (d' & pre' & s' & Hl & Hr).
        exists d', pre', s'. split; [ exact Hl | ].
        intros base. rewrite host_run_cons. apply (Hr base).
      * destruct pre as [ | p pre ]; [ discriminate Hk | ].
        cbn [depth length] in Hk.
        destruct (IH p pre (paint d ctx_restore s) k Hk) as (d' & pre' & s' & Hl & Hr).
        exists d', pre', s'. split; [ exact Hl | ].
        intros base. rewrite host_run_cons. apply (Hr base).
    + rewrite depth_plain in Hk by exact Hc.
      destruct (IH (if changes_state c then assign c d else d) pre (paint d c s) k Hk)
        as (d' & pre' & s' & Hl & Hr).
      exists d', pre', s'. split; [ exact Hl | ].
      intros base. rewrite host_run_cons. unfold host_step. cbn [fst snd].
      rewrite ctx_step_plain by exact Hc. apply (Hr base).
Qed.

(** On a host without drawing state the stack is a counter: once the
    calls have popped a state that is not theirs, one more state below
    makes no difference. *)
Lemma depth_None_merges t : forall n,
  depth t n = None ->
  ctx_run (fun _ (u : unit) => u) t (tt, repeat tt n)
  = ctx_run (fun _ (u : unit) => u) t (tt, repeat tt (S n)).
Proof.
  induction t as [ | c t IH ]; intros n Hn; [ discriminate Hn | ].
  rewrite !ctx_run_cons.
  destruct (is_scope_call c) eqn:Hc.
  - destruct c; try discriminate Hc.
    + cbn [depth] in Hn. apply (IH (S n) Hn).
    + destruct n as [ | n ]; [ reflexivity | ].
      cbn [depth] in Hn. apply (IH n Hn).
  - rewrite depth_plain in Hn by exact Hc.
    rewrite !ctx_step_plain by exact Hc.
    destruct (changes_state c); apply (IH n Hn).
Qed.

Lemma depth_Some_stack t : forall n k,
  depth t n = Some k ->
  snd (ctx_run (fun _ (u : unit) => u) t (tt, repeat tt n)) = repeat tt k.
Proof.
  induction t as [ | c t IH ]; intros n k Hk; [ injection Hk as <-; reflexivity | ].
  rewrite ctx_run_cons.
  destruct (is_scope_call c) eqn:Hc.
  - destruct c; try discriminate Hc.
    + cbn [depth] in Hk. apply (IH (S n) k Hk).
    + destruct n as [ | n ]; [ discriminate Hk | ].
      cbn [depth] in Hk. apply (IH n k Hk).
  - rewrite depth_plain in Hk by exact Hc.
    rewrite ctx_step_plain by exact Hc.
    destruct (changes_state c); apply (IH n k Hk).
Qed.

(** Calls that leave every stack as they found it pop no state but their
    own. *)
Lemma depth_of_neutral_stack t :
  (forall st, snd (ctx_run (fun _ (u : unit) => u) t (tt, st)) = st) ->
  depth t 0 = Some 0%nat.
Proof.
  intros Ht. destruct (depth t 0) as [ k | ] eqn:Hd.
  - apply depth_Some_stack in Hd. rewrite (Ht (repeat tt 0)) in Hd.
    destruct k; [ reflexivity | discriminate Hd ].
  - apply depth_None_merges in Hd. apply (f_equal snd) in Hd.
    rewrite (Ht (repeat tt 0)), (Ht (repeat tt 1)) in Hd. discriminate Hd.
Qed.

Lemma drawMandala_body_depth w h word options a :
  depth (trace (drawMandala_body w h word options a)) 0 = Some 0%nat.
Proof.
  apply depth_of_neutral_stack. intros st.
  rewrite (drawMandala_body_assigns unit (fun _ u => u)). reflexivity.
Qed.

(** *** How a render opens *)

Lemma makePalette_trace a : trace (makePalette a) = [].
Proof.
  unfold makePalette. rewrite !trace_bind, !trace_rng, trace_ret. reflexivity.
Qed.

Lemma drawBackground_opening w h palette a :
  exists c2 c3 c4 c5 t',
    trace (drawBackground w h palette a)
    = ctx_clearRect 0 0 w h :: c2 :: c3 :: c4 :: c5
      :: ctx_fillStyle (Some gradient) :: ctx_fillRect 0 0 w h :: t'
    /\ Forall (fun c => gradient_call c = true) [c2; c3; c4; c5]
    /\ Forall (fun c => is_clear c = false) t'.
Proof.
  unfold drawBackground.
  do 7 (rewrite trace_bind, trace_emit; cbv beta; cbn [app]).
  do 5 eexists. split; [ reflexivity | ]. split.
  - repeat constructor.
  - apply never_at. repeat never_step.
Qed.

Lemma drawMandala_body_opening w h word options a :
  exists c2 c3 c4 c5 t',
    trace (drawMandala_body w h word options a)
    = ctx_clearRect 0 0 w h :: c2 :: c3 :: c4 :: c5
      :: ctx_fillStyle (Some gradient) :: ctx_fillRect 0 0 w h :: t'
    /\ Forall (fun c => gradient_call c = true) [c2; c3; c4; c5]
    /\ Forall (fun c => is_clear c = false) t'.
Proof.
  unfold drawMandala_body. rewrite trace_bind, makePalette_trace. cbv beta.
  rewrite trace_bind.
  match goal with
  | |- context [ trace (drawBackground ?w ?h ?p ?a) ] =>
      destruct (drawBackground_opening w h p a)
        as (c2 & c3 & c4 & c5 & tb & -> & Hg & Hnc)
  end.
  cbn [app]. exists c2, c3, c4, c5. eexists. split; [ reflexivity | ].
  split; [ exact Hg | ].
  apply Forall_app. split; [ exact Hnc | ].
  apply never_at.
  unfold layer, segment, rosette_petal, motif_petal, motif_band, motif_rays,
    motif_dots, motif_triangles, strokeGlow, fillGlow, drawPetal, drawArcBand,
    drawDot, draw_signature.
  repeat never_step.
Qed.

(** *** The calls before the background is filled *)

Lemma gradient_call_plain c :
  gradient_call c = true ->
  is_scope_call c = false /\ changes_state c = false /\ before_fill c = true.
Proof. destruct c; intros Hc; try discriminate Hc; repeat split. Qed.

Lemma host_step_quiet {DrawState Surface} (assign : Call -> DrawState -> DrawState)
    (paint : DrawState -> Call -> Surface -> Surface) c d st s :
  is_scope_call c = false -> changes_state c = false ->
  host_step assign paint (d, st, s) c = (d, st, paint d c s).
Proof.
  intros Hs Hc. unfold host_step. cbn [fst snd].
  rewrite ctx_step_plain by exact Hs. rewrite Hc. reflexivity.
Qed.

Lemma host_step_fillStyle {DrawState Surface} (assign : Call -> DrawState -> DrawState)
    (paint : DrawState -> Call -> Surface -> Surface) x d st s :
  host_step assign paint (d, st, s) (ctx_fillStyle x)
  = (assign (ctx_fillStyle x) d, st, paint d (ctx_fillStyle x) s).
Proof. reflexivity. Qed.

(** The calls that build the gradient leave the drawing state alone, and
    do the same to a surface in two drawing states in which the calls made
    before the fill do the same. *)
Lemma host_run_gradient {DrawState Surface} (assign : Call -> DrawState -> DrawState)
    (paint : DrawState -> Call -> Surface -> Surface) d1 d2 st1 st2 p :
  (forall c s, before_fill c = true -> paint d1 c s = paint d2 c s) ->
  Forall (fun c => gradient_call c = true) p ->
  forall u, exists u',
    host_run assign paint p (d1, st1, u) = (d1, st1, u')
    /\ host_run assign paint p (d2, st2, u) = (d2, st2, u').
Proof.
  intros Hopen Hp. induction Hp as [ | c p Hc _ IH ]; intros u.
  - exists u. split; reflexivity.
  - destruct (gradient_call_plain c Hc) as (Hs & Hq & Hb).
    rewrite !host_run_cons, !host_step_quiet by assumption.
    rewrite <- (Hopen c u Hb). apply IH.
Qed.

(** The recording host keeps what it has recorded as long as the surface
    is not cleared. *)
Lemma record_run_keeps t : forall x s,
  Forall (fun c => is_clear c = false) t ->
  snd (host_run pen_assign record_paint t (x, s))
  = s ++ snd (host_run pen_assign record_paint t (x, [])).
Proof.
  induction t as [ | c t IH ]; intros x s Ht.
  - cbn [host_run fold_left snd]. rewrite app_nil_r. reflexivity.
  - apply Forall_cons in Ht. destruct Ht as [Hc Ht].
    rewrite !host_run_cons. unfold host_step. cbn [fst snd].
    assert (Hp : forall s0, record_paint (fst x) c s0
                            = s0 ++ [(c, if paints c then Some (fst x) else None)]).
    { intros s0. destruct c; try discriminate Hc; reflexivity. }
    rewrite !Hp. rewrite (IH _ (s ++ _)), (IH _ ([] ++ _)) by exact Ht.
    rewrite <- !app_assoc. reflexivity.
Qed.

(** ** Determinism of a render *)

Section Determinism.

Context `{CaseMapping}.

Lemma render_seed ctx word options : fst (render ctx word options) = computeSeed word.
Proof. unfold render. cbv zeta. apply fst_pair_eq. Qed.

Lemma render_calls ctx word options :
  calls (snd (snd (render ctx word options)))
  = calls ctx
    ++ trace (drawMandala_body (canvas_width ctx) (canvas_height ctx) word options
                               (computeSeed word)).
Proof.
  unfold render. cbv zeta. rewrite snd_pair_eq. apply drawMandala_calls.
Qed.

Lemma render_size ctx word options :
  canvas_width (snd (snd (render ctx word options))) = canvas_width ctx
  /\ canvas_height (snd (snd (render ctx word options))) = canvas_height ctx.
Proof.
  unfold render. cbv zeta. rewrite snd_pair_eq.
  unfold drawMandala. cbv zeta. rewrite snd_pair_eq. split; reflexivity.
Qed.

(** The picture of a render: it depends on the drawing state at entry
    only through the calls made before the background is filled and
    through what the state is once [fillStyle] is assigned; the stack and
    what the surface held have no part in it. *)
Lemma drawMandala_body_picture {DrawState Surface}
    (assign : Call -> DrawState -> DrawState)
    (paint : DrawState -> Call -> Surface -> Surface)
    (w h : Z) word options a d1 d2 st1 st2 s1 s2 :
  (forall c s, before_fill c = true -> paint d1 c s = paint d2 c s) ->
  assign (ctx_fillStyle (Some gradient)) d1 = assign (ctx_fillStyle (Some gradient)) d2 ->
  paint d1 (ctx_clearRect 0 0 w h) s1 = paint d1 (ctx_clearRect 0 0 w h) s2 ->
  snd (host_run assign paint (trace (drawMandala_body w h word options a)) (d1, st1, s1))
  = snd (host_run assign paint (trace (drawMandala_body w h word options a)) (d2, st2, s2)).
Proof.
  intros Hopen Hfill Hclear.
  pose proof (drawMandala_body_depth w h word options a) as Hd.
  destruct (drawMandala_body_opening w h word options a)
    as (c2 & c3 & c4 & c5 & t' & E & Hg & _).
  rewrite E in Hd |- *.
  rewrite !(host_run_cons _ _ (ctx_clearRect 0 0 w h)).
  rewrite !host_step_quiet by reflexivity.
  rewrite <- (Hopen (ctx_clearRect 0 0 w h) s2 eq_refl), <- Hclear.
  change (c2 :: c3 :: c4 :: c5 :: ctx_fillStyle (Some gradient) :: ctx_fillRect 0 0 w h :: t')
    with ([c2; c3; c4; c5] ++ ctx_fillStyle (Some gradient) :: ctx_fillRect 0 0 w h :: t').
  rewrite !host_run_app.
  destruct (host_run_gradient assign paint d1 d2 st1 st2 _ Hopen Hg
              (paint d1 (ctx_clearRect 0 0 w h) s1)) as (u & -> & ->).
  rewrite !(host_run_cons _ _ (ctx_fillStyle (Some gradient))).
  rewrite !host_step_fillStyle.
  rewrite <- (Hopen (ctx_fillStyle (Some gradient)) u eq_refl), <- Hfill.
  assert (Hrest : depth (ctx_fillRect 0 0 w h :: t') (length (@nil DrawState)) = Some 0%nat).
  { inversion Hg as [ | ? ? H2 Hg3 ]; subst.
    inversion Hg3 as [ | ? ? H3 Hg4 ]; subst.
    inversion Hg4 as [ | ? ? H4 Hg5 ]; subst.
    inversion Hg5 as [ | ? ? H5 _ ]; subst.
    rewrite (depth_plain (ctx_clearRect 0 0 w h)) in Hd by reflexivity.
    rewrite (depth_plain c2) in Hd by apply (gradient_call_plain c2 H2).
    rewrite (depth_plain c3) in Hd by apply (gradient_call_plain c3 H3).
    rewrite (depth_plain c4) in Hd by apply (gradient_call_plain c4 H4).
    rewrite (depth_plain c5) in Hd by apply (gradient_call_plain c5 H5).
    rewrite (depth_plain (ctx_fillStyle (Some gradient))) in Hd by reflexivity.
    exact Hd. }
  destruct (host_run_frame assign paint _ (assign (ctx_fillStyle (Some gradient)) d1) []
              (paint d1 (ctx_fillStyle (Some gradient)) u) _ Hrest)
    as (d' & pre' & s' & _ & Hr).
  cbn [app] in Hr. rewrite (Hr st1), (Hr st2). reflexivity.
Qed.


End Determinism.



(** * More of [app.js] *)


(** ** More on [sanitizeWord] *)

Lemma trimStart_nil_iff s : trimStart s = [] <-> Forall (fun c => is_space c = true) s.
Proof.
  induction s as [ | c s IH ]; cbn [trimStart].
  - split; [ constructor | reflexivity ].
  - destruct (is_space c) eqn:Hc.
    + rewrite IH. split; [ intros H; constructor; assumption | ].
      intros H. apply Forall_inv_tail in H. exact H.
    + split; [ discriminate | ].
      intros H. apply Forall_inv in H. congruence.
Qed.

Lemma token_nil_iff s :
  token s = [] <-> s = [] \/ exists c s', s = c :: s' /\ is_space c = true.
Proof.
  destruct s as [ | c s ]; cbn [token].
  - split; [ left; reflexivity | reflexivity ].
  - destruct (is_space c) eqn:Hc.
    + split; [ right; exists c, s; split; [ reflexivity | exact Hc ] | reflexivity ].
    + split; [ discriminate | ].
      intros [ H | (d & s' & H & Hd) ]; [ discriminate H | ].
      injection H as -> ->. congruence.
Qed.

Lemma trimStart_head s c s' : trimStart s = c :: s' -> is_space c = false.
Proof.
  induction s as [ | d s IH ]; cbn [trimStart]; [ discriminate | ].
  destruct (is_space d) eqn:Hd; [ exact IH | ].
  intros H. injection H as -> ->. exact Hd.
Qed.

Lemma token_prefix s :
  exists rest, s = token s ++ rest
               /\ (rest = [] \/ exists c r, rest = c :: r /\ is_space c = true).
Proof.
  induction s as [ | c s (rest & IH & Hrest) ]; cbn [token].
  - exists []. split; [ reflexivity | left; reflexivity ].
  - destruct (is_space c) eqn:Hc.
    + exists (c :: s). split; [ reflexivity | right; exists c, s; split; [ reflexivity | exact Hc ] ].
    + exists rest. split; [ cbn [app]; f_equal; exact IH | exact Hrest ].
Qed.

Lemma sanitizeWord_nil_iff (raw : jsstring) :
  sanitizeWord raw = [] <-> Forall (fun c => is_space c = true) raw.
Proof.
  rewrite sanitizeWord_first_token. unfold first_token.
  rewrite <- trimStart_nil_iff.
  destruct (trimStart raw) as [ | c s ] eqn:Ht.
  - split; reflexivity.
  - pose proof (trimStart_head _ _ _ Ht) as Hc.
    cbn [token]. rewrite Hc. cbn [firstn].
    split; discriminate.
Qed.

(** X1: [sanitizeWord] returns the empty string exactly for the inputs made
    of white space only (the empty input among them). *)
Theorem sanitizeWord_empty_iff (raw : jsstring) :
  sanitizeWord raw = [] <-> Forall (fun c => is_space c = true) raw.
Proof. apply sanitizeWord_nil_iff. Qed.

(** X2: the sanitized word is a piece of the input: the input is white
    space, then the sanitized word, then a rest; the word ends where the
    input ends, before a white space, or after 32 code units. *)
Theorem sanitizeWord_substring (raw : jsstring) :
  exists ws rest,
    raw = ws ++ sanitizeWord raw ++ rest
    /\ Forall (fun c => is_space c = true) ws
    /\ (rest = []
        \/ (exists c r, rest = c :: r /\ is_space c = true)
        \/ length (sanitizeWord raw) = 32%nat).
Proof.
  destruct (trimStart_decomp raw) as (ws & Hraw & Hws).
  destruct (token_prefix (trimStart raw)) as (rest & Htok & Hrest).
  exists ws, (skipn 32 (first_token raw) ++ rest).
  split; [ | split; [ exact Hws | ] ].
  - rewrite sanitizeWord_first_token.
    rewrite (app_assoc (firstn 32 (first_token raw))), firstn_skipn.
    unfold first_token. rewrite <- Htok. exact Hraw.
  - rewrite sanitizeWord_first_token.
    destruct (Nat.le_gt_cases (length (first_token raw)) 32) as [ Hle | Hgt ].
    + rewrite skipn_all2 by exact Hle. cbn [app].
      destruct Hrest as [ H | H ]; [ left; exact H | right; left; exact H ].
    + right. right. rewrite length_firstn. lia.
Qed.

(** ** The name of the downloaded file *)

Lemma replace_runs_name_chars s : forall b,
  Forall (fun c => is_name_char c = true) (replace_runs b s).
Proof.
  induction s as [ | c s IH ]; intros b; cbn [replace_runs]; [ constructor | ].
  destruct (is_name_char c) eqn:Hc.
  - constructor; [ exact Hc | apply IH ].
  - destruct b; [ apply IH | constructor; [ reflexivity | apply IH ] ].
Qed.

Lemma replace_runs_id s : forall b,
  Forall (fun c => is_name_char c = true) s -> replace_runs b s = s.
Proof.
  induction s as [ | c s IH ]; intros b Hs; [ reflexivity | ].
  cbn [replace_runs]. rewrite (Forall_inv Hs). f_equal.
  apply IH. apply (Forall_inv_tail Hs).
Qed.

Lemma replace_runs_length s : forall b,
  (length (replace_runs b s) <= length s)%nat.
Proof.
  induction s as [ | c s IH ]; intros b; cbn [replace_runs length]; [ lia | ].
  destruct (is_name_char c).
  - cbn [length]. specialize (IH false). lia.
  - destruct b; [ specialize (IH true); lia | ].
    cbn [length]. specialize (IH true). lia.
Qed.

Lemma safeName_nonempty word : word <> [] -> safeName word <> [].
Proof.
  unfold safeName. destruct word as [ | c s ]; [ contradiction | intros _ ].
  cbn [replace_runs]. destruct (is_name_char c); discriminate.
Qed.

(** X3: the name made for the download holds only letters, digits, [_] and
    [-]; it is no longer than the word; a word of such characters is kept
    as it is, so that making the name twice changes nothing. *)
Theorem safeName_safe (word : jsstring) :
  Forall (fun c => is_name_char c = true) (safeName word)
  /\ (length (safeName word) <= length word)%nat
  /\ safeName (safeName word) = safeName word
  /\ (Forall (fun c => is_name_char c = true) word -> safeName word = word).
Proof.
  split; [ apply replace_runs_name_chars | ].
  split; [ apply replace_runs_length | ].
  split; [ apply replace_runs_id, replace_runs_name_chars | ].
  apply replace_runs_id.
Qed.

Lemma safeName_safe_witness :
  Forall (fun c => is_name_char c = true) (lit "lotus_7")
  /\ safeName (lit "lotus_7") = lit "lotus_7".
Proof.
  assert (H : Forall (fun c => is_name_char c = true) (lit "lotus_7")).
  { repeat constructor. }
  split; [ exact H | ].
  apply (proj2 (proj2 (proj2 (safeName_safe (lit "lotus_7"))))), H.
Defined.

(** X4: there is a download exactly when the input holds something other
    than white space; its file name is [mandala-], the safe name of the
    sanitized word and [.png]: the fallback name is never used. *)
Theorem download_name_spec (value : jsstring) :
  (download_name value = None <-> Forall (fun c => is_space c = true) value)
  /\ (forall name, download_name value = Some name ->
        name = lit "mandala-" ++ safeName (sanitizeWord value) ++ lit ".png"
        /\ safeName (sanitizeWord value) <> []).
Proof.
  unfold download_name. rewrite <- sanitizeWord_nil_iff.
  destruct (sanitizeWord value) as [ | c s ] eqn:Hw.
  - split; [ split; reflexivity | discriminate ].
  - split; [ split; discriminate | ].
    intros name Hname. cbv zeta in Hname.
    assert (Hne : safeName (c :: s) <> []) by (apply safeName_nonempty; discriminate).
    destruct (safeName (c :: s)) as [ | d n ]; [ contradiction | ].
    injection Hname as <-. split; [ reflexivity | discriminate ].
Qed.


(** ** The state of the generator *)

Lemma round_to_double_small z : Z.abs z < 2 ^ 53 -> JS.round_to_double z = z.
Proof.
  intros Hz. unfold JS.round_to_double.
  destruct (Z.ltb_spec (Z.abs z) (2 ^ 53)); [ reflexivity | lia ].
Qed.

Lemma add_exact x y : Z.abs (x + y) < 2 ^ 53 -> JS.add x y = x + y.
Proof. intros H. unfold JS.add. apply round_to_double_small, H. Qed.

Lemma mulberry32_call_out a :
  mulberry32_call a = (mulberry32_out (JS.add a 1831565813), JS.add a 1831565813).
Proof. cbv beta zeta delta [mulberry32_call mulberry32_out]. reflexivity. Qed.

Lemma ToUint32_mod t : JS.ToUint32 (t mod 4294967296) = JS.ToUint32 t.
Proof. unfold JS.ToUint32. apply Z.mod_mod. lia. Qed.

Lemma ToInt32_mod t : JS.ToInt32 (t mod 4294967296) = JS.ToInt32 t.
Proof. unfold JS.ToInt32. rewrite Z.mod_mod by lia. reflexivity. Qed.

Lemma mulberry32_out_mod t : mulberry32_out (t mod 4294967296) = mulberry32_out t.
Proof.
  unfold mulberry32_out.
  assert (H1 : JS.xor (t mod 4294967296) (JS.ushr (t mod 4294967296) 15)
               = JS.xor t (JS.ushr t 15)).
  { unfold JS.xor, JS.ushr. rewrite ToInt32_mod, ToUint32_mod. reflexivity. }
  assert (H2 : JS.or (t mod 4294967296) 1 = JS.or t 1).
  { unfold JS.or. rewrite ToInt32_mod. reflexivity. }
  rewrite H1, H2. reflexivity.
Qed.

Lemma gen_after_exact n : forall a,
  0 <= a -> a + Z.of_nat n * 1831565813 < 2 ^ 53 ->
  gen_after n a = a + Z.of_nat n * 1831565813.
Proof.
  induction n as [ | n IH ]; intros a Ha Hn; cbn [gen_after].
  - lia.
  - rewrite mulberry32_call_out. cbn [snd].
    rewrite add_exact by lia. rewrite IH by lia. lia.
Qed.

(** X5: while [a] stays below [2^53] its additions are exact, and a call
    returns a function of the low 32 bits of [a]: the draw number [k] of a
    seed is computed from [(seed + (k + 1) * 0x6d2b79f5) mod 2^32], and two
    seeds with the same low 32 bits give the same draws. *)
Theorem draws_of_low_32_bits (seed seed' : Z) (k : nat) :
  0 <= seed -> seed + (Z.of_nat k + 1) * 1831565813 < 2 ^ 53 ->
  gen_after (S k) seed = seed + (Z.of_nat k + 1) * 1831565813
  /\ draw_at seed k
     = mulberry32_out ((seed + (Z.of_nat k + 1) * 1831565813) mod 4294967296)
  /\ (0 <= seed' -> seed' + (Z.of_nat k + 1) * 1831565813 < 2 ^ 53 ->
      seed mod 4294967296 = seed' mod 4294967296 ->
      draw_at seed k = draw_at seed' k).
Proof.
  intros Hseed Hk.
  assert (Hdraw : forall s, 0 <= s -> s + (Z.of_nat k + 1) * 1831565813 < 2 ^ 53 ->
            draw_at s k
            = mulberry32_out ((s + (Z.of_nat k + 1) * 1831565813) mod 4294967296)).
  { intros s Hs Hsk. unfold draw_at. rewrite mulberry32_call_out. cbn [fst].
    rewrite gen_after_exact by lia. rewrite add_exact by lia.
    rewrite mulberry32_out_mod. f_equal. lia. }
  split; [ | split ].
  - rewrite (gen_after_exact (S k)) by lia. lia.
  - apply Hdraw; assumption.
  - intros Hseed' Hk' Hmod. rewrite !Hdraw by assumption. f_equal.
    rewrite (Z.add_mod seed), (Z.add_mod seed'), Hmod by lia. reflexivity.
Qed.

Lemma draws_of_low_32_bits_witness :
  0 <= 7 /\ 7 + (Z.of_nat 2 + 1) * 1831565813 < 2 ^ 53
  /\ gen_after 3 7 = 7 + (Z.of_nat 2 + 1) * 1831565813
  /\ draw_at 7 2 = mulberry32_out ((7 + (Z.of_nat 2 + 1) * 1831565813) mod 4294967296)
  /\ (0 <= 7 + 4294967296 ->
      7 + 4294967296 + (Z.of_nat 2 + 1) * 1831565813 < 2 ^ 53 ->
      7 mod 4294967296 = (7 + 4294967296) mod 4294967296 ->
      draw_at 7 2 = draw_at (7 + 4294967296) 2).
Proof.
  assert (H0 : 0 <= 7) by lia.
  assert (H1 : 7 + (Z.of_nat 2 + 1) * 1831565813 < 2 ^ 53) by (vm_compute; reflexivity).
  split; [ exact H0 | ]. split; [ exact H1 | ].
  exact (draws_of_low_32_bits 7 (7 + 4294967296) 2 H0 H1).
Defined.


(** ** Counting draws *)

Lemma consumes_bind_eq {A B} n1 n2 n (m : M A) (k : A -> M B) :
  consumes n1 m -> (forall x, consumes n2 (k x)) -> n = (n1 + n2)%nat ->
  consumes n (bind m k).
Proof. intros Hm Hk ->. apply consumes_bind; assumption. Qed.

Lemma pick_consumes {A} (arr : list A) : consumes 1 (pick arr).
Proof.
  unfold pick. apply (consumes_bind 1 0); [ apply consumes_rng | intros u ].
  apply consumes_ret.
Qed.

Ltac count :=
  cbv zeta;
  lazymatch goal with
  | |- consumes _ (bind _ _) =>
      eapply consumes_bind_eq; [ count | intros ?; count | reflexivity ]
  | |- consumes _ rng => apply consumes_rng
  | |- consumes _ (emit _) => apply consumes_emit
  | |- consumes _ (ret _) => apply consumes_ret
  | |- consumes _ (pick _) => apply pick_consumes
  | |- consumes _ (for_range _ _) => eapply consumes_for_loop; intros ?; count
  end.

Lemma strokeGlow_consumes c l g b : consumes 0 (strokeGlow c l g b).
Proof. unfold strokeGlow. count. Qed.

Lemma fillGlow_consumes c g b : consumes 0 (fillGlow c g b).
Proof. unfold fillGlow. count. Qed.

Lemma drawPetal_consumes r0 r1 w : consumes 1 (drawPetal r0 r1 w).
Proof. unfold drawPetal. count. Qed.

Lemma drawArcBand_consumes r0 r1 a0 a1 : consumes 0 (drawArcBand r0 r1 a0 a1).
Proof. unfold drawArcBand. count. Qed.

Lemma drawDot_consumes r s : consumes 0 (drawDot r s).
Proof. unfold drawDot. count. Qed.

Lemma motif_petal_consumes R palette r0 r1 stroke fill lw li si :
  consumes 3 (motif_petal R palette r0 r1 stroke fill lw li si).
Proof.
  unfold motif_petal, drawPetal, fillGlow, strokeGlow. count.
Qed.

Lemma motif_band_consumes step palette r0 r1 stroke fill lw li :
  consumes 2 (motif_band step palette r0 r1 stroke fill lw li).
Proof. unfold motif_band, drawArcBand, fillGlow, strokeGlow. count. Qed.

Lemma motif_triangles_consumes R palette r0 r1 stroke fill lw li :
  consumes 4 (motif_triangles R palette r0 r1 stroke fill lw li).
Proof. unfold motif_triangles, fillGlow, strokeGlow. count. Qed.

Lemma rosette_petal_consumes minDim R cStep palette i :
  consumes 3 (rosette_petal minDim R cStep palette i).
Proof. unfold rosette_petal, drawPetal, fillGlow, strokeGlow. count. Qed.

Lemma motif_rays_consumes step r0 r1 stroke lw a :
  state (motif_rays step r0 r1 stroke lw a)
  = gen_after (1 + Z.to_nat (JS.clamp (floor_draw 2 (fst (mulberry32_call a)) 6) 2 7) * 3) a.
Proof.
  unfold motif_rays. rewrite state_bind, state_rng, value_rng. cbv zeta.
  rewrite gen_after_add. cbn [gen_after].
  generalize (fst (mulberry32_call a)) (snd (mulberry32_call a)). intros u a1.
  match goal with
  | |- state (?m a1) = _ =>
      assert (H : consumes (Z.to_nat (JS.clamp (floor_draw 2 u 6) 2 7) * 3 + 0) m)
        by (unfold strokeGlow; count)
  end.
  rewrite H, Nat.add_0_r. reflexivity.
Qed.

Lemma motif_dots_consumes minDim inks r0 r1 lw a :
  state (motif_dots minDim inks r0 r1 lw a)
  = gen_after (1 + Z.to_nat (JS.clamp (floor_draw 2 (fst (mulberry32_call a)) 5) 2 6) * 4) a.
Proof.
  unfold motif_dots. rewrite state_bind, state_rng, value_rng. cbv zeta.
  rewrite gen_after_add. cbn [gen_after].
  generalize (fst (mulberry32_call a)) (snd (mulberry32_call a)). intros u a1.
  match goal with
  | |- state (?m a1) = _ =>
      assert (H : consumes (Z.to_nat (JS.clamp (floor_draw 2 u 5) 2 6) * 4 + 0) m)
        by (unfold drawDot, fillGlow, strokeGlow; count)
  end.
  rewrite H, Nat.add_0_r. reflexivity.
Qed.

(** X6: the draws of the motifs, per segment: a petal takes 3 values of the
    generator, a band 2, a triangle 4, a petal of the rosette 3; rays take
    one for their number and 3 for each ray, dots one for their number and 4
    for each dot. *)
Theorem motif_draw_counts
    (minDim : Z) (R step : Num) (palette : Palette) (inks : list Style)
    (r0 r1 : Num) (stroke fill : option Style) (lw : Num) (li si : Z) (a : Z) :
  state (motif_petal R palette r0 r1 stroke fill lw li si a) = gen_after 3 a
  /\ state (motif_band step palette r0 r1 stroke fill lw li a) = gen_after 2 a
  /\ state (motif_triangles R palette r0 r1 stroke fill lw li a) = gen_after 4 a
  /\ state (rosette_petal minDim R step palette si a) = gen_after 3 a
  /\ (let rayCount := JS.clamp (floor_draw 2 (fst (mulberry32_call a)) 6) 2 7 in
      state (motif_rays step r0 r1 stroke lw a)
      = gen_after (1 + Z.to_nat rayCount * 3) a)
  /\ (let dotCount := JS.clamp (floor_draw 2 (fst (mulberry32_call a)) 5) 2 6 in
      state (motif_dots minDim inks r0 r1 lw a)
      = gen_after (1 + Z.to_nat dotCount * 4) a).
Proof.
  split; [ apply motif_petal_consumes | ].
  split; [ apply motif_band_consumes | ].
  split; [ apply motif_triangles_consumes | ].
  split; [ apply rosette_petal_consumes | ].
  split; [ apply motif_rays_consumes | apply motif_dots_consumes ].
Qed.


(** ** The draws of a render *)

Lemma at_most_exact {A} n N (m : M A) :
  consumes n m -> Z.of_nat n <= N -> consumes_at_most N m.
Proof. intros Hm Hn a. exists n. split; [ exact Hn | apply Hm ]. Qed.

Lemma at_most_weaken {A} N N' (m : M A) :
  consumes_at_most N m -> N <= N' -> consumes_at_most N' m.
Proof.
  intros Hm HN a. destruct (Hm a) as (k & Hk & Hs).
  exists k. split; [ lia | exact Hs ].
Qed.

Lemma at_most_bind {A B} N1 N2 N (m : M A) (k : A -> M B) :
  consumes_at_most N1 m -> (forall x, consumes_at_most N2 (k x)) ->
  N1 + N2 <= N -> consumes_at_most N (bind m k).
Proof.
  intros Hm Hk HN a. destruct (Hm a) as (k1 & Hk1 & Hs1).
  destruct (Hk (value (m a)) (state (m a))) as (k2 & Hk2 & Hs2).
  exists (k1 + k2)%nat. split; [ lia | ].
  rewrite state_bind, Hs2, Hs1. symmetry. apply gen_after_add.
Qed.

Lemma at_most_for_loop {A} c (body : Z -> M A) n : forall i,
  0 <= c -> (forall j, consumes_at_most c (body j)) ->
  consumes_at_most (Z.of_nat n * c) (for_loop n i body).
Proof.
  intros i Hc Hbody. revert i. induction n as [ | n IH ]; intros i.
  - apply (at_most_exact 0); [ apply consumes_ret | lia ].
  - cbn [for_loop].
    apply (at_most_bind c (Z.of_nat n * c)); [ apply Hbody | intros x | lia ].
    apply (at_most_bind (Z.of_nat n * c) 0); [ apply IH | intros xs | lia ].
    apply (at_most_exact 0); [ apply consumes_ret | lia ].
Qed.

Lemma at_most_for_range {A} nmax c n (body : Z -> M A) :
  0 <= c -> n <= nmax -> 0 <= nmax -> (forall j, consumes_at_most c (body j)) ->
  consumes_at_most (nmax * c) (for_range n body).
Proof.
  intros Hc Hn Hmax Hbody. unfold for_range.
  apply (at_most_weaken (Z.of_nat (Z.to_nat n) * c)).
  - apply at_most_for_loop; assumption.
  - apply Z.mul_le_mono_nonneg_r; lia.
Qed.

Lemma motif_rays_at_most step r0 r1 stroke lw :
  consumes_at_most 22 (motif_rays step r0 r1 stroke lw).
Proof.
  intros a. eexists. split; [ | apply motif_rays_consumes ].
  pose proof (clamp_bounds (floor_draw 2 (fst (mulberry32_call a)) 6) 2 7). lia.
Qed.

Lemma motif_dots_at_most minDim inks r0 r1 lw :
  consumes_at_most 25 (motif_dots minDim inks r0 r1 lw).
Proof.
  intros a. eexists. split; [ | apply motif_dots_consumes ].
  pose proof (clamp_bounds (floor_draw 2 (fst (mulberry32_call a)) 5) 2 6). lia.
Qed.

Lemma segment_at_most minDim R step palette inks r0 r1 stroke fill lw li si kind :
  consumes_at_most 25
    (segment minDim R step palette inks r0 r1 stroke fill lw li si kind).
Proof.
  unfold segment.
  apply (at_most_bind 0 25); [ apply (at_most_exact 0); [ apply consumes_emit | lia ] | intros _ | lia ].
  apply (at_most_bind 0 25); [ apply (at_most_exact 0); [ apply consumes_emit | lia ] | intros _ | lia ].
  apply (at_most_bind 25 0); [ | intros _; apply (at_most_exact 0); [ apply consumes_emit | lia ] | lia ].
  destruct kind as [ [ | | | | ] | ].
  - apply (at_most_exact 3); [ apply motif_petal_consumes | lia ].
  - apply (at_most_exact 2); [ apply motif_band_consumes | lia ].
  - apply (at_most_weaken 22); [ apply motif_rays_at_most | lia ].
  - apply motif_dots_at_most.
  - apply (at_most_exact 4); [ apply motif_triangles_consumes | lia ].
  - apply (at_most_exact 0); [ apply consumes_ret | lia ].
Qed.

Lemma layer_at_most minDim R step palette inks segments layers li :
  segments <= 26 ->
  consumes_at_most 655 (layer minDim R step palette inks segments layers li).
Proof.
  intros Hseg. unfold layer. cbv zeta.
  apply (at_most_bind 1 654); [ apply (at_most_exact 1); [ apply consumes_rng | lia ] | intros u1 | lia ].
  apply (at_most_bind 1 653); [ apply (at_most_exact 1); [ apply pick_consumes | lia ] | intros stroke | lia ].
  apply (at_most_bind 1 652); [ apply (at_most_exact 1); [ apply pick_consumes | lia ] | intros fill | lia ].
  apply (at_most_bind 1 651); [ apply (at_most_exact 1); [ apply pick_consumes | lia ] | intros kind | lia ].
  apply (at_most_bind 1 650); [ apply (at_most_exact 1); [ apply consumes_rng | lia ] | intros u2 | lia ].
  apply (at_most_bind (26 * 25) 0);
    [ | intros _; apply (at_most_exact 0); [ apply consumes_ret | lia ] | lia ].
  apply at_most_for_range; [ lia | exact Hseg | lia | intros si; apply segment_at_most ].
Qed.

Lemma drawMandala_body_at_most w h word options :
  consumes_at_most 16468 (drawMandala_body w h word options).
Proof.
  unfold drawMandala_body. cbv zeta.
  apply (at_most_bind 4 16464); [ apply (at_most_exact 4); [ apply makePalette_consumes | lia ] | intros palette | lia ].
  apply (at_most_bind 7200 9264);
    [ apply (at_most_exact (Z.to_nat 7200)); [ apply drawBackground_consumes | lia ]
    | intros _ | lia ].
  apply (at_most_bind 0 9264); [ apply (at_most_exact 0); [ apply consumes_emit | lia ] | intros _ | lia ].
  apply (at_most_bind 0 9264); [ apply (at_most_exact 0); [ apply consumes_emit | lia ] | intros _ | lia ].
  apply (at_most_bind 1 9263); [ apply (at_most_exact 1); [ apply consumes_rng | lia ] | intros urot | lia ].
  apply (at_most_bind 0 9263); [ apply (at_most_exact 0); [ apply consumes_emit | lia ] | intros _ | lia ].
  apply (at_most_bind 1 9262); [ apply (at_most_exact 1); [ apply consumes_rng | lia ] | intros useg | lia ].
  apply (at_most_bind 1 9261); [ apply (at_most_exact 1); [ apply consumes_rng | lia ] | intros ulay | lia ].
  apply (at_most_bind 0 9261); [ apply (at_most_exact 0); [ apply consumes_emit | lia ] | intros _ | lia ].
  apply (at_most_bind 0 9261); [ apply (at_most_exact 0); [ apply strokeGlow_consumes | lia ] | intros _ | lia ].
  do 4 (apply (at_most_bind 0 9261); [ apply (at_most_exact 0); [ apply consumes_emit | lia ] | intros _ | lia ]).
  apply (at_most_bind (14 * 655) 91); [ | intros kinds | lia ].
  { apply at_most_for_range; [ lia | apply clamp_bounds; lia | lia | intros li ].
    apply layer_at_most. apply clamp_bounds. lia. }
  apply (at_most_bind 0 91); [ apply (at_most_exact 0); [ apply consumes_emit | lia ] | intros _ | lia ].
  apply (at_most_bind 1 90); [ apply (at_most_exact 1); [ apply consumes_rng | lia ] | intros ucp | lia ].
  apply (at_most_bind (30 * 3) 0); [ | intros _ | lia ].
  { apply at_most_for_range; [ lia | apply clamp_bounds; lia | lia | intros i ].
    apply (at_most_exact 3); [ apply rosette_petal_consumes | lia ]. }
  do 3 (apply (at_most_bind 0 0); [ apply (at_most_exact 0); [ apply consumes_emit | lia ] | intros _ | lia ]).
  apply (at_most_bind 0 0); [ apply (at_most_exact 0); [ apply fillGlow_consumes | lia ] | intros _ | lia ].
  do 5 (apply (at_most_bind 0 0); [ apply (at_most_exact 0); [ apply consumes_emit | lia ] | intros _ | lia ]).
  apply (at_most_bind 0 0); [ | intros _; apply (at_most_exact 0); [ apply consumes_ret | lia ] | lia ].
  destruct options as [ [ [ | ] ] | ]; cbn [signature].
  - apply (at_most_exact 0); [ unfold draw_signature; count | lia ].
  - apply (at_most_exact 0); [ apply consumes_ret | lia ].
  - apply (at_most_exact 0); [ apply consumes_ret | lia ].
Qed.

(** X7: a render calls the generator at most 16468 times; for an unsigned
    32-bit seed the captured number therefore stays far below [2^53], and
    after the render it is exactly the seed plus [0x6d2b79f5] for each
    call. *)
Theorem render_draw_budget (ctx : Canvas) (word : jsstring) (seed : Z)
    (options : option Options) :
  exists k : nat,
    Z.of_nat k <= 16468
    /\ state (drawMandala_body (canvas_width ctx) (canvas_height ctx) word options
                               (mulberry32 seed))
       = gen_after k seed
    /\ (0 <= seed < 4294967296 ->
        gen_after k seed = seed + Z.of_nat k * 1831565813
        /\ gen_after k seed < 2 ^ 45).
Proof.
  destruct (drawMandala_body_at_most (canvas_width ctx) (canvas_height ctx) word options
                                     (mulberry32 seed)) as (k & Hk & Hs).
  exists k. split; [ exact Hk | ]. split; [ exact Hs | ].
  intros Hseed. rewrite gen_after_exact by lia. lia.
Qed.


(** ** What a render selects *)

Lemma returns_for_loop_length {A} (body : Z -> M A) n : forall i,
  returns (fun xs => length xs = n) (for_loop n i body).
Proof.
  induction n as [ | n IH ]; intros i.
  - apply returns_ret. reflexivity.
  - cbn [for_loop].
    apply (returns_bind (fun _ => True)); [ apply returns_any | intros x _ ].
    apply (returns_bind (fun xs => length xs = n)); [ apply IH | intros xs Hxs ].
    apply returns_ret. cbn [length]. rewrite Hxs. reflexivity.
Qed.

Lemma drawMandala_body_kinds_length w h word options :
  returns (fun sel => length (sel_kinds sel) = Z.to_nat (sel_layers sel))
          (drawMandala_body w h word options).
Proof.
  unfold drawMandala_body. cbv zeta.
  do 14 (apply (returns_bind (fun _ => True)); [ apply returns_any | intros ? _ ]).
  match goal with
  | |- returns _ (bind (for_range ?n _) _) =>
      apply (returns_bind (fun xs : list (option Kind) => length xs = Z.to_nat n));
      [ apply returns_for_loop_length | intros kinds Hkinds ]
  end.
  do 13 (apply (returns_bind (fun _ => True)); [ apply returns_any | intros ? _ ]).
  apply returns_ret. exact Hkinds.
Qed.

(** X8: a render picks one kind for each layer: the kinds are as many as
    the layers, between 7 and 13, and each is one of the five. *)
Theorem one_kind_per_layer (ctx : Canvas) (word : jsstring) (seed : Z)
    (options : option Options) :
  let sel := fst (drawMandala ctx word seed options) in
  Z.of_nat (length (sel_kinds sel)) = sel_layers sel
  /\ (7 <= length (sel_kinds sel) <= 13)%nat
  /\ Forall (fun kind => exists k, kind = Some k) (sel_kinds sel).
Proof.
  cbv zeta. rewrite drawMandala_selection.
  pose proof (drawMandala_body_kinds_length (canvas_width ctx) (canvas_height ctx) word
                options seed) as Hlen.
  pose proof (drawMandala_body_kinds_defined (canvas_width ctx) (canvas_height ctx) word
                options seed) as Hdef.
  destruct (drawMandala_body_sizing (canvas_width ctx) (canvas_height ctx) word
                                    options seed) as [_ Hlay].
  cbv beta in Hlen, Hdef.
  destruct (layers_formula_bounds _ (draw_at_range seed (Z.to_nat 7206))) as [E Hb].
  rewrite E in Hlay.
  split; [ rewrite Hlen; lia | ].
  split; [ rewrite Hlen; lia | ].
  exact Hdef.
Qed.

Lemma makePalette_baseHue a :
  baseHue (value (makePalette a)) = Qfloor (Qdraw (draw_at a 0) * inject_Z 360).
Proof. rewrite makePalette_value. reflexivity. Qed.

(** X9: the base hue of the palette is an integer from 0 to 359, for every
    seed. *)
Theorem baseHue_range (ctx : Canvas) (word : jsstring) (seed : Z)
    (options : option Options) :
  0 <= baseHue (sel_palette (fst (drawMandala ctx word seed options))) <= 359.
Proof.
  rewrite drawMandala_selection, drawMandala_body_palette, makePalette_baseHue.
  pose proof (pick_index_range (draw_at seed 0) 360 (draw_at_range seed 0)). lia.
Qed.

Lemma pick_value {A} (arr : list A) a :
  value (pick arr a)
  = let i := Qfloor (Qdraw (fst (mulberry32_call a)) * inject_Z (Z.of_nat (length arr))) in
    if i <? 0 then None else arr !! Z.to_nat i.
Proof. unfold pick. rewrite value_bind, value_rng. reflexivity. Qed.




(** ** The signature *)

Lemma drawMandala_body_no_text w h word :
  m_never is_text (drawMandala_body w h word None).
Proof.
  unfold drawMandala_body, makePalette, drawBackground, layer, segment,
    rosette_petal, motif_petal, motif_band, motif_rays, motif_dots, motif_triangles,
    strokeGlow, fillGlow, drawPetal, drawArcBand, drawDot.
  repeat never_step.
Qed.

Lemma trace_bind_tail {A B} (m : M A) (k1 k2 : A -> M B) e a :
  (forall x s, trace (k1 x s) = trace (k2 x s) ++ e) ->
  trace (bind m k1 a) = trace (bind m k2 a) ++ e.
Proof. intros Hk. rewrite !trace_bind, Hk. apply app_assoc. Qed.

Lemma draw_signature_trace w h word a :
  trace (draw_signature w h word a)
  = [ctx_save;
     ctx_globalAlpha (Lit 0.12);
     ctx_fillStyle (Some (css "rgba(255,255,255,0.55)"));
     ctx_font (Max 12 (Floor (w * Lit 0.02)));
     ctx_textAlign "center";
     ctx_fillText word (w / 2) (h - Max 14 (Floor (w * Lit 0.03)));
     ctx_restore].
Proof. reflexivity. Qed.

Lemma drawMandala_body_signature w h word word' options a :
  trace (drawMandala_body w h word options a)
  = trace (drawMandala_body w h word' None a)
    ++ match options with
       | Some o => if signature o then trace (draw_signature w h word a) else []
       | None => []
       end.
Proof.
  unfold drawMandala_body.
  repeat (cbv beta zeta;
          lazymatch goal with
          | |- trace (bind _ (fun _ => ret _) _) = _ => fail
          | |- trace (bind _ _ _) = _ => apply trace_bind_tail; intros ? ?
          end).
  cbv beta zeta. rewrite !trace_bind, !trace_ret, !app_nil_r.
  destruct options as [ [ [ | ] ] | ]; cbn [signature]; rewrite ?trace_ret;
    reflexivity.
Qed.

(** X11: the signature is the last thing a render draws: with the option
    the calls are those of a render without it, followed by the seven calls
    of the signature, which show the word as it is; without the option, or
    when it is false, nothing is added. No other call of a render draws
    text, and the word has no part in the calls before the signature. *)
Theorem signature_is_appended (ctx : Canvas) (word word' : jsstring) (seed : Z) :
  let w := canvas_width ctx in
  let h := canvas_height ctx in
  let plain := calls (snd (drawMandala ctx word' seed None)) in
  calls (snd (drawMandala ctx word seed (Some {| signature := true |})))
  = plain ++ [ctx_save;
              ctx_globalAlpha (Lit 0.12);
              ctx_fillStyle (Some (css "rgba(255,255,255,0.55)"));
              ctx_font (Max 12 (Floor (w * Lit 0.02)));
              ctx_textAlign "center";
              ctx_fillText word (w / 2) (h - Max 14 (Floor (w * Lit 0.03)));
              ctx_restore]
  /\ calls (snd (drawMandala ctx word seed (Some {| signature := false |}))) = plain
  /\ calls (snd (drawMandala ctx word seed None)) = plain
  /\ exists t, plain = calls ctx ++ t /\ Forall (fun c => is_text c = false) t.
Proof.
  cbv zeta. rewrite !drawMandala_calls.
  split; [ | split; [ | split ] ].
  - rewrite (drawMandala_body_signature _ _ word word' (Some {| signature := true |})).
    cbn [signature]. rewrite draw_signature_trace. apply app_assoc.
  - rewrite (drawMandala_body_signature _ _ word word' (Some {| signature := false |})).
    cbn [signature]. rewrite app_nil_r. reflexivity.
  - rewrite (drawMandala_body_signature _ _ word word' None).
    rewrite app_nil_r. reflexivity.
  - eexists. split; [ reflexivity | ]. apply drawMandala_body_no_text.
Qed.

(** ** The size of the canvas *)

Lemma dpr_ge_1 r : 1 <= dpr r.
Proof. unfold dpr. lia. Qed.

Lemma dpr_small r :
  match r with Some q => (q < 2)%Q | None => True end -> dpr r = 1.
Proof.
  unfold dpr. destruct r as [ q | ]; [ | intros _; reflexivity ].
  intros Hq. destruct (Qeq_bool q 0); [ reflexivity | ].
  assert (Hlt : (inject_Z (Qfloor q) < inject_Z 2)%Q)
    by (eapply Qle_lt_trans; [ apply Qfloor_le | exact Hq ]).
  rewrite <- Zlt_Qlt in Hlt. lia.
Qed.

Lemma set_dimension_kept default x :
  0 <= x <= 2147483647 -> set_dimension default (JS.round_to_double x) = x.
Proof.
  intros Hx. unfold set_dimension, JS.round_to_double. cbv zeta.
  destruct (Z.ltb_spec (Z.abs x) (2 ^ 53)); [ | lia ].
  rewrite ToUint32_small by lia.
  destruct (Z.leb_spec x 2147483647); [ reflexivity | lia ].
Qed.

(** X12: the canvas is made square, with a side from 320 to 980 CSS pixels
    that follows the width of its parent between these bounds; its side in
    device pixels is that number times the pixel ratio, a whole number that
    is at least 1, and 1 when the host gives no ratio or one below 2.
    Without a parent the canvas is left alone. The ratio is assumed to be
    small enough for the canvas to keep what is assigned to it. *)
Theorem canvas_square_and_bounded (host : Host) (canvas : CanvasElement) :
  dpr (devicePixelRatio host) <= 2191309 ->
  match parent_width host with
  | None => fitCanvasToContainer host canvas = (1, canvas)
  | Some rect_width =>
      exists size ratio : Z,
        fitCanvasToContainer host canvas
        = (ratio, {| style_width := Some size; style_height := Some size;
                     attr_width := size * ratio; attr_height := size * ratio |})
        /\ 320 <= size <= 980
        /\ (320 <= Qfloor rect_width <= 980 -> size = Qfloor rect_width)
        /\ 1 <= ratio
        /\ (match devicePixelRatio host with
            | Some q => (q < 2)%Q
            | None => True
            end -> ratio = 1)
  end.
Proof.
  intros Hdpr. unfold fitCanvasToContainer.
  destruct (parent_width host) as [ rect_width | ]; [ | reflexivity ].
  cbv zeta.
  exists (JS.clamp (Qfloor rect_width) 320 980), (dpr (devicePixelRatio host)).
  assert (Hsize : 320 <= JS.clamp (Qfloor rect_width) 320 980 <= 980)
    by (unfold JS.clamp; lia).
  pose proof (dpr_ge_1 (devicePixelRatio host)) as Hge.
  split; [ | split; [ exact Hsize | split; [ | split; [ exact Hge | apply dpr_small ] ] ] ].
  - unfold setCanvasSize. cbv zeta.
    assert (Hside : 0 <= JS.clamp (Qfloor rect_width) 320 980 * dpr (devicePixelRatio host)
                    <= 980 * 2191309) by nia.
    rewrite !set_dimension_kept by lia. reflexivity.
  - unfold JS.clamp. lia.
Qed.

Lemma canvas_square_and_bounded_witness :
  let host := {| devicePixelRatio := Some (5 # 2); parent_width := Some (1281 # 2) |} in
  let canvas := {| style_width := None; style_height := None;
                   attr_width := 300; attr_height := 150 |} in
  dpr (devicePixelRatio host) <= 2191309
  /\ exists size ratio : Z,
       fitCanvasToContainer host canvas
       = (ratio, {| style_width := Some size; style_height := Some size;
                    attr_width := size * ratio; attr_height := size * ratio |})
       /\ 320 <= size <= 980
       /\ (320 <= Qfloor (1281 # 2) <= 980 -> size = Qfloor (1281 # 2))
       /\ 1 <= ratio
       /\ ((5 # 2 < 2)%Q -> ratio = 1).
Proof.
  intros host canvas.
  assert (Hdpr : dpr (devicePixelRatio host) <= 2191309) by (vm_compute; discriminate).
  split; [ exact Hdpr | ].
  exact (canvas_square_and_bounded host canvas Hdpr).
Defined.

(** ** The listeners of [main] *)

Lemma sanitizeWord_twice x : sanitizeWord (sanitizeWord x) = sanitizeWord x.
Proof.
  rewrite (sanitizeWord_first_token (sanitizeWord x)). unfold first_token.
  rewrite trimStart_no_space, token_id by apply sanitizeWord_no_space.
  apply List.firstn_all2, sanitizeWord_length.
Qed.

Section Listeners.

Context `{CaseMapping}.

Lemma renderFromInput_blank host p :
  sanitizeWord (input_value p) = [] -> renderFromInput host p = p.
Proof. intros E. unfold renderFromInput. rewrite E. reflexivity. Qed.

Lemma renderFromInput_word host p :
  sanitizeWord (input_value p) <> [] ->
  let word := sanitizeWord (input_value p) in
  let canvas := snd (fitCanvasToContainer host (canvas p)) in
  renderFromInput host p
  = {| input_value := input_value p;
       canvas := canvas;
       ctx_calls := ctx_calls p
                    ++ ctx_setTransform 1 0 0 1 0 0
                       :: map ctx_drawing
                            (trace (drawMandala_body (attr_width canvas) (attr_height canvas)
                                      word (Some {| signature := true |})
                                      (computeSeed word)));
       seedLabel := seedLabel_text (computeSeed word);
       resizeTimer := resizeTimer p;
       timers := timers p;
       downloads := downloads p |}.
Proof.
  intros E. cbv zeta. unfold renderFromInput.
  destruct (sanitizeWord (input_value p)) as [ | c s ]; [ contradiction | ].
  cbv zeta. rewrite drawMandala_calls. reflexivity.
Qed.

Lemma renderFromInput_frame host p :
  input_value (renderFromInput host p) = input_value p
  /\ resizeTimer (renderFromInput host p) = resizeTimer p
  /\ timers (renderFromInput host p) = timers p
  /\ downloads (renderFromInput host p) = downloads p.
Proof.
  destruct (decide (sanitizeWord (input_value p) = [])) as [ E | E ].
  - rewrite renderFromInput_blank by exact E. repeat split.
  - rewrite renderFromInput_word by exact E. repeat split.
Qed.

Lemma run_callback_render callback host p :
  run_callback callback host p = renderFromInput host p.
Proof.
  destruct callback; [ reflexivity | ]. cbn [run_callback].
  destruct (sanitizeWord (input_value p)) eqn:E; [ | reflexivity ].
  symmetry. apply renderFromInput_blank, E.
Qed.

(** X13: every listener renders as [renderFromInput] does. The test of the
    input listener before it renders changes nothing; a submit renders what
    [renderFromInput] renders from the same field, and leaves the sanitized
    word in the field, where a second submit finds it unchanged. *)
Theorem listeners_render_alike (host host' : Host) (p : Page) (callback : Callback) :
  run_callback callback host p = renderFromInput host p
  /\ on_submit host p
     = set_input_value (sanitizeWord (input_value p)) (renderFromInput host p)
  /\ input_value (on_submit host' (on_submit host p)) = input_value (on_submit host p).
Proof.
  split; [ apply run_callback_render | ].
  assert (Hsubmit : forall h q,
             on_submit h q
             = set_input_value (sanitizeWord (input_value q)) (renderFromInput h q)).
  { intros h q. unfold on_submit.
    destruct (decide (sanitizeWord (input_value q) = [])) as [ E | E ].
    - rewrite !renderFromInput_blank;
        [ reflexivity | exact E | cbn [set_input_value input_value]; rewrite E; reflexivity ].
    - rewrite !renderFromInput_word;
        [ | exact E | cbn [set_input_value input_value]; rewrite sanitizeWord_twice; exact E ].
      cbv zeta. cbn [set_input_value input_value canvas ctx_calls seedLabel resizeTimer
                       timers downloads].
      rewrite sanitizeWord_twice. reflexivity. }
  split; [ apply Hsubmit | ].
  rewrite !Hsubmit. cbn [set_input_value input_value]. apply sanitizeWord_twice.
Qed.

(** *** At most one timer *)

Lemma one_timer_render host p : one_timer p -> one_timer (renderFromInput host p).
Proof.
  intros Hp id callback. destruct (renderFromInput_frame host p) as (_ & -> & -> & _).
  apply Hp.
Qed.

Lemma clearTimeout_empty p : one_timer p -> clearTimeout (resizeTimer p) (timers p) = ∅.
Proof.
  intros Hp. apply map_empty. intros id.
  unfold clearTimeout. destruct (resizeTimer p) as [ id0 | ] eqn:E.
  - destruct (decide (id = id0)) as [ -> | Hne ].
    + apply lookup_delete_eq.
    + rewrite lookup_delete_ne by congruence.
      destruct (timers p !! id) eqn:El; [ | reflexivity ].
      apply Hp in El. congruence.
  - destruct (timers p !! id) eqn:El; [ | reflexivity ].
    apply Hp in El. congruence.
Qed.

Lemma debounce_timers id callback p :
  one_timer p -> timers (debounce id callback p) = {[ id := callback ]}.
Proof.
  intros Hp. cbn [debounce timers]. rewrite clearTimeout_empty by exact Hp.
  apply insert_empty.
Qed.

Lemma one_timer_debounce id callback p : one_timer p -> one_timer (debounce id callback p).
Proof.
  intros Hp id' callback'. rewrite debounce_timers by exact Hp.
  intros El. apply lookup_singleton_Some in El as [ <- _ ]. reflexivity.
Qed.

Lemma one_timer_handle p e : one_timer p -> one_timer (handle p e).
Proof.
  intros Hp. destruct e as [ id | host | value id | | id host ]; cbn [handle].
  - apply one_timer_debounce, Hp.
  - apply one_timer_render. exact Hp.
  - apply one_timer_debounce. exact Hp.
  - unfold on_click. destruct (download_name (input_value p)); exact Hp.
  - destruct (timers p !! id) as [ callback | ] eqn:El; [ | exact Hp ].
    rewrite run_callback_render. apply one_timer_render.
    intros id' callback'. cbn [timers resizeTimer].
    intros El'. apply lookup_delete_Some in El' as [ _ El' ]. apply Hp in El'. exact El'.
Qed.

Lemma main_page elements context host canvas label p :
  main elements context host canvas label = Some p ->
  p = renderFromInput host
        {| input_value := lit "harmony"; canvas := canvas; ctx_calls := [];
           seedLabel := label; resizeTimer := None; timers := ∅; downloads := [] |}.
Proof.
  unfold main. destruct elements, context; cbn [negb]; congruence.
Qed.

Lemma run_events_snoc events e p : run_events (events ++ [e]) p = handle (run_events events p) e.
Proof. unfold run_events. rewrite fold_left_app. reflexivity. Qed.

(** X14: whatever happens to the page, at most one timer is set: the one
    kept in [resizeTimer]. A resize or an edit of the field cancels the
    render that was waiting and sets its own. *)
Theorem at_most_one_timer
    (elements context : bool) (host : Host) (canvas : CanvasElement)
    (label : jsstring) (p0 : Page) (events : list Event) :
  main elements context host canvas label = Some p0 ->
  let p := run_events events p0 in
  (forall id callback, timers p !! id = Some callback -> resizeTimer p = Some id)
  /\ (size (timers p) <= 1)%nat
  /\ forall id value,
       timers (handle p (ev_resize id)) = {[ id := resize_callback ]}
       /\ timers (handle p (ev_input value id)) = {[ id := input_callback ]}.
Proof.
  intros Hmain. cbv zeta.
  assert (Hp : one_timer (run_events events p0)).
  { induction events as [ | e events IH ] using rev_ind.
    - apply main_page in Hmain. subst p0. apply one_timer_render.
      intros id callback. cbn [timers]. rewrite lookup_empty. discriminate.
    - rewrite run_events_snoc. apply one_timer_handle, IH. }
  split; [ exact Hp | ]. split.
  - destruct (resizeTimer (run_events events p0)) as [ id0 | ] eqn:E.
    + assert (Hsub : timers (run_events events p0) ⊆ {[ id0 := resize_callback ]}
                     \/ timers (run_events events p0) ⊆ {[ id0 := input_callback ]}).
      { destruct (timers (run_events events p0) !! id0) as [ [ | ] | ] eqn:El;
          [ left | right | left ];
          apply map_subseteq_spec; intros id callback Hl;
          pose proof (Hp _ _ Hl) as Hid; rewrite E in Hid; injection Hid as <-;
          rewrite lookup_singleton_eq; congruence. }
      destruct Hsub as [ Hsub | Hsub ];
        apply map_subseteq_size in Hsub; rewrite map_size_singleton in Hsub; exact Hsub.
    + assert (Hemp : timers (run_events events p0) = ∅).
      { apply map_empty. intros id.
        destruct (timers (run_events events p0) !! id) eqn:El; [ | reflexivity ].
        apply Hp in El. congruence. }
      rewrite Hemp, map_size_empty. lia.
  - intros id value. cbn [handle]. split.
    + apply debounce_timers, Hp.
    + apply debounce_timers. exact Hp.
Qed.

(** *** The label and the picture *)

Lemma shows_render host p :
  sanitizeWord (input_value p) <> [] ->
  shows (sanitizeWord (input_value p)) (ctx_calls p) (renderFromInput host p).
Proof.
  intros E. rewrite renderFromInput_word by exact E. cbv zeta.
  split; reflexivity.
Qed.

Lemma shows_a_word_render host p :
  shows_a_word p \/ sanitizeWord (input_value p) <> [] ->
  shows_a_word (renderFromInput host p).
Proof.
  intros Hp.
  destruct (decide (sanitizeWord (input_value p) = [])) as [ E | E ].
  - rewrite renderFromInput_blank by exact E. destruct Hp as [ Hp | Hp ]; tauto.
  - exists (sanitizeWord (input_value p)), (ctx_calls p).
    split; [ exact E | ]. split; [ apply sanitizeWord_twice | ].
    apply shows_render, E.
Qed.

Lemma shows_a_word_handle p e : shows_a_word p -> shows_a_word (handle p e).
Proof.
  intros Hp. destruct e as [ id | host | value id | | id host ]; cbn [handle].
  - exact Hp.
  - unfold on_submit. apply shows_a_word_render. left. exact Hp.
  - exact Hp.
  - unfold on_click. destruct (download_name (input_value p)); exact Hp.
  - destruct (timers p !! id) as [ callback | ]; [ | exact Hp ].
    rewrite run_callback_render. apply shows_a_word_render. left. exact Hp.
Qed.

(** X15: whatever happens to the page, the label and the picture go
    together: there is a sanitized, non-empty word whose seed the label
    shows and whose mandala, signature included, is the last thing drawn,
    after a reset of the transformation and at the size the canvas has
    now. After [main] that word is the default word. *)
Theorem label_matches_picture
    (elements context : bool) (host : Host) (canvas0 : CanvasElement)
    (label : jsstring) (p0 : Page) (events : list Event) :
  main elements context host canvas0 label = Some p0 ->
  let p := run_events events p0 in
  shows (lit "harmony") [] p0
  /\ exists word earlier,
       word <> [] /\ sanitizeWord word = word
       /\ seedLabel p = seedLabel_text (computeSeed word)
       /\ ctx_calls p
          = earlier ++ ctx_setTransform 1 0 0 1 0 0
                       :: map ctx_drawing
                            (trace (drawMandala_body (attr_width (canvas p))
                                      (attr_height (canvas p)) word
                                      (Some {| signature := true |})
                                      (computeSeed word))).
Proof.
  intros Hmain. cbv zeta. apply main_page in Hmain.
  assert (Hword : sanitizeWord (lit "harmony") = lit "harmony") by reflexivity.
  assert (H0 : shows (lit "harmony") [] p0).
  { subst p0.
    match goal with
    | |- shows _ _ (renderFromInput _ ?q) =>
        pose proof (shows_render host q) as Hs
    end.
    cbn [input_value ctx_calls] in Hs. rewrite Hword in Hs.
    apply Hs. discriminate. }
  split; [ exact H0 | ].
  assert (Hp : shows_a_word (run_events events p0)).
  { induction events as [ | e events IH ] using rev_ind.
    - exists (lit "harmony"), []. split; [ discriminate | ].
      split; [ exact Hword | exact H0 ].
    - rewrite run_events_snoc. apply shows_a_word_handle, IH. }
  destruct Hp as (word & earlier & Hne & Hsan & Hlabel & Hcalls).
  exists word, earlier. repeat split; assumption.
Qed.

End Listeners.

Lemma at_most_one_timer_witness :
  let host := {| devicePixelRatio := Some (2 # 1); parent_width := Some (700 # 1) |} in
  let canvas0 := {| style_width := None; style_height := None;
                    attr_width := 300; attr_height := 150 |} in
  let p0 := @renderFromInput ascii_case_mapping host
              {| input_value := lit "harmony"; canvas := canvas0; ctx_calls := [];
                 seedLabel := []; resizeTimer := None; timers := ∅; downloads := [] |} in
  let p := @run_events ascii_case_mapping [ev_resize 1; ev_input (lit "lotus") 2] p0 in
  @main ascii_case_mapping true true host canvas0 [] = Some p0
  /\ (forall id callback, timers p !! id = Some callback -> resizeTimer p = Some id)
  /\ (size (timers p) <= 1)%nat
  /\ forall id value,
       timers (@handle ascii_case_mapping p (ev_resize id)) = {[ id := resize_callback ]}
       /\ timers (@handle ascii_case_mapping p (ev_input value id)) = {[ id := input_callback ]}.
Proof.
  intros host canvas0 p0 p.
  assert (Hmain : @main ascii_case_mapping true true host canvas0 [] = Some p0) by reflexivity.
  split; [ exact Hmain | ].
  exact (@at_most_one_timer ascii_case_mapping true true host canvas0 []
           p0 [ev_resize 1; ev_input (lit "lotus") 2] Hmain).
Defined.

Lemma label_matches_picture_witness :
  let host := {| devicePixelRatio := Some (2 # 1); parent_width := Some (700 # 1) |} in
  let canvas0 := {| style_width := None; style_height := None;
                    attr_width := 300; attr_height := 150 |} in
  let p0 := @renderFromInput ascii_case_mapping host
              {| input_value := lit "harmony"; canvas := canvas0; ctx_calls := [];
                 seedLabel := []; resizeTimer := None; timers := ∅; downloads := [] |} in
  let p := @run_events ascii_case_mapping [ev_input (lit "lotus") 1; ev_timeout 1 host] p0 in
  @main ascii_case_mapping true true host canvas0 [] = Some p0
  /\ @shows ascii_case_mapping (lit "harmony") [] p0
  /\ exists word earlier,
       word <> [] /\ sanitizeWord word = word
       /\ seedLabel p = seedLabel_text (@computeSeed ascii_case_mapping word)
       /\ ctx_calls p
          = earlier ++ ctx_setTransform 1 0 0 1 0 0
                       :: map ctx_drawing
                            (trace (drawMandala_body (attr_width (canvas p))
                                      (attr_height (canvas p)) word
                                      (Some {| signature := true |})
                                      (@computeSeed ascii_case_mapping word))).
Proof.
  intros host canvas0 p0 p.
  assert (Hmain : @main ascii_case_mapping true true host canvas0 [] = Some p0) by reflexivity.
  split; [ exact Hmain | ].
  exact (@label_matches_picture ascii_case_mapping true true host canvas0 []
           p0 [ev_input (lit "lotus") 1; ev_timeout 1 host] Hmain).
Defined.

(** X16: a click on the download button draws nothing and sets no timer;
    right after an edit of the field it downloads the picture drawn before
    the edit, under the name made from the edited field. *)
Theorem download_after_edit `{CaseMapping} (p : Page) (value : jsstring) (id : nat) :
  let p' := handle (handle p (ev_input value id)) ev_click in
  canvas p' = canvas p
  /\ ctx_calls p' = ctx_calls p
  /\ seedLabel p' = seedLabel p
  /\ timers p' = timers (handle p (ev_input value id))
  /\ downloads p'
     = downloads p
       ++ match download_name value with
          | None => []
          | Some name =>
              [ {| file_name := name;
                   picture := (attr_width (canvas p), attr_height (canvas p),
                               ctx_calls p) |} ]
          end.
Proof.
  cbv zeta. cbn [handle]. unfold on_click.
  cbn [debounce set_input_value input_value].
  destruct (download_name value) as [ name | ].
  - repeat split.
  - cbn [debounce set_input_value downloads canvas ctx_calls seedLabel timers].
    rewrite app_nil_r. repeat split.
Qed.

(** ** The seed label *)

Lemma uint_units_inj d1 : forall d2, uint_units d1 = uint_units d2 -> d1 = d2.
Proof.
  induction d1 as [ | d1 IH | d1 IH | d1 IH | d1 IH | d1 IH | d1 IH | d1 IH | d1 IH
                  | d1 IH | d1 IH ];
    intros [ | d2 | d2 | d2 | d2 | d2 | d2 | d2 | d2 | d2 | d2 ] E;
    cbn [uint_units] in E; try discriminate E; try reflexivity;
    injection E as E; f_equal; apply IH, E.
Qed.

Lemma uint_units_digits d : Forall (fun c => 48 <= c <= 57) (uint_units d).
Proof. induction d; cbn [uint_units]; constructor; try lia; assumption. Qed.

(** X17: the label tells the seeds apart: for unsigned 32-bit seeds, as
    [computeSeed] returns them, the number it shows is written with decimal
    digits only, at least one, and two labels are the same only for the
    same seed. *)
Theorem seedLabel_shows_seed (seed seed' : Z) :
  0 <= seed < 4294967296 -> 0 <= seed' < 4294967296 ->
  number_to_string seed <> []
  /\ Forall (fun c => 48 <= c <= 57) (number_to_string seed)
  /\ (seedLabel_text seed = seedLabel_text seed' -> seed = seed').
Proof.
  intros Hs Hs'. split; [ | split ].
  - unfold number_to_string. intros E.
    assert (Hnil : N.to_uint (Z.to_N seed) = Decimal.Nil)
      by (apply uint_units_inj; exact E).
    destruct (Z.to_N seed) as [ | n ]; [ discriminate Hnil | ].
    exact (DecimalPos.Unsigned.to_uint_nonnil n Hnil).
  - apply uint_units_digits.
  - unfold seedLabel_text, number_to_string. intros E.
    apply app_inv_head in E.
    assert (Hlen : forall d d' (t : jsstring),
               uint_units d ++ 32 :: t = uint_units d' ++ 32 :: t ->
               uint_units d = uint_units d').
    { intros d d' t Ed. apply app_inv_tail in Ed. exact Ed. }
    apply (Hlen _ _ _) in E. apply uint_units_inj in E.
    apply (f_equal N.of_uint) in E. rewrite !DecimalN.Unsigned.of_to in E. lia.
Qed.

Lemma seedLabel_shows_seed_witness :
  0 <= 2447940024 < 4294967296 /\ 0 <= 7 < 4294967296
  /\ number_to_string 2447940024 = lit "2447940024"
  /\ number_to_string 2447940024 <> []
  /\ Forall (fun c => 48 <= c <= 57) (number_to_string 2447940024)
  /\ (seedLabel_text 2447940024 = seedLabel_text 7 -> 2447940024 = 7).
Proof.
  split; [ lia | ]. split; [ lia | ].
  split; [ vm_compute; reflexivity | ].
  apply (seedLabel_shows_seed 2447940024 7); lia.
Defined.

(** ** The cost of the background *)

Lemma emits_ret {A} (x : A) : emits 0 (ret x).
Proof. intros a. reflexivity. Qed.

Lemma emits_rng : emits 0 rng.
Proof. intros a. rewrite trace_rng. reflexivity. Qed.

Lemma emits_emit c : emits 1 (emit c).
Proof. intros a. rewrite trace_emit. reflexivity. Qed.

Lemma emits_bind {A B} n1 n2 n (m : M A) (k : A -> M B) :
  emits n1 m -> (forall x, emits n2 (k x)) -> n = (n1 + n2)%nat -> emits n (bind m k).
Proof.
  intros Hm Hk -> a. rewrite trace_bind, length_app, Hm, Hk. reflexivity.
Qed.

Lemma emits_for_loop {A} c (body : Z -> M A) n : forall i,
  (forall j, emits c (body j)) -> emits (n * c) (for_loop n i body).
Proof.
  induction n as [ | n IH ]; intros i Hbody.
  - apply emits_ret.
  - cbn [for_loop Nat.mul].
    apply (emits_bind c (n * c)); [ apply Hbody | intros x | reflexivity ].
    apply (emits_bind (n * c) 0); [ apply IH, Hbody | intros xs; apply emits_ret | lia ].
Qed.

Lemma emits_eq {A} n n' (m : M A) : emits n m -> n = n' -> emits n' m.
Proof. intros Hm <-. exact Hm. Qed.

Ltac tally :=
  cbv zeta;
  lazymatch goal with
  | |- emits _ (bind _ _) =>
      eapply emits_bind; [ tally | intros ?; tally | reflexivity ]
  | |- emits _ rng => apply emits_rng
  | |- emits _ (emit _) => apply emits_emit
  | |- emits _ (ret _) => apply emits_ret
  | |- emits _ (for_range _ _) => eapply emits_for_loop; intros ?; tally
  end.

Lemma drawBackground_emits w h palette :
  emits (Z.to_nat 4810) (drawBackground w h palette).
Proof.
  unfold drawBackground. eapply emits_eq; [ tally | vm_compute; reflexivity ].
Qed.

(** X18: the background costs the same whatever the size and the palette:
    it takes 7200 values of the generator, three for each of its 2400
    grains, and makes 4810 calls, the first of which clears the whole
    surface. *)
Theorem drawBackground_fixed_cost (w h : Z) (palette : Palette) (a : Z) :
  state (drawBackground w h palette a) = gen_after (Z.to_nat 7200) a
  /\ length (trace (drawBackground w h palette a)) = Z.to_nat 4810
  /\ exists t, trace (drawBackground w h palette a) = ctx_clearRect 0 0 w h :: t.
Proof.
  split; [ apply drawBackground_consumes | ].
  split; [ apply drawBackground_emits | ].
  unfold drawBackground. rewrite trace_bind, trace_emit.
  eexists. reflexivity.
Qed.

(** ** [clamp] *)

(** X19: between bounds in order, [clamp] returns the nearest number within
    them: its argument when that lies within the bounds, and the bound it
    passes otherwise; clamping twice is clamping once. When the bounds are
    not in order it returns the lower one. *)
Theorem clamp_nearest (n min max : Z) :
  (min <= max ->
   min <= JS.clamp n min max <= max
   /\ (min <= n <= max -> JS.clamp n min max = n)
   /\ (n < min -> JS.clamp n min max = min)
   /\ (max < n -> JS.clamp n min max = max)
   /\ forall x, min <= x <= max ->
        Z.abs (n - JS.clamp n min max) <= Z.abs (n - x))
  /\ (max < min -> JS.clamp n min max = min)
  /\ JS.clamp (JS.clamp n min max) min max = JS.clamp n min max.
Proof.
  unfold JS.clamp. repeat split; intros; lia.
Qed.

